(** * PowerBI-SPC: limit calculation, outlier rules and change detection

    A shallow embedding of the calculation core of the visual:
    - [JS]: the fragment of JavaScript values and number operations the
      sources rely on;
    - [ChangeDetection]: src/Functions/changeDetection.ts;
    - [Outliers]: the twoInThree rule (inline worker script of
      src/Workers/CalculationWorkerManager.ts and the older module copy);
    - [Limits]: the i-chart limit calculation (src/Limit Calculations/i.ts
      and the inline worker script);
    - [ViewModel]: getGroupingIndexes and update of
      src/Classes/viewModelClass.ts;
    - [OutlierRules]: astronomical, shift and trend of the inline worker
      script;
    - [Slices]: the array slices of calculateLimits;
    - [Cache], [Scheduler], [SettingsHash], [Debounce]: ComputedValueCache,
      RenderScheduler, hashObject, createSettingsState and debounce of
      src/Functions/changeDetection.ts;
    - [Manager]: the request bookkeeping of CalculationWorkerManager. *)

From Stdlib Require Import ZArith QArith Qcanon Qround Lia.
From stdpp Require Import base numbers strings list sorting gmap pretty.

Local Open Scope Z_scope.
Set Warnings "-clear-no-such-hyp".

(** * JavaScript values *)

Module JS.

(** A JavaScript number.  A finite double is represented by the rational it
    denotes; arithmetic on finite values is exact (rounding to the nearest
    double, overflow and the sign of zero are not represented).  The three
    non-finite values follow IEEE 754.  What is stated below about a
    computed number holds for doubles as well: it concerns whether the
    number is NaN, its sign and its order against other numbers, the
    results of [x - x], [0 * x], [0 / x] and [x + 0], and arithmetic on
    small integers in the examples. *)
Inductive number : Type :=
  | Fin (q : Qc)
  | PosInf
  | NegInf
  | NaN.

Definition of_Z (z : Z) : number := Fin (Qc_of_Z z).
Definition of_Q (q : Q) : number := Fin (Q2Qc q).

Definition Qc_sgn (q : Qc) : comparison := Qccompare q (Qc_of_Z 0).

Definition neg (x : number) : number :=
  match x with
  | Fin q => Fin (- q)%Qc
  | PosInf => NegInf
  | NegInf => PosInf
  | NaN => NaN
  end.

Definition add (x y : number) : number :=
  match x, y with
  | NaN, _ | _, NaN => NaN
  | Fin a, Fin b => Fin (a + b)%Qc
  | PosInf, NegInf | NegInf, PosInf => NaN
  | PosInf, _ | _, PosInf => PosInf
  | NegInf, _ | _, NegInf => NegInf
  end.

Definition sub (x y : number) : number := add x (neg y).

Definition mul (x y : number) : number :=
  match x, y with
  | NaN, _ | _, NaN => NaN
  | Fin a, Fin b => Fin (a * b)%Qc
  | Fin a, PosInf | PosInf, Fin a =>
      match Qc_sgn a with Eq => NaN | Gt => PosInf | Lt => NegInf end
  | Fin a, NegInf | NegInf, Fin a =>
      match Qc_sgn a with Eq => NaN | Gt => NegInf | Lt => PosInf end
  | PosInf, PosInf | NegInf, NegInf => PosInf
  | PosInf, NegInf | NegInf, PosInf => NegInf
  end.

Definition div (x y : number) : number :=
  match x, y with
  | NaN, _ | _, NaN => NaN
  | Fin a, Fin b =>
      match Qc_sgn b with
      | Eq => match Qc_sgn a with Eq => NaN | Gt => PosInf | Lt => NegInf end
      | _ => Fin (a / b)%Qc
      end
  | Fin _, (PosInf | NegInf) => Fin (Qc_of_Z 0)
  | (PosInf | NegInf), (PosInf | NegInf) => NaN
  | PosInf, Fin b => match Qc_sgn b with Lt => NegInf | _ => PosInf end
  | NegInf, Fin b => match Qc_sgn b with Lt => PosInf | _ => NegInf end
  end.

(** [Math.abs]. *)
Definition abs (x : number) : number :=
  match x with
  | Fin q => match Qc_sgn q with Lt => Fin (- q)%Qc | _ => Fin q end
  | PosInf | NegInf => PosInf
  | NaN => NaN
  end.

(** The relational operator [x < y]; any comparison with NaN is false. *)
Definition lt (x y : number) : bool :=
  match x, y with
  | NaN, _ | _, NaN => false
  | Fin a, Fin b => match Qccompare a b with Lt => true | _ => false end
  | NegInf, (Fin _ | PosInf) => true
  | Fin _, PosInf => true
  | _, _ => false
  end.

Definition gt (x y : number) : bool := lt y x.

(** The global [isNaN] applied to a number. *)
Definition isNaN (x : number) : bool :=
  match x with NaN => true | _ => false end.

Definition isFinite (x : number) : bool :=
  match x with Fin _ => true | _ => false end.

(** ToBoolean on a number: 0 and NaN are falsy. *)
Definition truthy (x : number) : bool :=
  match x with
  | Fin q => match Qc_sgn q with Eq => false | _ => true end
  | NaN => false
  | _ => true
  end.

(** A reference that may be [null] or [undefined]. *)
Inductive maybe (A : Type) : Type :=
  | Null
  | Undefined
  | Present (a : A).
Arguments Null {A}.
Arguments Undefined {A}.
Arguments Present {A} a.

(** The array elements [hashArray] distinguishes ([unknown] in the
    source).  An object is carried by its [JSON.stringify] text. *)
Inductive value : Type :=
  | VNull
  | VUndefined
  | VNum (x : number)
  | VBool (b : bool)
  | VStr (s : string)
  | VObj (json : string).

(** ** Integer conversions *)

(** ToInt32: reduce modulo 2^32 into the signed range. *)
Definition to_int32 (z : Z) : Z :=
  let w := z mod 2 ^ 32 in
  if w <? 2 ^ 31 then w else w - 2 ^ 32.

(** ToUint32, as performed by [x >>> 0]. *)
Definition to_uint32 (z : Z) : Z := z mod 2 ^ 32.

(** [Math.imul]. *)
Definition imul (a b : Z) : Z := to_int32 (to_int32 a * to_int32 b).

(** [a ^ b] on numbers holding integers. *)
Definition bitxor (a b : Z) : Z := Z.lxor (to_int32 a) (to_int32 b).

(** ** Number formatting *)

Definition digit_char (base d : Z) : Ascii.ascii :=
  if d <? 10 then Ascii.ascii_of_nat (48 + Z.to_nat d)
  else Ascii.ascii_of_nat (87 + Z.to_nat d).

Fixpoint digits_go (fuel : nat) (base n : Z) (acc : string) : string :=
  match fuel with
  | O => acc
  | S fuel' =>
      if n <=? 0 then acc
      else digits_go fuel' base (n / base)
             (String (digit_char base (n mod base)) acc)
  end.

(** The digits of a non-negative integer in the given radix, lower-case,
    without leading zeros ([Number.prototype.toString(radix)] on such an
    integer). *)
Definition digits (base n : Z) : string :=
  if n <=? 0 then "0"
  else digits_go (S (Z.to_nat (Z.log2 n))) base n "".

Fixpoint zeros (k : nat) : string :=
  match k with
  | O => ""
  | S k' => String (Ascii.ascii_of_nat 48) (zeros k')
  end.

(** [Number.prototype.toFixed(f)] for a non-negative finite [x] below
    10^21: the integer [n] nearest to [x * 10^f] (the larger one on a tie),
    written with at least [f + 1] digits and a decimal point before the
    last [f]. *)
Definition toFixed_nonneg (f : nat) (x : Qc) : string :=
  let n := Qfloor (x * Q2Qc (inject_Z (10 ^ Z.of_nat f)) + Q2Qc (1 # 2))%Qc in
  let m := digits 10 n in
  if Nat.eqb f 0 then m
  else
    let k := String.length m in
    let m' := if Nat.leb k f then (zeros (f + 1 - k) +:+ m) else m in
    let k' := String.length m' in
    String.substring 0 (k' - f) m' +:+ "." +:+ String.substring (k' - f) f m'.

Section ToFixed.
(** [Number::toString] for magnitudes of 10^21 and above (exponent
    notation), to which [toFixed] defers. *)
Variable toString_large : Qc → string.

Definition toFixed (f : nat) (x : Qc) : string :=
  let neg := match Qc_sgn x with Lt => true | _ => false end in
  let ax := if neg then (- x)%Qc else x in
  let body :=
    match Qccompare ax (Qc_of_Z (10 ^ 21)) with
    | Lt => toFixed_nonneg f ax
    | _ => toString_large ax
    end in
  if neg then "-" +:+ body else body.
End ToFixed.

End JS.

(** * Change detection (src/Functions/changeDetection.ts) *)

Module ChangeDetection.
Import JS.

Record ChangeFlags : Type := {
  dataChanged : bool;
  settingsChanged : gset string;
  limitsNeedRecalc : bool;
  outliersNeedRecalc : bool;
  renderNeeded : gset string;
  resizeOnly : bool;
  viewportChanged : bool
}.

(** The viewport dimensions are the finite numbers the host reports. *)
Record DataState : Type := {
  numeratorsHash : string;
  denominatorsHash : option string;
  keysHash : string;
  dataLength : nat;
  splitIndexesHash : string;
  viewportWidth : Qc;
  viewportHeight : Qc
}.

Record SettingsState : Type := {
  categoryHashes : gmap string string
}.

Definition SETTINGS_TO_RENDER_MAP : gmap string (list string) :=
  list_to_map
    [ ("spc", ["dots"; "lines"; "icons"]);
      ("lines", ["lines"; "lineLabels"]);
      ("scatter", ["dots"]);
      ("outliers", ["dots"; "lines"; "icons"]);
      ("x_axis", ["xAxis"]);
      ("y_axis", ["yAxis"]);
      ("canvas", ["all"]);
      ("labels", ["valueLabels"]);
      ("nhs_icons", ["icons"]);
      ("summary_table", ["summaryTable"]);
      ("download", ["downloadButton"]) ].

Definition LIMIT_RECALC_SETTINGS : gset string := {[ "spc" ]}.

Definition OUTLIER_RECALC_SETTINGS : gset string := {[ "outliers" ]}.

Definition FNV_OFFSET_BASIS : Z := 2166136261.
Definition FNV_PRIME : Z := 16777619.

(** [strValue.charCodeAt(j)] for every [j], in order; the strings of the
    model hold code units below 256. *)
Fixpoint charCodes (s : string) : list Z :=
  match s with
  | EmptyString => []
  | String c s' => Z.of_nat (Ascii.nat_of_ascii c) :: charCodes s'
  end.

(** One round of the inner loop: [hash ^= code; hash = Math.imul(hash, FNV_PRIME)]. *)
Definition hashChar (hash code : Z) : Z :=
  imul (bitxor hash code) FNV_PRIME.

Definition hashString (hash : Z) (strValue : string) : Z :=
  foldl hashChar hash (charCodes strValue).

Section Hashing.
Variable toString_large : Qc → string.

(** The string each element contributes to the hash. *)
Definition strValue (v : value) : string :=
  match v with
  | VNull | VUndefined => "null"
  | VNum NaN => "NaN"
  | VNum PosInf => "Inf"
  | VNum NegInf => "-Inf"
  | VNum (Fin q) => toFixed toString_large 6 q
  | VObj json => json
  | VStr s => s
  | VBool true => "true"
  | VBool false => "false"
  end.

Definition hashArray (arr : maybe (list value)) : string :=
  match arr with
  | Null | Undefined | Present [] => "empty"
  | Present l =>
      let hash := foldl (λ h v, hashString h (strValue v)) FNV_OFFSET_BASIS l in
      digits 16 (to_uint32 hash)
  end.

Record key : Type := { x : Z; id : Z; label : value }.

Definition createDataState
    (numerators denominators : maybe (list value))
    (keys : maybe (list key))
    (splitIndexes : maybe (list value))
    (viewportWidth viewportHeight : Qc) : DataState :=
  {| numeratorsHash := hashArray numerators;
     denominatorsHash :=
       match denominators with
       | Present _ => Some (hashArray denominators)
       | _ => None
       end;
     keysHash :=
       match keys with
       | Present ks => hashArray (Present (map label ks))
       | _ => "null"
       end;
     dataLength :=
       match numerators with
       | Present l => length l
       | _ => 0%nat
       end;
     splitIndexesHash := hashArray splitIndexes;
     viewportWidth := viewportWidth;
     viewportHeight := viewportHeight |}.
End Hashing.

(** The three flags [detectDataChanges] returns. *)
Record DataChanges : Type := {
  dc_dataChanged : bool;
  dc_resizeOnly : bool;
  dc_viewportChanged : bool
}.

Definition detectDataChanges (prev : option DataState) (current : DataState)
  : DataChanges :=
  match prev with
  | None =>
      {| dc_dataChanged := true; dc_resizeOnly := false;
         dc_viewportChanged := true |}
  | Some prev =>
      let viewportChanged :=
        negb (bool_decide (viewportWidth prev = viewportWidth current))
        || negb (bool_decide (viewportHeight prev = viewportHeight current)) in
      let dataChanged :=
        negb (bool_decide (numeratorsHash prev = numeratorsHash current))
        || negb (bool_decide (denominatorsHash prev = denominatorsHash current))
        || negb (bool_decide (keysHash prev = keysHash current))
        || negb (bool_decide (dataLength prev = dataLength current))
        || negb (bool_decide (splitIndexesHash prev = splitIndexesHash current)) in
      let resizeOnly := viewportChanged && negb dataChanged in
      {| dc_dataChanged := dataChanged; dc_resizeOnly := resizeOnly;
         dc_viewportChanged := viewportChanged |}
  end.

Definition detectSettingsChanges
    (prev : option SettingsState) (current : SettingsState) : gset string :=
  match prev with
  | None => dom (categoryHashes current)
  | Some prev =>
      dom (filter (λ kv : string * string,
                     categoryHashes prev !! kv.1 ≠ Some kv.2)
                  (categoryHashes current))
  end.

(** The variables the loop over [settingsChanged] updates. *)
Record Pending : Type := {
  p_limits : bool;
  p_outliers : bool;
  p_render : gset string
}.

Definition addStages (stages : list string) (render : gset string)
  : gset string :=
  foldl (λ r stage, {[ stage ]} ∪ r) render stages.

(** The body of [for (const category of settingsChanged)], for a category
    whose property read yields an array or [undefined]
    ([settingsStepOutcome] below adds the other categories). *)
Definition settingsStep (category : string) (p : Pending) : Pending :=
  let p1 :=
    if bool_decide (category ∈ LIMIT_RECALC_SETTINGS)
    then {| p_limits := true; p_outliers := true; p_render := p_render p |}
    else p in
  let p2 :=
    if bool_decide (category ∈ OUTLIER_RECALC_SETTINGS)
    then {| p_limits := p_limits p1; p_outliers := true;
            p_render := p_render p1 |}
    else p1 in
  match SETTINGS_TO_RENDER_MAP !! category with
  | Some renderStages =>
      {| p_limits := p_limits p2; p_outliers := p_outliers p2;
         p_render := addStages renderStages (p_render p2) |}
  | None => p2
  end.

(** The flags [computeChangeFlags] returns ([computeChangeFlagsOutcome]
    below adds the TypeError of the settings loop). *)
Definition computeChangeFlags
    (prevDataState : option DataState) (currentDataState : DataState)
    (prevSettingsState : option SettingsState)
    (currentSettingsState : SettingsState)
    (isFirstRun : bool) : ChangeFlags :=
  let dc := detectDataChanges prevDataState currentDataState in
  let settingsChanged :=
    detectSettingsChanges prevSettingsState currentSettingsState in
  if isFirstRun then
    {| dataChanged := true;
       settingsChanged := settingsChanged;
       limitsNeedRecalc := true;
       outliersNeedRecalc := true;
       renderNeeded := {[ "all" ]};
       resizeOnly := false;
       viewportChanged := true |}
  else
    let p0 :=
      if dc_dataChanged dc
      then {| p_limits := true; p_outliers := true;
              p_render := addStages
                ["dots"; "lines"; "icons"; "xAxis"; "yAxis";
                 "valueLabels"; "lineLabels"] ∅ |}
      else {| p_limits := false; p_outliers := false; p_render := ∅ |} in
    let p1 := set_fold settingsStep p0 settingsChanged in
    let render2 :=
      if dc_viewportChanged dc
      then addStages ["xAxis"; "yAxis"] (p_render p1)
      else p_render p1 in
    let render3 :=
      if dc_resizeOnly dc && negb (p_limits p1)
      then addStages ["dots"; "lines"] render2
      else render2 in
    {| dataChanged := dc_dataChanged dc;
       settingsChanged := settingsChanged;
       limitsNeedRecalc := p_limits p1;
       outliersNeedRecalc := p_outliers p1;
       renderNeeded := render3;
       resizeOnly := dc_resizeOnly dc;
       viewportChanged := dc_viewportChanged dc |}.

(** ** The TypeError of the settings loop *)

(** [SETTINGS_TO_RENDER_MAP] is a plain object, so the property read
    [SETTINGS_TO_RENDER_MAP[category]] also finds the members that every
    object inherits from [Object.prototype]. *)
Definition OBJECT_PROTOTYPE_MEMBERS : gset string :=
  {[ "constructor"; "__defineGetter__"; "__defineSetter__"; "hasOwnProperty";
     "__lookupGetter__"; "__lookupSetter__"; "isPrototypeOf";
     "propertyIsEnumerable"; "toString"; "valueOf"; "__proto__";
     "toLocaleString" ]}.

(** What the property read yields: the array of an own key; for an
    inherited name a function (for [__proto__] the prototype object), which
    is truthy and not iterable; [undefined] for any other name. *)
Inductive renderStagesT : Type :=
  | OwnStages (stages : list string)
  | InheritedMember
  | NoStages.

Definition renderStagesOf (category : string) : renderStagesT :=
  match SETTINGS_TO_RENDER_MAP !! category with
  | Some stages => OwnStages stages
  | None =>
      if bool_decide (category ∈ OBJECT_PROTOTYPE_MEMBERS)
      then InheritedMember else NoStages
  end.

(** The body of the loop as it runs: [for (const stage of renderStages)]
    over a value that is not iterable throws a TypeError ([None]), which
    ends [computeChangeFlags]. *)
Definition settingsStepOutcome (category : string) (p : option Pending)
  : option Pending :=
  match p with
  | None => None
  | Some p =>
      let p1 :=
        if bool_decide (category ∈ LIMIT_RECALC_SETTINGS)
        then {| p_limits := true; p_outliers := true; p_render := p_render p |}
        else p in
      let p2 :=
        if bool_decide (category ∈ OUTLIER_RECALC_SETTINGS)
        then {| p_limits := p_limits p1; p_outliers := true;
                p_render := p_render p1 |}
        else p1 in
      match renderStagesOf category with
      | OwnStages renderStages =>
          Some {| p_limits := p_limits p2; p_outliers := p_outliers p2;
                  p_render := addStages renderStages (p_render p2) |}
      | InheritedMember => None
      | NoStages => Some p2
      end
  end.

(** [computeChangeFlags] with its two ways to end: the flags it returns, or
    [None] for the TypeError. *)
Definition computeChangeFlagsOutcome
    (prevDataState : option DataState) (currentDataState : DataState)
    (prevSettingsState : option SettingsState)
    (currentSettingsState : SettingsState)
    (isFirstRun : bool) : option ChangeFlags :=
  let dc := detectDataChanges prevDataState currentDataState in
  let settingsChanged :=
    detectSettingsChanges prevSettingsState currentSettingsState in
  if isFirstRun then
    Some {| dataChanged := true;
            settingsChanged := settingsChanged;
            limitsNeedRecalc := true;
            outliersNeedRecalc := true;
            renderNeeded := {[ "all" ]};
            resizeOnly := false;
            viewportChanged := true |}
  else
    let p0 :=
      if dc_dataChanged dc
      then {| p_limits := true; p_outliers := true;
              p_render := addStages
                ["dots"; "lines"; "icons"; "xAxis"; "yAxis";
                 "valueLabels"; "lineLabels"] ∅ |}
      else {| p_limits := false; p_outliers := false; p_render := ∅ |} in
    match set_fold settingsStepOutcome (Some p0) settingsChanged with
    | None => None
    | Some p1 =>
        let render2 :=
          if dc_viewportChanged dc
          then addStages ["xAxis"; "yAxis"] (p_render p1)
          else p_render p1 in
        let render3 :=
          if dc_resizeOnly dc && negb (p_limits p1)
          then addStages ["dots"; "lines"] render2
          else render2 in
        Some {| dataChanged := dc_dataChanged dc;
                settingsChanged := settingsChanged;
                limitsNeedRecalc := p_limits p1;
                outliersNeedRecalc := p_outliers p1;
                renderNeeded := render3;
                resizeOnly := dc_resizeOnly dc;
                viewportChanged := dc_viewportChanged dc |}
    end.

(** An array argument that is absent or has no element. *)
Definition absentOrEmpty (arr : maybe (list value)) : Prop :=
  arr = Null ∨ arr = Undefined ∨ arr = Present [].

End ChangeDetection.

(** * Outlier flagging: the twoInThree rule *)

Module Outliers.
Import JS.

(** The three strings a rule returns for a point. *)
Inductive Flag : Type := none | lower | upper.

Global Instance Flag_eq_dec : EqDecision Flag.
Proof. solve_decision. Defined.

(** An array of limits as the worker receives it: the array itself may be
    missing, and an entry may be [null]. *)
Definition limits : Type := option (list (option number)).

(** [(ll && ll[i] !== null && val[i] < ll[i]) ? 1 : 0]; an index past the
    end reads [undefined], against which every comparison is false. *)
Definition lower_flag_at (ll : limits) (i : nat) (v : number) : Z :=
  match ll with
  | None => 0
  | Some l =>
      match l !! i with
      | Some (Some b) => if lt v b then 1 else 0
      | Some None => 0
      | None => 0
      end
  end.

Definition upper_flag_at (ul : limits) (i : nat) (v : number) : Z :=
  match ul with
  | None => 0
  | Some l =>
      match l !! i with
      | Some (Some b) => if gt v b then 1 else 0
      | Some None => 0
      | None => 0
      end
  end.

(** The variables of the running-window loop. *)
Record Window : Type := {
  lowerWindowSum : Z;
  upperWindowSum : Z;
  lower_sum : list Z;
  upper_sum : list Z
}.

Definition windowStep (lower_flag upper_flag : list Z) (w : Window) (i : nat)
  : Window :=
  let l1 := lowerWindowSum w + default 0 (lower_flag !! i) in
  let u1 := upperWindowSum w + default 0 (upper_flag !! i) in
  let l2 := if (3 <=? i)%nat then l1 - default 0 (lower_flag !! (i - 3)%nat) else l1 in
  let u2 := if (3 <=? i)%nat then u1 - default 0 (upper_flag !! (i - 3)%nat) else u1 in
  {| lowerWindowSum := l2; upperWindowSum := u2;
     lower_sum := lower_sum w ++ [l2]; upper_sum := upper_sum w ++ [u2] |}.

Definition detect (lower_s upper_s : Z) : Flag :=
  if 2 <=? lower_s then lower
  else if 2 <=? upper_s then upper
  else none.

(** The inner loop [for (j = i - 1; j >= i - 2; j--)] with its guard
    [if (j >= 0) detected[j] = detected[i]], run when [detected[i]] is not
    "none". *)
Definition backfillStep (detected : list Flag) (i : nat) : list Flag :=
  match detected !! i with
  | Some f =>
      if bool_decide (f ≠ none) then
        foldl (λ det (j : Z), if 0 <=? j then <[Z.to_nat j := f]> det else det)
          detected [Z.of_nat i - 1; Z.of_nat i - 2]
      else detected
  | None => detected
  end.

(** [twoInThree] of the inline worker script. *)
Definition twoInThree (val : list number) (ll ul : limits)
    (highlightSeries : bool) : list Flag :=
  let len := length val in
  if (len =? 0)%nat then []
  else
    let lower_flag := imap (lower_flag_at ll) val in
    let upper_flag := imap (upper_flag_at ul) val in
    let w := foldl (windowStep lower_flag upper_flag)
               {| lowerWindowSum := 0; upperWindowSum := 0;
                  lower_sum := []; upper_sum := [] |}
               (seq 0 len) in
    let detected := zip_with detect (lower_sum w) (upper_sum w) in
    if highlightSeries
    then foldl backfillStep detected (seq 0 len)
    else detected.

(** ** The older module copy (no toggle: the backfill always runs) *)

(** [d > ul95[i] ? 1 : (d < ll95[i] ? -1 : 0)]. *)
Definition outside95_at (ll95 ul95 : list number) (i : nat) (d : number) : Z :=
  if match ul95 !! i with Some u => gt d u | None => false end then 1
  else if match ll95 !! i with Some l => lt d l | None => false end then -1
  else 0.

(** [arr.slice(from, to)]. *)
Definition slice {A} (from to : nat) (arr : list A) : list A :=
  take (to - from) (drop from arr).

Definition sumZ (l : list Z) : Z := foldl Z.add 0 l.

Definition detect_signed (d : Z) : Flag :=
  if 2 <=? Z.abs d then (if 2 <=? d then upper else lower) else none.

(** [arr[j] = f] for an integer [j] below the length: a store at a
    negative index adds a property and leaves the elements as they are. *)
Definition store {A} (arr : list A) (j : Z) (f : A) : list A :=
  if j <? 0 then arr else <[Z.to_nat j := f]> arr.

(** The backfill of the older copy, without the [j >= 0] guard. *)
Definition backfillStep_legacy (detected : list Flag) (i : nat) : list Flag :=
  match detected !! i with
  | Some f =>
      if bool_decide (f ≠ none) then
        foldl (λ det (j : Z), store det j f)
          detected [Z.of_nat i - 1; Z.of_nat i - 2]
      else detected
  | None => detected
  end.

Definition twoInThree_legacy (val ll95 ul95 : list number) : list Flag :=
  let outside95 := imap (outside95_at ll95 ul95) val in
  let lagged_sign_sum :=
    imap (λ i _, sumZ (slice (Nat.max 0 (i - 2)) (i + 1) outside95)) outside95 in
  let two_in_three_detected := map detect_signed lagged_sign_sum in
  foldl backfillStep_legacy two_in_three_detected
    (seq 0 (length two_in_three_detected)).

End Outliers.

(** * The i-chart limit calculation *)

Module Limits.
Import JS.

(** The literals 3.267 and 1.128: the doubles nearest to these decimals. *)
Definition c3_267 : number := of_Q (7356629991309705 # 2251799813685248).
Definition c1_128 : number := of_Q (5080060379673919 # 4503599627370496).

Record key : Type := { x : Z; id : Z; label : string }.

(** The arguments of a limit function ([controlLimitsArgs]). *)
Record controlLimitsArgs : Type := {
  keys : list key;
  numerators : list number;
  denominators : option (list number);
  outliers_in_limits : bool;
  subset_points : option (list nat)
}.

(** The object a limit function returns. *)
Record controlLimitsObject : Type := {
  r_keys : list key;
  values : list number;
  r_numerators : option (list number);
  r_denominators : option (list number);
  targets : list number;
  ll99 : list number;
  ll95 : list number;
  ll68 : option (list number);
  ul68 : option (list number);
  ul95 : list number;
  ul99 : list number
}.

(** ** Helpers of the inline worker script *)

Module Worker.

(** [sum / arr.length], and 0 for an empty array. *)
Definition mean (arr : list number) : number :=
  if (length arr =? 0)%nat then of_Z 0
  else div (foldl add (of_Z 0) arr) (of_Z (Z.of_nat (length arr))).

(** [denominators && denominators[i] ? numerators[i] / denominators[i]
    : numerators[i]]. *)
Definition divide (numerators : list number)
    (denominators : option (list number)) : list number :=
  imap (λ i n,
          match denominators with
          | Some ds =>
              match ds !! i with
              | Some d => if truthy d then div n d else n
              | None => n
              end
          | None => n
          end) numerators.

Definition abs (arr : list number) : list number := map JS.abs arr.

(** [result[i] = arr[i + 1] - arr[i]]. *)
Fixpoint diff (arr : list number) : list number :=
  match arr with
  | a :: (b :: _) as tl => sub b a :: diff tl
  | _ => []
  end.

Definition rep (value : number) (n : nat) : list number := replicate n value.

(** Keeps [arr[i]] for the indices [i] in [indices]; the whole array when
    no indices are given. *)
Definition extractValues (arr : list number) (indices : option (list nat))
  : list number :=
  match indices with
  | None | Some [] => arr
  | Some idx =>
      omap (λ p : nat * number, if bool_decide (p.1 ∈ idx) then Some p.2 else None)
           (imap pair arr)
  end.

Definition sigma (ratio_subset : list number) (outliers_in_limits : bool)
  : number :=
  let consec_diff := abs (diff ratio_subset) in
  let consec_diff_ulim := mul (mean consec_diff) c3_267 in
  let consec_diff_valid :=
    if outliers_in_limits then consec_diff
    else filter (λ d, lt d consec_diff_ulim = true) consec_diff in
  div (mean consec_diff_valid) c1_128.

(** [args.denominators && args.denominators.length > 0]. *)
Definition useRatio (args : controlLimitsArgs) : bool :=
  match denominators args with
  | Some ds => (0 <? length ds)%nat
  | None => false
  end.

Definition ratio (args : controlLimitsArgs) : list number :=
  if useRatio args then divide (numerators args) (denominators args)
  else numerators args.

Definition iLimits (args : controlLimitsArgs) : controlLimitsObject :=
  let useRatio := useRatio args in
  let ratio := ratio args in
  let ratio_subset := extractValues ratio (subset_points args) in
  let cl := mean ratio_subset in
  let sigma := sigma ratio_subset (outliers_in_limits args) in
  let n := length (keys args) in
  {| r_keys := keys args;
     values := map (λ d, if isNaN d then of_Z 0 else d) ratio;
     r_numerators := if useRatio then Some (numerators args) else None;
     r_denominators := if useRatio then denominators args else None;
     targets := rep cl n;
     ll99 := rep (sub cl (mul (of_Z 3) sigma)) n;
     ll95 := rep (sub cl (mul (of_Z 2) sigma)) n;
     ll68 := Some (rep (sub cl (mul (of_Z 1) sigma)) n);
     ul68 := Some (rep (add cl (mul (of_Z 1) sigma)) n);
     ul95 := rep (add cl (mul (of_Z 2) sigma)) n;
     ul99 := rep (add cl (mul (of_Z 3) sigma)) n |}.

End Worker.

(** ** src/Limit Calculations/i.ts *)

(** [d3.mean] of the d3-array library: the mean of the entries that are
    numbers (NaN is skipped), and [undefined] when there is none. *)
Definition d3_mean (values : list number) : option number :=
  let valid := filter (λ v, isNaN v = false) values in
  if (length valid =? 0)%nat then None
  else Some (div (foldl add (of_Z 0) valid) (of_Z (Z.of_nat (length valid)))).

(** ToNumber of a result that may be [undefined]. *)
Definition to_number (v : option number) : number := default NaN v.

Section IChart.
(** The helpers i.ts imports from ../Functions: element-wise division,
    consecutive differences and element-wise absolute value. *)
Variable divide : list number → list number → list number.
Variable diff : list number → list number.
Variable abs : list number → list number.

Definition sigma (ratio : list number) (outliers_in_limits : bool) : number :=
  let consec_diff := abs (diff ratio) in
  let consec_diff_ulim := mul (to_number (d3_mean consec_diff)) c3_267 in
  let consec_diff_valid :=
    if outliers_in_limits then consec_diff
    else filter (λ d, lt d consec_diff_ulim = true) consec_diff in
  div (to_number (d3_mean consec_diff_valid)) c1_128.

Definition useRatio (args : controlLimitsArgs) : bool :=
  match denominators args with
  | Some ds => (0 <? length ds)%nat
  | None => false
  end.

Definition ratio (args : controlLimitsArgs) : list number :=
  if useRatio args
  then divide (numerators args) (default [] (denominators args))
  else numerators args.

(** [args.inputData] and [args.inputSettings.spc.outliers_in_limits] are
    the fields of [controlLimitsArgs].  A centre line that is [undefined]
    (no number among the ratios) is held as NaN, as it is in the limits
    computed from it. *)
Definition iLimits (args : controlLimitsArgs) : controlLimitsObject :=
  let useRatio := useRatio args in
  let ratio := ratio args in
  let cl := to_number (d3_mean ratio) in
  let sigma := sigma ratio (outliers_in_limits args) in
  let n := length (keys args) in
  {| r_keys := keys args;
     values := map (λ d, if isNaN d then of_Z 0 else d) ratio;
     r_numerators := if useRatio then Some (numerators args) else None;
     r_denominators := if useRatio then denominators args else None;
     targets := replicate n cl;
     ll99 := replicate n (sub cl (mul (of_Z 3) sigma));
     ll95 := replicate n (sub cl (mul (of_Z 2) sigma));
     ll68 := None;
     ul68 := None;
     ul95 := replicate n (add cl (mul (of_Z 2) sigma));
     ul99 := replicate n (add cl (mul (of_Z 3) sigma)) |}.
End IChart.

End Limits.

(** * The view model (src/Classes/viewModelClass.ts) *)

Module ViewModel.
Import JS ChangeDetection.

(** ** getGroupingIndexes *)

(** [arr.indexOf(d)]: the first position holding [d], or -1. *)
Fixpoint indexOf (arr : list Z) (d : Z) : Z :=
  match arr with
  | [] => -1
  | a :: arr' =>
      if bool_decide (a = d) then 0
      else let r := indexOf arr' d in if r <? 0 then -1 else r + 1
  end.

(** [arr.filter((d, idx, arr) => arr.indexOf(d) === idx)]. *)
Definition dedup (arr : list Z) : list Z :=
  (filter (λ p : nat * Z, indexOf arr p.2 = Z.of_nat p.1)
          (zip (seq 0 (length arr)) arr)).*2.

(** [arr.sort((a, b) => a - b)]: the ascending arrangement of the
    elements. *)
Definition sortAscending (arr : list Z) : list Z := merge_sort Z.le arr.

(** [inputData.validationStatus]. *)
Record validationStatusT : Type := {
  status : Z;
  error : string
}.

(** [inputData.limitInputArgs], as far as [update] reads it. *)
Record limitInputArgsT : Type := {
  keys : list key;
  numerators : list value;
  denominators : option (list value)
}.

(** The fields of [dataObject] that [update] and [getGroupingIndexes]
    read. *)
Record dataObject : Type := {
  limitInputArgs : limitInputArgsT;
  groupingIndexes : list Z;
  validationStatus : validationStatusT;
  warningMessage : string
}.

Definition allIndexes (inputData : dataObject)
    (splitIndexes : option (list Z)) : list Z :=
  sortAscending
    (dedup (default [] splitIndexes ++ [-1] ++ groupingIndexes inputData
            ++ [Z.of_nat (length (keys (limitInputArgs inputData))) - 1])).

Definition getGroupingIndexes (inputData : dataObject)
    (splitIndexes : option (list Z)) : list (Z * Z) :=
  let allIndexes := allIndexes inputData splitIndexes in
  (λ i : nat, (allIndexes !!! i + 1, allIndexes !!! (i + 1)%nat + 1))
    <$> seq 0 (length allIndexes - 1).

(** The loop of [getGroupingIndexes] by recursion on the sorted indexes:
    each index and its successor give one range. *)
Fixpoint consecutive (l : list Z) : list (Z * Z) :=
  match l with
  | a :: (b :: _) as tl => (a + 1, b + 1) :: consecutive tl
  | _ => []
  end.

(** A range list that runs from [a] to [b] without gap or overlap, every
    range [start, end) holding at least one index. *)
Inductive chain : Z → Z → list (Z * Z) → Prop :=
  | chain_one a b : a < b → chain a b [(a, b)]
  | chain_cons a b c rs : a < b → chain b c rs → chain a c ((a, b) :: rs).

(** Consecutive ranges share their boundary. *)
Definition contiguous (rs : list (Z * Z)) : Prop :=
  ∀ i r1 r2, rs !! i = Some r1 → rs !! S i = Some r2 → r1.2 = r2.1.

(** No index lies in two ranges: an earlier range ends before a later one
    starts. *)
Definition non_overlapping (rs : list (Z * Z)) : Prop :=
  ∀ i j r1 r2, (i < j)%nat → rs !! i = Some r1 → rs !! j = Some r2 →
               r1.2 ≤ r2.1.

(** The ranges hold exactly the indices [0 .. n-1]. *)
Definition covers (rs : list (Z * Z)) (n : Z) : Prop :=
  ∀ k, 0 ≤ k < n ↔ ∃ r, r ∈ rs ∧ r.1 ≤ k < r.2.

(** Starts ascend, and every range is a non-empty half-open range. *)
Definition sorted_ranges (rs : list (Z * Z)) : Prop :=
  StronglySorted (λ r1 r2 : Z * Z, r1.1 < r2.1) rs ∧ ∀ r, r ∈ rs → r.1 < r.2.

(** ** update *)

(** What [update] returns ([viewModelValidationT]). *)
Record viewModelValidationT : Type := {
  res_status : bool;
  res_error : option string;
  res_warning : option string;
  res_type : option string
}.

(** How a call of [update] ends: it returns, or a property of [null] is
    read and a TypeError escapes. *)
Inductive outcome : Type :=
  | Returned (res : viewModelValidationT)
  | Thrown.

(** [options], as far as [update] reads it directly. *)
Record VisualUpdateOptions (DataViews : Type) : Type := {
  type : Z;
  viewport_width : Qc;
  viewport_height : Qc;
  opt_headless : bool;
  opt_frontend : bool;
  dataViews : DataViews
}.
Arguments type {DataViews}.
Arguments viewport_width {DataViews}.
Arguments viewport_height {DataViews}.
Arguments opt_headless {DataViews}.
Arguments opt_frontend {DataViews}.
Arguments dataViews {DataViews}.

Definition newline : string := String (Ascii.ascii_of_nat 10) "".

(** [arr.join("\n")]. *)
Definition joinLines (arr : list string) : string := String.concat newline arr.

Section Update.
(** The objects [update] only passes on: the settings object, the data
    views of the host, the host itself, computed limits, outlier flags,
    plot points, grouped lines, the colour palette, selection identities
    and the remaining plot tables. *)
Context {Settings DataViews Host Limits OutlierFlags PlotData Lines
         Palette Identities Tables GroupedPlot : Type}.

(** Which settings a call works on: [inputSettings.settings] or
    [inputSettings.settingsGrouped[idx]]. *)
Definition selector : Type := option nat.

(** The functions [update] calls that live outside this class, and the
    methods of this class that only build render data. *)
Record Collaborators : Type := {
  colourPaletteOf : Host → Palette;
  indicatorVarNamesOf : DataViews → list string;
  idxPerIndicatorOf : DataViews → list (list nat);
  groupNamesOf : DataViews → list (list string);
  settingsUpdate : Settings → DataViews → list (list nat) → Settings;
  settingsError : Settings → string;
  validateDataView : DataViews → Settings → string;
  createSettingsState : Settings → SettingsState;
  hasIndicator : DataViews → bool;
  splitIndexesOf : DataViews → list Z;
  extractInputData : DataViews → Settings → selector → list nat → dataObject;
  calculateLimits : dataObject → list (Z * Z) → Settings → selector → Limits;
  scaleAndTruncateLimits : Limits → Settings → selector → Limits;
  flagOutliers : option Limits → list (Z * Z) → Settings → selector → OutlierFlags;
  createIdentities : Host → DataViews → list nat → Identities;
  initialisePlotDataGrouped :
    Settings → list (list string) → list dataObject → list (option Limits) →
    list (option OutlierFlags) → list Identities → GroupedPlot;
  initialisePlotData :
    option Limits → option OutlierFlags → dataObject → Settings →
    option Palette → Host → list PlotData * Tables;
  initialiseGroupedLines :
    option Limits → Settings → list Z → dataObject → Lines;
  toString_large : Qc → string
}.

(** The fields of the view model. *)
Record viewModel : Type := {
  inputData : option dataObject;
  inputSettings : Settings;
  controlLimits : option Limits;
  outliers : option OutlierFlags;
  plotPoints : list PlotData;
  groupedLines : option Lines;
  tables : option Tables;
  splitIndexes : list Z;
  groupStartEndIndexes : list (Z * Z);
  firstRun : bool;
  colourPalette : option Palette;
  svgWidth : Qc;
  svgHeight : Qc;
  headless : bool;
  frontend : bool;
  showGrouped : bool;
  indicatorVarNames : list string;
  groupNames : option (list (list string));
  inputDataGrouped : option (list dataObject);
  controlLimitsGrouped : option (list (option Limits));
  outliersGrouped : option (list (option OutlierFlags));
  groupStartEndIndexesGrouped : option (list (list (Z * Z)));
  identitiesGrouped : option (list Identities);
  plotPointsGrouped : option GroupedPlot;
  prevDataState : option DataState;
  prevSettingsState : option SettingsState;
  lastChangeFlags : option ChangeFlags
}.

Variable C : Collaborators.

(** [createDataState(args?.numerators ?? null, args?.denominators ?? null,
    args?.keys ?? null, this.splitIndexes, this.svgWidth, this.svgHeight)]. *)
Definition currentDataStateOf (d : option dataObject) (splits : list Z)
    (w h : Qc) : DataState :=
  createDataState (toString_large C)
    (match d with Some d => Present (numerators (limitInputArgs d)) | None => Null end)
    (match d with
     | Some d =>
         match denominators (limitInputArgs d) with
         | Some ds => Present ds
         | None => Null
         end
     | None => Null
     end)
    (match d with Some d => Present (keys (limitInputArgs d)) | None => Null end)
    (Present (map (λ z, VNum (of_Z z)) splits))
    w h.

(** The results for one indicator group, in the order the five arrays are
    pushed. *)
Record groupResult : Type := {
  g_identities : Identities;
  g_inputData : dataObject;
  g_groupStartEndIndexes : list (Z * Z);
  g_limits : option Limits;
  g_outliers : option OutlierFlags
}.

(** The body of [idx_per_indicator.forEach((group_idxs, idx) => ...)]. *)
Definition processGroup (settings : Settings) (host : Host) (dv : DataViews)
    (idx : nat) (group_idxs : list nat) : groupResult :=
  let inpData := extractInputData C dv settings (Some idx) group_idxs in
  let invalidData := negb (status (validationStatus inpData) =? 0) in
  let groupStartEndIndexes :=
    if invalidData then [] else getGroupingIndexes inpData None in
  let limits :=
    if invalidData then None
    else Some (calculateLimits C inpData groupStartEndIndexes settings (Some idx)) in
  let outliers :=
    if invalidData then None
    else Some (flagOutliers C limits groupStartEndIndexes settings (Some idx)) in
  let limits' :=
    if invalidData then limits
    else (λ l, scaleAndTruncateLimits C l settings (Some idx)) <$> limits in
  {| g_identities := createIdentities C host dv group_idxs;
     g_inputData := inpData;
     g_groupStartEndIndexes := groupStartEndIndexes;
     g_limits := limits';
     g_outliers := outliers |}.

(** The final part of [update], from [this.prevSettingsState = ...] on. *)
Definition finish (vm : viewModel) (currentSettingsState : SettingsState)
  : viewModel * outcome :=
  let vm1 :=
    {| inputData := inputData vm; inputSettings := inputSettings vm;
       controlLimits := controlLimits vm; outliers := outliers vm;
       plotPoints := plotPoints vm; groupedLines := groupedLines vm;
       tables := tables vm; splitIndexes := splitIndexes vm;
       groupStartEndIndexes := groupStartEndIndexes vm;
       firstRun := false;
       colourPalette := colourPalette vm; svgWidth := svgWidth vm;
       svgHeight := svgHeight vm; headless := headless vm;
       frontend := frontend vm; showGrouped := showGrouped vm;
       indicatorVarNames := indicatorVarNames vm;
       groupNames := groupNames vm;
       inputDataGrouped := inputDataGrouped vm;
       controlLimitsGrouped := controlLimitsGrouped vm;
       outliersGrouped := outliersGrouped vm;
       groupStartEndIndexesGrouped := groupStartEndIndexesGrouped vm;
       identitiesGrouped := identitiesGrouped vm;
       plotPointsGrouped := plotPointsGrouped vm;
       prevDataState := prevDataState vm;
       prevSettingsState := Some currentSettingsState;
       lastChangeFlags := lastChangeFlags vm |} in
  if showGrouped vm1 then
    match inputDataGrouped vm1 with
    | None => (vm1, Thrown)
    | Some ds =>
        if existsb (λ d, negb (status (validationStatus d) =? 0)) ds then
          (vm1, Returned {| res_status := false;
                            res_error := Some (joinLines (map (λ d, error (validationStatus d)) ds));
                            res_warning := None; res_type := None |})
        else
          (vm1, Returned {| res_status := true; res_error := None;
                            res_warning :=
                              if existsb (λ d, negb (bool_decide (warningMessage d = ""))) ds
                              then Some (joinLines (map warningMessage ds))
                              else None;
                            res_type := None |})
    end
  else
    match inputData vm1 with
    | None => (vm1, Thrown)
    | Some d =>
        if negb (status (validationStatus d) =? 0) then
          (vm1, Returned {| res_status := false;
                            res_error := Some (error (validationStatus d));
                            res_warning := None; res_type := None |})
        else
          (vm1, Returned {| res_status := true; res_error := None;
                            res_warning :=
                              if negb (bool_decide (warningMessage d = ""))
                              then Some (warningMessage d) else None;
                            res_type := None |})
    end.

(** The statements before the settings check: palette, viewport and
    indicator bookkeeping, and the settings update on a data cycle. *)
Definition prologue (vm : viewModel) (options : VisualUpdateOptions DataViews)
    (host : Host) : viewModel :=
  let dv := dataViews options in
  {| inputData := inputData vm;
     inputSettings :=
       if (type options =? 2) || firstRun vm
       then settingsUpdate C (inputSettings vm) dv (idxPerIndicatorOf C dv)
       else inputSettings vm;
     controlLimits := controlLimits vm; outliers := outliers vm;
     plotPoints := plotPoints vm; groupedLines := groupedLines vm;
     tables := tables vm; splitIndexes := splitIndexes vm;
     groupStartEndIndexes := groupStartEndIndexes vm;
     firstRun := firstRun vm;
     colourPalette :=
       match colourPalette vm with
       | None => Some (colourPaletteOf C host)
       | Some p => Some p
       end;
     svgWidth := viewport_width options;
     svgHeight := viewport_height options;
     headless := opt_headless options;
     frontend := opt_frontend options;
     showGrouped := showGrouped vm;
     indicatorVarNames := indicatorVarNamesOf C dv;
     groupNames := Some (groupNamesOf C dv);
     inputDataGrouped := inputDataGrouped vm;
     controlLimitsGrouped := controlLimitsGrouped vm;
     outliersGrouped := outliersGrouped vm;
     groupStartEndIndexesGrouped := groupStartEndIndexesGrouped vm;
     identitiesGrouped := identitiesGrouped vm;
     plotPointsGrouped := plotPointsGrouped vm;
     prevDataState := prevDataState vm;
     prevSettingsState := prevSettingsState vm;
     lastChangeFlags := lastChangeFlags vm |}.

(** The branch taken when a category column has the indicator role. *)
Definition groupedCycle (vm : viewModel) (options : VisualUpdateOptions DataViews)
    (host : Host) (currentSettingsState : SettingsState) : viewModel :=
  let dv := dataViews options in
  let groups := imap (processGroup (inputSettings vm) host dv) (idxPerIndicatorOf C dv) in
  let inputDataGrouped := g_inputData <$> groups in
  let controlLimitsGrouped := g_limits <$> groups in
  let outliersGrouped := g_outliers <$> groups in
  let identitiesGrouped := g_identities <$> groups in
  {| inputData := inputData vm; inputSettings := inputSettings vm;
     controlLimits := controlLimits vm; outliers := outliers vm;
     plotPoints := plotPoints vm; groupedLines := groupedLines vm;
     tables := tables vm; splitIndexes := splitIndexes vm;
     groupStartEndIndexes := groupStartEndIndexes vm;
     firstRun := firstRun vm;
     colourPalette := colourPalette vm; svgWidth := svgWidth vm;
     svgHeight := svgHeight vm; headless := headless vm;
     frontend := frontend vm;
     showGrouped := true;
     indicatorVarNames := indicatorVarNames vm;
     groupNames := groupNames vm;
     inputDataGrouped := Some inputDataGrouped;
     controlLimitsGrouped := Some controlLimitsGrouped;
     outliersGrouped := Some outliersGrouped;
     groupStartEndIndexesGrouped := Some (g_groupStartEndIndexes <$> groups);
     identitiesGrouped := Some identitiesGrouped;
     plotPointsGrouped :=
       Some (initialisePlotDataGrouped C (inputSettings vm)
               (default [] (groupNames vm)) inputDataGrouped
               controlLimitsGrouped outliersGrouped identitiesGrouped);
     prevDataState := prevDataState vm;
     prevSettingsState := prevSettingsState vm;
     lastChangeFlags :=
       Some (computeChangeFlags (prevDataState vm)
               (createDataState (toString_large C) Null Null Null Null
                  (svgWidth vm) (svgHeight vm))
               (prevSettingsState vm) currentSettingsState (firstRun vm)) |}.

(** [extractInputData(options.dataViews[0].categorical,
    this.inputSettings.settings, ..., idx_per_indicator[0])]. *)
Definition extracted (vm : viewModel) (options : VisualUpdateOptions DataViews)
  : dataObject :=
  extractInputData C (dataViews options) (inputSettings vm) None
    (default [] (idxPerIndicatorOf C (dataViews options) !! 0%nat)).

(** The branch without indicator column: [this.inputData] and
    [this.splitIndexes] are replaced, and limits, outliers and plot data
    are rebuilt only if the extracted data has validation status 0. *)
Definition singleCycle (vm : viewModel) (options : VisualUpdateOptions DataViews)
    (host : Host) (currentSettingsState : SettingsState) : viewModel :=
  let dv := dataViews options in
  let split_indexes := splitIndexesOf C dv in
  let inpData := extracted vm options in
  if status (validationStatus inpData) =? 0 then
    let currentDataState :=
      currentDataStateOf (Some inpData) split_indexes (svgWidth vm) (svgHeight vm) in
    let flags :=
      computeChangeFlags (prevDataState vm) currentDataState
        (prevSettingsState vm) currentSettingsState (firstRun vm) in
    let recalcLimits := limitsNeedRecalc flags || firstRun vm in
    let groupStartEndIndexes' :=
      if recalcLimits then getGroupingIndexes inpData (Some split_indexes)
      else groupStartEndIndexes vm in
    let controlLimits' :=
      if recalcLimits
      then Some (scaleAndTruncateLimits C
                   (calculateLimits C inpData groupStartEndIndexes' (inputSettings vm) None)
                   (inputSettings vm) None)
      else controlLimits vm in
    let outliers' :=
      if outliersNeedRecalc flags || firstRun vm
      then Some (flagOutliers C controlLimits' groupStartEndIndexes' (inputSettings vm) None)
      else outliers vm in
    let plot :=
      initialisePlotData C controlLimits' outliers' inpData (inputSettings vm)
        (colourPalette vm) host in
    {| inputData := Some inpData; inputSettings := inputSettings vm;
       controlLimits := controlLimits'; outliers := outliers';
       plotPoints := plot.1;
       groupedLines :=
         Some (initialiseGroupedLines C controlLimits' (inputSettings vm)
                 split_indexes inpData);
       tables := Some plot.2; splitIndexes := split_indexes;
       groupStartEndIndexes := groupStartEndIndexes';
       firstRun := firstRun vm;
       colourPalette := colourPalette vm; svgWidth := svgWidth vm;
       svgHeight := svgHeight vm; headless := headless vm;
       frontend := frontend vm;
       showGrouped := false;
       indicatorVarNames := indicatorVarNames vm;
       groupNames := None;
       inputDataGrouped := None;
       controlLimitsGrouped := None;
       outliersGrouped := outliersGrouped vm;
       groupStartEndIndexesGrouped := None;
       identitiesGrouped := identitiesGrouped vm;
       plotPointsGrouped := plotPointsGrouped vm;
       prevDataState := Some currentDataState;
       prevSettingsState := prevSettingsState vm;
       lastChangeFlags := Some flags |}
  else
    {| inputData := Some inpData; inputSettings := inputSettings vm;
       controlLimits := controlLimits vm; outliers := outliers vm;
       plotPoints := plotPoints vm; groupedLines := groupedLines vm;
       tables := tables vm; splitIndexes := split_indexes;
       groupStartEndIndexes := groupStartEndIndexes vm;
       firstRun := firstRun vm;
       colourPalette := colourPalette vm; svgWidth := svgWidth vm;
       svgHeight := svgHeight vm; headless := headless vm;
       frontend := frontend vm;
       showGrouped := false;
       indicatorVarNames := indicatorVarNames vm;
       groupNames := None;
       inputDataGrouped := None;
       controlLimitsGrouped := None;
       outliersGrouped := outliersGrouped vm;
       groupStartEndIndexesGrouped := None;
       identitiesGrouped := identitiesGrouped vm;
       plotPointsGrouped := plotPointsGrouped vm;
       prevDataState := prevDataState vm;
       prevSettingsState := prevSettingsState vm;
       lastChangeFlags := lastChangeFlags vm |}.

(** The branch of a resize-only or style-only update. *)
Definition viewCycle (vm : viewModel) (currentSettingsState : SettingsState)
  : viewModel :=
  let currentDataState :=
    currentDataStateOf (inputData vm) (splitIndexes vm) (svgWidth vm) (svgHeight vm) in
  {| inputData := inputData vm; inputSettings := inputSettings vm;
     controlLimits := controlLimits vm; outliers := outliers vm;
     plotPoints := plotPoints vm; groupedLines := groupedLines vm;
     tables := tables vm; splitIndexes := splitIndexes vm;
     groupStartEndIndexes := groupStartEndIndexes vm;
     firstRun := firstRun vm;
     colourPalette := colourPalette vm; svgWidth := svgWidth vm;
     svgHeight := svgHeight vm; headless := headless vm;
     frontend := frontend vm; showGrouped := showGrouped vm;
     indicatorVarNames := indicatorVarNames vm;
     groupNames := groupNames vm;
     inputDataGrouped := inputDataGrouped vm;
     controlLimitsGrouped := controlLimitsGrouped vm;
     outliersGrouped := outliersGrouped vm;
     groupStartEndIndexesGrouped := groupStartEndIndexesGrouped vm;
     identitiesGrouped := identitiesGrouped vm;
     plotPointsGrouped := plotPointsGrouped vm;
     prevDataState := Some currentDataState;
     prevSettingsState := prevSettingsState vm;
     lastChangeFlags :=
       Some (computeChangeFlags (prevDataState vm) currentDataState
               (prevSettingsState vm) currentSettingsState (firstRun vm)) |}.

Definition update (vm : viewModel) (options : VisualUpdateOptions DataViews)
    (host : Host) : viewModel * outcome :=
  let dataCycle := (type options =? 2) || firstRun vm in
  let vm0 := prologue vm options host in
  if negb (bool_decide (settingsError C (inputSettings vm0) = "")) then
    (vm0, Returned {| res_status := false;
                      res_error := Some (settingsError C (inputSettings vm0));
                      res_warning := None; res_type := Some "settings" |})
  else
    let checkDV := validateDataView C (dataViews options) (inputSettings vm0) in
    if negb (bool_decide (checkDV = "valid")) then
      (vm0, Returned {| res_status := false; res_error := Some checkDV;
                        res_warning := None; res_type := None |})
    else
      let currentSettingsState := createSettingsState C (inputSettings vm0) in
      let vm1 :=
        if dataCycle then
          if hasIndicator C (dataViews options)
          then groupedCycle vm0 options host currentSettingsState
          else singleCycle vm0 options host currentSettingsState
        else viewCycle vm0 currentSettingsState in
      finish vm1 currentSettingsState.

(** The results of the last successful cycle that the renderers read. *)
Definition sameResults (vm vm' : viewModel) : Prop :=
  controlLimits vm' = controlLimits vm
  ∧ outliers vm' = outliers vm
  ∧ plotPoints vm' = plotPoints vm
  ∧ groupedLines vm' = groupedLines vm
  ∧ tables vm' = tables vm
  ∧ groupStartEndIndexes vm' = groupStartEndIndexes vm.

(** The cycle reaches the branch without indicator column, which replaces
    [this.inputData]: a data cycle whose settings and data view pass
    validation and whose categories hold no indicator column. *)
Definition replacesInput (vm : viewModel)
    (options : VisualUpdateOptions DataViews) (host : Host) : bool :=
  let vm0 := prologue vm options host in
  ((type options =? 2) || firstRun vm)
  && bool_decide (settingsError C (inputSettings vm0) = "")
  && bool_decide (validateDataView C (dataViews options) (inputSettings vm0)
                  = "valid")
  && negb (hasIndicator C (dataViews options)).

End Update.

End ViewModel.

(** * Example data *)

Module Examples.
Import JS.

Section ChangeDetectionExamples.
Import ChangeDetection.

(** The viewport dimensions and data hashes of the examples. *)
Definition exampleState (width : Z) : DataState :=
  {| numeratorsHash := "bdbb5bc6"; denominatorsHash := None;
     keysHash := "empty"; dataLength := 2; splitIndexesHash := "empty";
     viewportWidth := Qc_of_Z width; viewportHeight := Qc_of_Z 300 |}.

Definition exampleSettings : SettingsState :=
  {| categoryHashes := {[ "spc" := "811c9dc5"; "canvas" := "50c5d7e" ]} |}.

(** The doubles nearest to the decimal literals of the hash examples. *)
Definition double_1_0000001 : value :=
  VNum (of_Q (4503600077730459 # 4503599627370496)).
Definition double_1_0000004 : value :=
  VNum (of_Q (4503601428810347 # 4503599627370496)).
Definition double_1_1 : value :=
  VNum (of_Q (2476979795053773 # 2251799813685248)).
Definition double_1_2 : value :=
  VNum (of_Q (5404319552844595 # 4503599627370496)).
Definition double_2 : value := VNum (of_Z 2).

End ChangeDetectionExamples.

Section OutlierExamples.
Import Outliers.

(** The series of the example, with the upper 2-sigma limit 50 at every
    point. *)
Definition example_val : list number := of_Z <$> [10; 20; 90; 95; 15; 95; 95].
Definition example_ul95 : limits := Some (replicate 7 (Some (of_Z 50))).
Definition example_ll95 : limits := Some (replicate 7 (Some (of_Z 0))).

End OutlierExamples.

Section LimitExamples.
Import Limits.

Definition exampleKeys (n : nat) : list key :=
  (λ i, {| x := Z.of_nat i; id := Z.of_nat i; label := "" |}) <$> seq 0 n.

(** Three equal values, no denominators. *)
Definition constantArgs (outliers_in_limits : bool) : controlLimitsArgs :=
  {| keys := exampleKeys 3;
     numerators := of_Z <$> [5; 5; 5];
     denominators := None;
     outliers_in_limits := outliers_in_limits;
     subset_points := None |}.

(** A subgroup of a single value. *)
Definition singleArgs (outliers_in_limits : bool) : controlLimitsArgs :=
  {| keys := exampleKeys 1;
     numerators := [of_Z 5];
     denominators := None;
     outliers_in_limits := outliers_in_limits;
     subset_points := None |}.

(** i.ts with the helpers as the worker script inlines them. *)
Definition iLimits_ts : controlLimitsArgs → controlLimitsObject :=
  iLimits (λ n d, Worker.divide n (Some d)) Worker.diff Worker.abs.

(** A zero denominator and an infinite numerator. *)
Definition zeroDenominatorArgs : controlLimitsArgs :=
  {| keys := exampleKeys 2;
     numerators := [of_Z 5; PosInf];
     denominators := Some [of_Z 0; of_Z 1];
     outliers_in_limits := true;
     subset_points := None |}.

(** A ratio that is NaN. *)
Definition nanRatioArgs : controlLimitsArgs :=
  {| keys := exampleKeys 1;
     numerators := [NaN];
     denominators := Some [of_Z 4];
     outliers_in_limits := true;
     subset_points := None |}.

End LimitExamples.

Section ViewModelExamples.
Import ChangeDetection ViewModel.

Definition exampleKey (i : nat) : key :=
  {| x := Z.of_nat i; id := Z.of_nat i; label := VStr "" |}.

(** Ten valid points with grouping breaks after the points 3 and 5. *)
Definition exampleData : dataObject :=
  {| limitInputArgs :=
       {| keys := exampleKey <$> seq 0 10;
          numerators := (λ i, VNum (of_Z (Z.of_nat i))) <$> seq 0 10;
          denominators := None |};
     groupingIndexes := [3; 5; 3];
     validationStatus := {| status := 0; error := "" |};
     warningMessage := "" |}.

(** Input that failed validation. *)
Definition invalidData : dataObject :=
  {| limitInputArgs := {| keys := []; numerators := []; denominators := None |};
     groupingIndexes := [];
     validationStatus := {| status := 1; error := "No valid data found!" |};
     warningMessage := "" |}.

(** Collaborators whose extraction fails validation; limits, flags and
    plot points are numbers. *)
Definition failingCollaborators
  : @Collaborators unit unit unit nat nat nat nat unit unit unit unit :=
  {| colourPaletteOf := λ _, tt;
     indicatorVarNamesOf := λ _, [];
     idxPerIndicatorOf := λ _, [[0; 1; 2]%nat];
     groupNamesOf := λ _, [[]];
     settingsUpdate := λ s _ _, s;
     settingsError := λ _, "";
     validateDataView := λ _ _, "valid";
     createSettingsState := λ _, {| categoryHashes := ∅ |};
     hasIndicator := λ _, false;
     splitIndexesOf := λ _, [];
     extractInputData := λ _ _ _ _, invalidData;
     calculateLimits := λ _ _ _ _, 0%nat;
     scaleAndTruncateLimits := λ l _ _, l;
     flagOutliers := λ _ _ _ _, 0%nat;
     createIdentities := λ _ _ _, tt;
     initialisePlotDataGrouped := λ _ _ _ _ _ _, tt;
     initialisePlotData := λ _ _ _ _ _ _, ([], tt);
     initialiseGroupedLines := λ _ _ _ _, 0%nat;
     toString_large := λ _, "1e+21" |}.

(** A view model after a successful cycle. *)
Definition previousModel
  : @viewModel unit nat nat nat nat unit unit unit unit :=
  {| inputData := Some exampleData; inputSettings := tt;
     controlLimits := Some 7%nat; outliers := Some 3%nat;
     plotPoints := [1; 2; 3]%nat; groupedLines := Some 4%nat;
     tables := Some tt; splitIndexes := [5; 2; 7];
     groupStartEndIndexes := [(0, 3); (3, 4); (4, 6); (6, 8); (8, 10)];
     firstRun := false;
     colourPalette := Some tt;
     svgWidth := Qc_of_Z 400; svgHeight := Qc_of_Z 300;
     headless := false; frontend := false; showGrouped := false;
     indicatorVarNames := []; groupNames := None;
     inputDataGrouped := None; controlLimitsGrouped := None;
     outliersGrouped := None; groupStartEndIndexesGrouped := None;
     identitiesGrouped := None; plotPointsGrouped := None;
     prevDataState := None; prevSettingsState := None;
     lastChangeFlags := None |}.

(** A data update. *)
Definition dataUpdate : VisualUpdateOptions unit :=
  {| type := 2; viewport_width := Qc_of_Z 400; viewport_height := Qc_of_Z 300;
     opt_headless := false; opt_frontend := false; dataViews := tt |}.

End ViewModelExamples.

End Examples.

(** * Notions used to state the further properties *)

Module Notions.
Import JS ChangeDetection.

(** The characters of a string, in order. *)
Fixpoint chars (s : string) : list Ascii.ascii :=
  match s with
  | EmptyString => []
  | String c s' => c :: chars s'
  end.

(** A lower-case hexadecimal digit. *)
Definition hexDigit (c : Ascii.ascii) : Prop :=
  let n := Ascii.nat_of_ascii c in
  (48 ≤ n ≤ 57)%nat ∨ (97 ≤ n ≤ 102)%nat.

(** The strings of the elements, one after the other. *)
Definition elementText (toString_large : Qc → string) (l : list value) : string :=
  foldr String.append "" (strValue toString_large <$> l).

End Notions.

(** * The other outlier rules of the inline worker script *)

Module OutlierRules.
Import JS Outliers.

(** [ll && ll[i] !== null && x < ll[i]]. *)
Definition belowLimit (ll : limits) (i : nat) (x : number) : bool :=
  match ll with
  | None => false
  | Some l =>
      match l !! i with
      | Some (Some b) => lt x b
      | _ => false
      end
  end.

(** [ul && ul[i] !== null && x > ul[i]]. *)
Definition aboveLimit (ul : limits) (i : nat) (x : number) : bool :=
  match ul with
  | None => false
  | Some l =>
      match l !! i with
      | Some (Some b) => gt x b
      | _ => false
      end
  end.

(** [astronomical]; a value that is [null] or [undefined] is [None]. *)
Definition astronomical (val : list (option number)) (ll ul : limits)
  : list Flag :=
  imap (λ i v,
          match v with
          | None => none
          | Some x =>
              if belowLimit ll i x then lower
              else if aboveLimit ul i x then upper
              else none
          end) val.

(** [Math.sign]; [None] stands for NaN. *)
Definition sign (x : number) : option Z :=
  match x with
  | NaN => None
  | PosInf => Some 1
  | NegInf => Some (-1)
  | Fin q => Some (match Qc_sgn q with Lt => -1 | Eq => 0 | Gt => 1 end)
  end.

(** Sum and difference of window sums, which are integers or NaN. *)
Definition addN (a b : option Z) : option Z :=
  match a, b with
  | Some x, Some y => Some (x + y)
  | _, _ => None
  end.

Definition subN (a b : option Z) : option Z :=
  match a, b with
  | Some x, Some y => Some (x - y)
  | _, _ => None
  end.

(** [arr[k]] as a summand: NaN when the entry is NaN or [k] is past the
    end. *)
Definition summand (arr : list (option Z)) (k : Z) : option Z :=
  if k <? 0 then None else mjoin (arr !! Z.to_nat k).

(** The body of the running-sum loop of [shift] and [trend] for a window
    of [w] entries: [windowSum += arr[i]; if (i >= w) windowSum -= arr[i - w];
    sums[i] = windowSum]. *)
Definition runStep (w : Z) (arr : list (option Z))
    (st : option Z * list (option Z)) (i : nat) : option Z * list (option Z) :=
  let s1 := addN st.1 (summand arr (Z.of_nat i)) in
  let s2 := if w <=? Z.of_nat i then subN s1 (summand arr (Z.of_nat i - w)) else s1 in
  (s2, st.2 ++ [s2]).

Definition runningSums (w : Z) (arr : list (option Z)) : list (option Z) :=
  (foldl (runStep w arr) (Some 0, []) (seq 0 (length arr))).2.

(** [Math.abs(sum) >= w ? (sum >= w ? "upper" : "lower") : "none"]. *)
Definition detectRun (w : Z) (sum : option Z) : Flag :=
  match sum with
  | None => none
  | Some s => if w <=? Z.abs s then (if w <=? s then upper else lower) else none
  end.

(** The backfill of [shift] and [trend] at [i]: when [detected[i]] is not
    "none", it is stored at [j = i - 1, ..., i - (n - 1)] where [j >= 0]. *)
Definition backfill (n : nat) (detected : list Flag) (i : nat) : list Flag :=
  match detected !! i with
  | Some f =>
      if bool_decide (f ≠ none) then
        foldl (λ det (j : Z), if 0 <=? j then <[Z.to_nat j := f]> det else det)
          detected ((λ k : nat, Z.of_nat i - 1 - Z.of_nat k) <$> seq 0 (n - 1))
      else detected
  | None => detected
  end.

(** [lagged_sign[i] = Math.sign(val[i] - targets[i])]; a missing target
    makes the difference NaN. *)
Definition lagged_sign (val targets : list number) : list (option Z) :=
  imap (λ i v, sign (sub v (default NaN (targets !! i)))) val.

Definition shift (val targets : list number) (n : nat) : list Flag :=
  let len := length val in
  if (len =? 0)%nat then []
  else
    let lagged_sign_sum := runningSums (Z.of_nat n) (lagged_sign val targets) in
    let shift_detected := detectRun (Z.of_nat n) <$> lagged_sign_sum in
    foldl (backfill n) shift_detected (seq 0 len).

(** [direction[0] = 0], and for [i >= 1] the direction of the step from
    [val[i - 1]] to [val[i]]. *)
Definition direction (val : list number) : list Z :=
  imap (λ i v,
          match i with
          | O => 0
          | S i' =>
              match val !! i' with
              | Some p => if gt v p then 1 else if lt v p then -1 else 0
              | None => 0
              end
          end) val.

Definition trend (val : list number) (n : nat) : list Flag :=
  let len := length val in
  if (len =? 0)%nat then []
  else
    let windowSize := Z.of_nat n - 1 in
    let direction_sum := runningSums windowSize (Some <$> direction val) in
    let trend_detected := detectRun windowSize <$> direction_sum in
    foldl (backfill n) trend_detected (seq 0 len).

End OutlierRules.

(** * Notions used to state the properties of the outlier rules *)

Module RuleNotions.
Import JS Outliers OutlierRules.

(** The sum of the entries [i - w + 1 .. i] of [zs] (from 0 when the window
    starts before the array). *)
Definition windowTotal (w : nat) (zs : list Z) (i : nat) : Z :=
  sumZ (slice (i + 1 - w) (i + 1) zs).

(** The window sum that precedes step [m] of the running-sum loop. *)
Definition carried (w : nat) (zs : list Z) (m : nat) : Z :=
  match m with
  | O => 0
  | S k => windowTotal w zs k
  end.

(** The [n] points from [s] on are all strictly above their targets. *)
Definition runAbove (val targets : list number) (s n : nat) : Prop :=
  (s + n ≤ length val)%nat
  ∧ ∀ k v t, (s ≤ k < s + n)%nat → val !! k = Some v → targets !! k = Some t →
             gt v t = true.

Definition runBelow (val targets : list number) (s n : nat) : Prop :=
  (s + n ≤ length val)%nat
  ∧ ∀ k v t, (s ≤ k < s + n)%nat → val !! k = Some v → targets !! k = Some t →
             lt v t = true.

(** The [n] points from [s] on rise strictly from each to the next. *)
Definition rising (val : list number) (s n : nat) : Prop :=
  (s + n ≤ length val)%nat
  ∧ ∀ k p v, (s ≤ k)%nat → (S k < s + n)%nat →
             val !! k = Some p → val !! S k = Some v → gt v p = true.

Definition falling (val : list number) (s n : nat) : Prop :=
  (s + n ≤ length val)%nat
  ∧ ∀ k p v, (s ≤ k)%nat → (S k < s + n)%nat →
             val !! k = Some p → val !! S k = Some v → lt v p = true.

(** Every entry is a finite number. *)
Definition allFinite (l : list number) : Prop :=
  Forall (λ x, isFinite x = true) l.

(** A window-sum entry is -1, 0 or 1. *)
Definition unit (z : Z) : Prop := -1 ≤ z ≤ 1.

(** The signs of [shift] as integers, 0 standing in where the sign is NaN. *)
Definition signsZ (val targets : list number) : list Z :=
  default 0 <$> lagged_sign val targets.

(** The flags of [shift] and [trend] before the backfill, for a window of
    [w] entries over [zs]. *)
Definition triggers (w : nat) (zs : list Z) : list Flag :=
  (λ i, detectRun (Z.of_nat w) (Some (windowTotal w zs i))) <$> seq 0 (length zs).

(** No difference [val[i] - targets[i]] is NaN: every value has a target,
    neither is NaN and they are not infinities of the same sign. *)
Definition comparable (val targets : list number) : Prop :=
  (length val ≤ length targets)%nat
  ∧ Forall (λ p, isNaN (sub p.1 p.2) = false) (zip val targets).

(** The window entry that stands behind a flag. *)
Definition flagSign (f : Flag) : Z :=
  match f with
  | upper => 1
  | lower => -1
  | none => 0
  end.

(** The variables of the running-window loop of [twoInThree] at its start. *)
Definition window0 : Window :=
  {| lowerWindowSum := 0; upperWindowSum := 0; lower_sum := []; upper_sum := [] |}.


End RuleNotions.

(** * Notions used to state the further properties of the limits *)

Module LimitNotions.
Import JS Limits.

(** A finite number that is not negative. *)
Definition nonnegative (x : number) : Prop :=
  ∃ q : Qc, x = Fin q ∧ (0 ≤ q)%Qc.

(** Every entry is a finite number. *)
Definition finiteList (l : list number) : Prop :=
  Forall (λ x, isFinite x = true) l.

(** The denominator the worker script reads for position [i]:
    [args.denominators[i]] when the ratio is formed, nothing when there are
    no denominators or the array ends before [i]. *)
Definition denominatorAt (args : controlLimitsArgs) (i : nat) : option number :=
  if Worker.useRatio args then denominators args ≫= (λ ds, ds !! i) else None.

(** A number as the values array holds it: itself, and the sentinel 0 in
    place of NaN. *)
Definition orSentinel (x : number) : number := if isNaN x then of_Z 0 else x.

(** No entry is NaN. *)
Definition noNaN (l : list number) : Prop :=
  Forall (λ x, isNaN x = false) l.

(** [a > b] is false: [a] is at most [b], or one of the two is NaN. *)
Definition notAbove (a b : number) : Prop := gt a b = false.

(** What a mean of absolute values can be: a finite number that is not
    negative, Infinity, or NaN. *)
Definition dispersion (x : number) : Prop :=
  x = NaN ∨ x = PosInf ∨ nonnegative x.

End LimitNotions.

(** * Further example data *)

Module FurtherExamples.
Import JS ChangeDetection Limits ViewModel Examples.

(** Collaborators whose extraction yields ten valid points. *)
Definition workingCollaborators
  : @Collaborators unit unit unit nat nat nat nat unit unit unit unit :=
  {| colourPaletteOf := λ _, tt;
     indicatorVarNamesOf := λ _, [];
     idxPerIndicatorOf := λ _, [[0; 1; 2]%nat];
     groupNamesOf := λ _, [[]];
     settingsUpdate := λ s _ _, s;
     settingsError := λ _, "";
     validateDataView := λ _ _, "valid";
     createSettingsState := λ _, {| categoryHashes := ∅ |};
     hasIndicator := λ _, false;
     splitIndexesOf := λ _, [];
     extractInputData := λ _ _ _ _, exampleData;
     calculateLimits := λ _ _ _ _, 1%nat;
     scaleAndTruncateLimits := λ l _ _, l;
     flagOutliers := λ _ _ _ _, 2%nat;
     createIdentities := λ _ _ _, tt;
     initialisePlotDataGrouped := λ _ _ _ _ _ _, tt;
     initialisePlotData := λ _ _ _ _ _ _, ([], tt);
     initialiseGroupedLines := λ _ _ _ _, 0%nat;
     toString_large := λ _, "1e+21" |}.

(** Collaborators whose settings carry a validation error. *)
Definition rejectingCollaborators
  : @Collaborators unit unit unit nat nat nat nat unit unit unit unit :=
  {| colourPaletteOf := λ _, tt;
     indicatorVarNamesOf := λ _, [];
     idxPerIndicatorOf := λ _, [[0; 1; 2]%nat];
     groupNamesOf := λ _, [[]];
     settingsUpdate := λ s _ _, s;
     settingsError := λ _, "Invalid settings";
     validateDataView := λ _ _, "valid";
     createSettingsState := λ _, {| categoryHashes := ∅ |};
     hasIndicator := λ _, false;
     splitIndexesOf := λ _, [];
     extractInputData := λ _ _ _ _, exampleData;
     calculateLimits := λ _ _ _ _, 1%nat;
     scaleAndTruncateLimits := λ l _ _, l;
     flagOutliers := λ _ _ _ _, 2%nat;
     createIdentities := λ _ _ _, tt;
     initialisePlotDataGrouped := λ _ _ _ _ _ _, tt;
     initialisePlotData := λ _ _ _ _ _ _, ([], tt);
     initialiseGroupedLines := λ _ _ _ _, 0%nat;
     toString_large := λ _, "1e+21" |}.

(** A view model whose previous states are those of the data that
    [workingCollaborators] extract for [dataUpdate]. *)
Definition settledModel
  : @viewModel unit nat nat nat nat unit unit unit unit :=
  {| inputData := Some exampleData; inputSettings := tt;
     controlLimits := Some 7%nat; outliers := Some 3%nat;
     plotPoints := [1; 2; 3]%nat; groupedLines := Some 4%nat;
     tables := Some tt; splitIndexes := [];
     groupStartEndIndexes := [(0, 4); (4, 6); (6, 10)];
     firstRun := false;
     colourPalette := Some tt;
     svgWidth := Qc_of_Z 400; svgHeight := Qc_of_Z 300;
     headless := false; frontend := false; showGrouped := false;
     indicatorVarNames := []; groupNames := None;
     inputDataGrouped := None; controlLimitsGrouped := None;
     outliersGrouped := None; groupStartEndIndexesGrouped := None;
     identitiesGrouped := None; plotPointsGrouped := None;
     prevDataState :=
       Some (currentDataStateOf workingCollaborators (Some exampleData) []
               (Qc_of_Z 400) (Qc_of_Z 300));
     prevSettingsState := Some {| categoryHashes := ∅ |};
     lastChangeFlags := None |}.

(** Collaborators for data views that either hold an indicator column and
    valid data ([true]) or hold none and fail validation ([false]). *)
Definition switchingCollaborators
  : @Collaborators unit bool unit nat nat nat nat unit unit unit unit :=
  {| colourPaletteOf := λ _, tt;
     indicatorVarNamesOf := λ _, [];
     idxPerIndicatorOf := λ _, [[0; 1; 2]%nat];
     groupNamesOf := λ _, [[]];
     settingsUpdate := λ s _ _, s;
     settingsError := λ _, "";
     validateDataView := λ _ _, "valid";
     createSettingsState := λ _, {| categoryHashes := ∅ |};
     hasIndicator := λ dv, dv;
     splitIndexesOf := λ _, [];
     extractInputData := λ dv _ _ _, if dv then exampleData else invalidData;
     calculateLimits := λ _ _ _ _, 1%nat;
     scaleAndTruncateLimits := λ l _ _, l;
     flagOutliers := λ _ _ _ _, 2%nat;
     createIdentities := λ _ _ _, tt;
     initialisePlotDataGrouped := λ _ _ _ _ _ _, tt;
     initialisePlotData := λ _ _ _ _ _ _, ([], tt);
     initialiseGroupedLines := λ _ _ _ _, 0%nat;
     toString_large := λ _, "1e+21" |}.

(** A data update with an indicator column, and one without. *)
Definition groupedUpdate : VisualUpdateOptions bool :=
  {| type := 2; viewport_width := Qc_of_Z 400; viewport_height := Qc_of_Z 300;
     opt_headless := false; opt_frontend := false; dataViews := true |}.

Definition rejectedUpdate : VisualUpdateOptions bool :=
  {| type := 2; viewport_width := Qc_of_Z 400; viewport_height := Qc_of_Z 300;
     opt_headless := false; opt_frontend := false; dataViews := false |}.

(** The view model after a cycle in grouped mode. *)
Definition groupedModel
  : @viewModel unit nat nat nat nat unit unit unit unit :=
  (update switchingCollaborators previousModel groupedUpdate tt).1.

(** Denominators NaN and 0 under the numerator 5. *)
Definition unusableDenominatorArgs : controlLimitsArgs :=
  {| Limits.keys := exampleKeys 2;
     Limits.numerators := [of_Z 5; of_Z 5];
     Limits.denominators := Some [NaN; of_Z 0];
     outliers_in_limits := true;
     subset_points := None |}.

(** An infinite numerator, no denominators. *)
Definition infiniteArgs : controlLimitsArgs :=
  {| Limits.keys := exampleKeys 2;
     Limits.numerators := [of_Z 1; PosInf];
     Limits.denominators := None;
     outliers_in_limits := true;
     subset_points := None |}.

(** Three values that differ, no denominators. *)
Definition variedArgs : controlLimitsArgs :=
  {| Limits.keys := exampleKeys 3;
     Limits.numerators := of_Z <$> [1; 2; 4];
     Limits.denominators := None;
     outliers_in_limits := false;
     subset_points := None |}.

End FurtherExamples.

(** * Array slices *)

Module Slices.

(** [arr.slice(start, end)] for integers: a negative index counts from the
    end, and both are clamped to the array. *)
Definition jsSlice {A} (start end_ : Z) (arr : list A) : list A :=
  let len := Z.of_nat (length arr) in
  let k := if start <? 0 then Z.max (len + start) 0 else Z.min start len in
  let final := if end_ <? 0 then Z.max (len + end_) 0 else Z.min end_ len in
  take (Z.to_nat (final - k)) (drop (Z.to_nat k) arr).

(** [groupStartEndIndexes.map(indexes => arr.slice(indexes[0], indexes[1]))],
    the pieces of one array of [limitInputArgs] that [calculateLimits] hands
    to the limit function, range by range. *)
Definition groupedSlices {A} (groupStartEndIndexes : list (Z * Z))
    (arr : list A) : list (list A) :=
  (λ indexes : Z * Z, jsSlice indexes.1 indexes.2 arr) <$> groupStartEndIndexes.

End Slices.

(** * The cache and the render scheduler of changeDetection.ts *)

Module Cache.

Section Cache.
Context {K V : Type} `{Countable K}.

(** The two maps of a [ComputedValueCache]. *)
Record ComputedValueCache : Type := {
  cache : gmap K V;
  validityHashes : gmap K string
}.

(** [new ComputedValueCache()]. *)
Definition fresh : ComputedValueCache :=
  {| cache := ∅; validityHashes := ∅ |}.

(** [get(key, currentHash)]; [None] is [undefined]. *)
Definition get (c : ComputedValueCache) (key : K) (currentHash : string)
  : option V :=
  if bool_decide (validityHashes c !! key = Some currentHash)
  then cache c !! key
  else None.

Definition set (c : ComputedValueCache) (key : K) (value : V) (hash : string)
  : ComputedValueCache :=
  {| cache := <[key := value]> (cache c);
     validityHashes := <[key := hash]> (validityHashes c) |}.

Definition invalidate (c : ComputedValueCache) (key : K) : ComputedValueCache :=
  {| cache := delete key (cache c);
     validityHashes := delete key (validityHashes c) |}.

Definition clear (c : ComputedValueCache) : ComputedValueCache := fresh.

(** The getter [size]. *)
Definition size (c : ComputedValueCache) : nat := base.size (cache c).

(** The caches that calls of the methods can produce. *)
Inductive reachable : ComputedValueCache → Prop :=
  | reach_fresh : reachable fresh
  | reach_set c key value hash : reachable c → reachable (set c key value hash)
  | reach_invalidate c key : reachable c → reachable (invalidate c key)
  | reach_clear c : reachable c → reachable (clear c).

End Cache.

Arguments ComputedValueCache K V {_ _}.

End Cache.

Module Scheduler.

(** A [RenderScheduler] with what surrounds it: the number of animation
    frames (or timeouts) it has requested that have not fired yet, and the
    stage sets the render callback has been called with, in order.  The
    callback itself is not represented beyond being set. *)
Record state : Type := {
  pendingRender : gset string;
  frameRequested : bool;
  renderCallback : bool;
  frames : nat;
  rendered : list (gset string)
}.

(** [new RenderScheduler()]. *)
Definition initial : state :=
  {| pendingRender := ∅; frameRequested := false; renderCallback := false;
     frames := 0; rendered := [] |}.

Definition setRenderCallback (s : state) : state :=
  {| pendingRender := pendingRender s; frameRequested := frameRequested s;
     renderCallback := true; frames := frames s; rendered := rendered s |}.

Definition scheduleRender (s : state) (stages : gset string) : state :=
  if negb (frameRequested s) && renderCallback s then
    {| pendingRender := pendingRender s ∪ stages; frameRequested := true;
       renderCallback := renderCallback s; frames := S (frames s);
       rendered := rendered s |}
  else
    {| pendingRender := pendingRender s ∪ stages;
       frameRequested := frameRequested s;
       renderCallback := renderCallback s; frames := frames s;
       rendered := rendered s |}.

(** A requested frame fires and runs [executeRender]. *)
Definition executeRender (s : state) : state :=
  if negb (bool_decide (pendingRender s = ∅)) && renderCallback s then
    {| pendingRender := ∅; frameRequested := false;
       renderCallback := renderCallback s; frames := pred (frames s);
       rendered := rendered s ++ [pendingRender s] |}
  else
    {| pendingRender := pendingRender s; frameRequested := false;
       renderCallback := renderCallback s; frames := pred (frames s);
       rendered := rendered s |}.

Definition cancelPending (s : state) : state :=
  {| pendingRender := ∅; frameRequested := false;
     renderCallback := renderCallback s; frames := frames s;
     rendered := rendered s |}.

Definition hasPending (s : state) : bool :=
  negb (bool_decide (pendingRender s = ∅)).

(** What can happen to a scheduler: a call of one of its methods, or one
    of the frames it has requested fires. *)
Inductive event : Type :=
  | SetRenderCallback
  | ScheduleRender (stages : gset string)
  | CancelPending
  | Frame.

Definition step (s : state) (e : event) : state :=
  match e with
  | SetRenderCallback => setRenderCallback s
  | ScheduleRender stages => scheduleRender s stages
  | CancelPending => cancelPending s
  | Frame => if (frames s =? 0)%nat then s else executeRender s
  end.

Definition run (s : state) (events : list event) : state :=
  foldl step s events.

End Scheduler.

(** * hashObject of changeDetection.ts *)

Module SettingsHash.
Import JS ChangeDetection.

(** The value of a property as [hashObject] sees it: a function, or
    anything else, carried by the text that [JSON.stringify] gives in the
    template string. *)
Inductive property : Type :=
  | Function
  | Data (json : string).

(** An object as the list of its own enumerable string-keyed properties in
    the order of [Object.keys]. *)
Definition object : Type := list (string * property).

(** [obj[key]]. *)
Fixpoint valueOf (obj : object) (key : string) : option property :=
  match obj with
  | [] => None
  | (k, v) :: obj' => if bool_decide (k = key) then Some v else valueOf obj' key
  end.

(** [Object.keys(obj).sort()]: ascending by code units. *)
Definition sortedKeys (obj : object) : list string :=
  merge_sort String.le obj.*1.

Section HashObject.
Variable toString_large : Qc → string.

Definition hashObject (obj : maybe object) : string :=
  match obj with
  | Null | Undefined => "null"
  | Present o =>
      let pairs :=
        omap (λ key,
                match valueOf o key with
                | Some (Data json) => Some (VStr (key +:+ ":" +:+ json))
                | _ => None
                end) (sortedKeys o) in
      hashArray toString_large (Present pairs)
  end.

(** [settings[category]]; a category that is not there reads
    [undefined]. *)
Fixpoint categoryOf (settings : list (string * maybe object))
    (category : string) : maybe object :=
  match settings with
  | [] => Undefined
  | (c, o) :: settings' =>
      if bool_decide (c = category) then o else categoryOf settings' category
  end.

(** [createSettingsState]: the settings are the list of their categories in
    the order of [Object.keys], each an object, [null] or [undefined]. *)
Definition createSettingsState (settings : list (string * maybe object))
  : SettingsState :=
  {| categoryHashes :=
       foldl (λ m category,
                <[category := hashObject (categoryOf settings category)]> m)
             ∅ settings.*1 |}.

End HashObject.

(** Two values of a category that hold the same properties that are not
    functions. *)
Definition sameData (o1 o2 : maybe object) : Prop :=
  match o1, o2 with
  | Present a, Present b =>
      NoDup a.*1 ∧ NoDup b.*1
      ∧ ∀ key json, (key, Data json) ∈ a ↔ (key, Data json) ∈ b
  | Present _, _ | _, Present _ => False
  | _, _ => True
  end.

End SettingsHash.

(** * debounce of changeDetection.ts *)

Module Debounce.

Section Debounce.
(** The arguments of a call. *)
Context {Args : Type}.

(** The variable [timeoutId] of a debounced function, with what surrounds
    it: the timeouts that are set and have neither fired nor been cleared,
    each with the arguments its callback holds, the next timer handle, and
    the calls of [fn] made, in order. *)
Record state : Type := {
  timeoutId : option nat;
  timers : gmap nat Args;
  nextHandle : nat;
  calls : list Args
}.

(** [debounce(fn, wait)]. *)
Definition initial : state :=
  {| timeoutId := None; timers := ∅; nextHandle := 0; calls := [] |}.

(** A call of the debounced function. *)
Definition call (s : state) (args : Args) : state :=
  let cleared :=
    match timeoutId s with
    | Some t => delete t (timers s)
    | None => timers s
    end in
  {| timeoutId := Some (nextHandle s);
     timers := <[nextHandle s := args]> cleared;
     nextHandle := S (nextHandle s);
     calls := calls s |}.

(** The timeout with handle [t] fires: its callback calls [fn], which may
    call the debounced function again ([inner], the arguments of these
    calls in order) and may throw; unless it throws, the callback then
    sets [timeoutId] to [null]. *)
Definition fire (s : state) (t : nat) (inner : list Args) (throws : bool)
  : state :=
  match timers s !! t with
  | Some args =>
      let entered :=
        {| timeoutId := timeoutId s; timers := delete t (timers s);
           nextHandle := nextHandle s; calls := calls s ++ [args] |} in
      let left := foldl call entered inner in
      if throws then left
      else {| timeoutId := None; timers := timers left;
              nextHandle := nextHandle left; calls := calls left |}
  | None => s
  end.

Inductive event : Type :=
  | Call (args : Args)
  | Fire (t : nat) (inner : list Args) (throws : bool).

Definition step (s : state) (e : event) : state :=
  match e with
  | Call args => call s args
  | Fire t inner throws => fire s t inner throws
  end.

Definition run (s : state) (events : list event) : state :=
  foldl step s events.

(** The timeouts that are set and that [timeoutId] does not name: no later
    call clears them. *)
Definition orphans (s : state) : gmap nat Args :=
  match timeoutId s with
  | Some t => delete t (timers s)
  | None => timers s
  end.

(** [fn] does not call the debounced function in this event. *)
Definition plain (e : event) : Prop :=
  match e with
  | Call _ => True
  | Fire _ inner _ => inner = []
  end.

(** Every handle in use was given out before. *)
Definition bounded (s : state) : Prop :=
  ∀ t, is_Some (timers s !! t) → (t < nextHandle s)%nat.

End Debounce.

Arguments state : clear implicits.
Arguments event : clear implicits.

End Debounce.

(** * The request bookkeeping of CalculationWorkerManager *)

Module Manager.

(** [`req-${n}`]. *)
Definition requestId (n : nat) : string := "req-" +:+ pretty n.

Section Manager.
(** What a worker answers and what it reports as duration. *)
Context {Result Duration : Type}.

(** A call of [resolve] or of [reject] of the promise of a request. *)
Inductive settlement : Type :=
  | Resolve (result : Result)
  | Reject (message : string).

(** The fields of the manager that the requests touch, with what surrounds
    them: the timeouts that are set and have neither fired nor been
    cleared, the settlements made and the requests posted to the worker,
    in order.  A [PendingRequest] is named by its request id, which stands
    for its [resolve], [reject] and [timeoutId]; [pendingRequests] lists
    the keys of the map in insertion order. *)
Record state : Type := {
  worker : bool;
  isReady : bool;
  pendingRequests : list string;
  requestCounter : nat;
  workerExecutionTimes : list Duration;
  timers : gset string;
  settled : list (string * settlement);
  posted : list string
}.

(** [new CalculationWorkerManager()]. *)
Definition initial : state :=
  {| worker := false; isReady := false; pendingRequests := [];
     requestCounter := 0; workerExecutionTimes := []; timers := ∅;
     settled := []; posted := [] |}.

(** [initialize] has created the worker and the worker has signalled
    ready. *)
Definition ready (s : state) : state :=
  {| worker := true; isReady := true;
     pendingRequests := pendingRequests s;
     requestCounter := requestCounter s;
     workerExecutionTimes := workerExecutionTimes s;
     timers := timers s; settled := settled s; posted := posted s |}.

(** [sendMessage]: the request id, or [None] when the promise is rejected
    at once with 'Worker not ready'. *)
Definition sendMessage (s : state) : state * option string :=
  if negb (worker s) || negb (isReady s) then (s, None)
  else
    let requestId := requestId (S (requestCounter s)) in
    ({| worker := worker s; isReady := isReady s;
        pendingRequests :=
          if bool_decide (requestId ∈ pendingRequests s)
          then pendingRequests s
          else pendingRequests s ++ [requestId];
        requestCounter := S (requestCounter s);
        workerExecutionTimes := workerExecutionTimes s;
        timers := {[requestId]} ∪ timers s;
        settled := settled s;
        posted := posted s ++ [requestId] |},
     Some requestId).

(** [times.push(duration); if (times.length > 100) times.shift()]. *)
Definition track (times : list Duration) (duration : Duration)
  : list Duration :=
  let times' := times ++ [duration] in
  if (100 <? length times')%nat then drop 1 times' else times'.

(** [this.pendingRequests.delete(requestId)]. *)
Definition remove (requestId : string) (pending : list string) : list string :=
  filter (λ r, r ≠ requestId) pending.

(** [handleWorkerMessage]. *)
Definition handleWorkerMessage (s : state) (requestId : string)
    (success : bool) (result : Result) (error : option string)
    (duration : option Duration) : state :=
  if bool_decide (requestId ∈ pendingRequests s) then
    {| worker := worker s; isReady := isReady s;
       pendingRequests := remove requestId (pendingRequests s);
       requestCounter := requestCounter s;
       workerExecutionTimes :=
         match duration with
         | Some d => track (workerExecutionTimes s) d
         | None => workerExecutionTimes s
         end;
       timers := timers s ∖ {[requestId]};
       settled :=
         settled s
         ++ [(requestId,
              if success then Resolve result
              else Reject (match error with
                           | Some e => if bool_decide (e = "")
                                       then "Unknown worker error" else e
                           | None => "Unknown worker error"
                           end))];
       posted := posted s |}
  else s.

(** The timeout that [sendMessage] set for [requestId] fires. *)
Definition timeout (s : state) (requestId : string) : state :=
  if bool_decide (requestId ∈ timers s) then
    {| worker := worker s; isReady := isReady s;
       pendingRequests := remove requestId (pendingRequests s);
       requestCounter := requestCounter s;
       workerExecutionTimes := workerExecutionTimes s;
       timers := timers s ∖ {[requestId]};
       settled := settled s ++ [(requestId, Reject "Worker request timeout")];
       posted := posted s |}
  else s.

Definition cancelRequest (s : state) (requestId : string) : state * bool :=
  if bool_decide (requestId ∈ pendingRequests s) then
    ({| worker := worker s; isReady := isReady s;
        pendingRequests := remove requestId (pendingRequests s);
        requestCounter := requestCounter s;
        workerExecutionTimes := workerExecutionTimes s;
        timers := timers s ∖ {[requestId]};
        settled := settled s ++ [(requestId, Reject "Request cancelled")];
        posted := posted s |}, true)
  else (s, false).

(** The loop that clears the timeout of every pending request and rejects
    it, followed by [this.pendingRequests.clear()]. *)
Definition rejectAll (s : state) (message : string) : state :=
  {| worker := worker s; isReady := isReady s;
     pendingRequests := [];
     requestCounter := requestCounter s;
     workerExecutionTimes := workerExecutionTimes s;
     timers := timers s ∖ list_to_set (pendingRequests s);
     settled :=
       settled s ++ ((λ r, (r, Reject message)) <$> pendingRequests s);
     posted := posted s |}.

Definition cancelAllRequests (s : state) : state :=
  rejectAll s "All requests cancelled".

Definition cleanupWorker (s : state) : state :=
  {| worker := false; isReady := false;
     pendingRequests := pendingRequests s;
     requestCounter := requestCounter s;
     workerExecutionTimes := workerExecutionTimes s;
     timers := timers s; settled := settled s; posted := posted s |}.

Definition terminate (s : state) : state :=
  cleanupWorker (cancelAllRequests s).

Definition handleWorkerError (s : state) (message : string) : state :=
  terminate (rejectAll s ("Worker error: " +:+ message)).

(** What can happen to a manager. *)
Inductive event : Type :=
  | Ready
  | SendMessage
  | WorkerMessage (requestId : string) (success : bool) (result : Result)
      (error : option string) (duration : option Duration)
  | Timeout (requestId : string)
  | CancelRequest (requestId : string)
  | CancelAllRequests
  | WorkerError (message : string)
  | Terminate.

Definition step (s : state) (e : event) : state :=
  match e with
  | Ready => ready s
  | SendMessage => (sendMessage s).1
  | WorkerMessage requestId success result error duration =>
      handleWorkerMessage s requestId success result error duration
  | Timeout requestId => timeout s requestId
  | CancelRequest requestId => (cancelRequest s requestId).1
  | CancelAllRequests => cancelAllRequests s
  | WorkerError message => handleWorkerError s message
  | Terminate => terminate s
  end.

Definition run (s : state) (events : list event) : state :=
  foldl step s events.

(** The bookkeeping is consistent. *)
Definition consistent (s : state) : Prop :=
  NoDup (pendingRequests s)
  ∧ (∀ r, r ∈ timers s ↔ r ∈ pendingRequests s)
  ∧ NoDup (settled s).*1
  ∧ (∀ r, r ∈ (settled s).*1 → r ∉ pendingRequests s)
  ∧ (∀ r, r ∈ pendingRequests s ∨ r ∈ (settled s).*1 →
          ∃ k, (1 ≤ k ≤ requestCounter s)%nat ∧ r = requestId k)
  ∧ (length (workerExecutionTimes s) ≤ 100)%nat.

(** The requests posted to the worker are the ids issued so far, one
    message for each, in the order of issue. *)
Definition issued (s : state) : Prop :=
  posted s = requestId <$> seq 1 (requestCounter s).

End Manager.

Arguments state : clear implicits.
Arguments event : clear implicits.
Arguments settlement : clear implicits.

End Manager.

(** * Properties of change detection *)

Section ChangeDetectionFacts.
Import JS ChangeDetection Examples.

Lemma elem_of_addStages (stages : list string) (render : gset string) x :
  x ∈ addStages stages render ↔ x ∈ stages ∨ x ∈ render.
Proof.
  unfold addStages. revert render.
  induction stages as [|s stages IH]; intros render; simpl.
  - set_solver.
  - rewrite IH. set_solver.
Qed.

(** The loop over the changed categories raises the limit flag exactly for
    a category of [LIMIT_RECALC_SETTINGS]. *)
Lemma settingsStep_limits (c : string) (r : Pending) :
  p_limits (settingsStep c r) = true ↔ p_limits r = true ∨ c = "spc".
Proof.
  unfold settingsStep, LIMIT_RECALC_SETTINGS, OUTLIER_RECALC_SETTINGS.
  rewrite <- (elem_of_singleton (C := gset string) c "spc").
  destruct (SETTINGS_TO_RENDER_MAP !! c);
    destruct (bool_decide (c ∈ ({[ "outliers" ]} : gset string)));
    case_bool_decide; cbn [p_limits]; tauto.
Qed.

Lemma settings_fold_limits (p0 : Pending) (X : gset string) :
  p_limits (set_fold settingsStep p0 X) = true
  ↔ p_limits p0 = true ∨ "spc" ∈ X.
Proof.
  apply (set_fold_ind_L
           (λ r Y, p_limits r = true ↔ p_limits p0 = true ∨ "spc" ∈ Y)).
  - rewrite elem_of_empty. tauto.
  - intros c Y r Hc IH.
    rewrite settingsStep_limits, IH, elem_of_union, elem_of_singleton.
    split; [intros [[?|?]|?] | intros [?|[?|?]]]; auto.
Qed.

(** The stages the loop adds are those mapped from a changed category. *)
Lemma settings_fold_render (p0 : Pending) (X : gset string) x :
  x ∈ p_render (set_fold settingsStep p0 X)
  ↔ x ∈ p_render p0
    ∨ ∃ c stages, c ∈ X ∧ SETTINGS_TO_RENDER_MAP !! c = Some stages ∧ x ∈ stages.
Proof.
  apply (set_fold_ind_L
           (λ r Y, x ∈ p_render r
                   ↔ x ∈ p_render p0
                     ∨ ∃ c stages, c ∈ Y ∧ SETTINGS_TO_RENDER_MAP !! c = Some stages
                                   ∧ x ∈ stages)).
  - set_solver.
  - intros c Y r Hc IH.
    assert (Hr : ∀ q, p_render q = p_render r →
       (x ∈ p_render
          match SETTINGS_TO_RENDER_MAP !! c with
          | Some renderStages =>
              {| p_limits := p_limits q; p_outliers := p_outliers q;
                 p_render := addStages renderStages (p_render q) |}
          | None => q
          end
        ↔ x ∈ p_render p0
          ∨ ∃ c0 stages, c0 ∈ {[c]} ∪ Y
                         ∧ SETTINGS_TO_RENDER_MAP !! c0 = Some stages ∧ x ∈ stages)).
    { intros q Hq. destruct (SETTINGS_TO_RENDER_MAP !! c) as [st|] eqn:Hmap; simpl.
      - rewrite elem_of_addStages, Hq, IH. split.
        + intros [Hx|[Hx|(c0 & st0 & H0 & H1 & H2)]]; eauto.
          * right. exists c, st. set_solver.
          * right. exists c0, st0. set_solver.
        + intros [Hx|(c0 & st0 & H0 & H1 & H2)]; eauto.
          apply elem_of_union in H0 as [H0|H0].
          * apply elem_of_singleton in H0. subst c0.
            rewrite Hmap in H1. injection H1 as <-. eauto.
          * right. right. eauto.
      - rewrite Hq, IH. split.
        + intros [Hx|(c0 & st0 & H0 & H1 & H2)]; eauto.
          right. exists c0, st0. set_solver.
        + intros [Hx|(c0 & st0 & H0 & H1 & H2)]; eauto.
          apply elem_of_union in H0 as [H0|H0].
          * apply elem_of_singleton in H0. subst c0. congruence.
          * right. eauto. }
    unfold settingsStep. apply Hr. repeat case_bool_decide; reflexivity.
Qed.

(** With the hashes of the previous cycle, no category counts as changed. *)
Lemma detectSettingsChanges_same (prev current : SettingsState) :
  categoryHashes prev = categoryHashes current →
  detectSettingsChanges (Some prev) current = ∅.
Proof.
  intros Heq. unfold detectSettingsChanges. rewrite Heq.
  apply dom_empty_iff_L, map_empty_filter_2.
  intros k h Hk. simpl. intros Hne. by apply Hne.
Qed.

(** C4: on the first run the flags do not depend on the states: data
    changed, limits and outliers to be recomputed, not a resize-only cycle,
    and the render stages are the sentinel "all". *)
Theorem computeChangeFlags_first_run
    (prevDataState : option DataState) (currentDataState : DataState)
    (prevSettingsState : option SettingsState)
    (currentSettingsState : SettingsState) :
  let flags := computeChangeFlags prevDataState currentDataState
                 prevSettingsState currentSettingsState true in
  dataChanged flags = true ∧ limitsNeedRecalc flags = true
  ∧ outliersNeedRecalc flags = true ∧ resizeOnly flags = false
  ∧ "all" ∈ renderNeeded flags ∧ renderNeeded flags = {[ "all" ]}.
Proof.
  simpl. unfold computeChangeFlags; simpl.
  split_and!; first [reflexivity | by apply elem_of_singleton].
Qed.

(** The flags of a cycle that is not the first, spelled out. *)
Lemma computeChangeFlags_later prev cur prevS curS :
  let dc := detectDataChanges prev cur in
  let p1 := set_fold settingsStep
              (if dc_dataChanged dc
               then {| p_limits := true; p_outliers := true;
                       p_render := addStages
                         ["dots"; "lines"; "icons"; "xAxis"; "yAxis";
                          "valueLabels"; "lineLabels"] ∅ |}
               else {| p_limits := false; p_outliers := false; p_render := ∅ |})
              (detectSettingsChanges prevS curS) in
  let flags := computeChangeFlags prev cur prevS curS false in
  resizeOnly flags = dc_resizeOnly dc
  ∧ dataChanged flags = dc_dataChanged dc
  ∧ settingsChanged flags = detectSettingsChanges prevS curS
  ∧ limitsNeedRecalc flags = p_limits p1
  ∧ renderNeeded flags
    = (let render2 :=
         if dc_viewportChanged dc
         then addStages ["xAxis"; "yAxis"] (p_render p1)
         else p_render p1 in
       if dc_resizeOnly dc && negb (p_limits p1)
       then addStages ["dots"; "lines"] render2
       else render2).
Proof. repeat split. Qed.

Lemma resizeOnly_inv prev cur :
  dc_resizeOnly (detectDataChanges prev cur) = true →
  dc_viewportChanged (detectDataChanges prev cur) = true
  ∧ dc_dataChanged (detectDataChanges prev cur) = false.
Proof.
  destruct prev as [prev|]; simpl; [|discriminate].
  intros H. apply andb_true_iff in H as [H1 H2].
  by apply negb_true_iff in H2.
Qed.

(** The stages of a resize-only cycle, for the flags that are returned. *)
Lemma resize_only_stages prev cur prevS curS :
  let flags := computeChangeFlags prev cur prevS curS false in
  resizeOnly flags = true →
  limitsNeedRecalc flags = false →
  (∀ stage, stage ∈ renderNeeded flags
     ↔ stage ∈ ["dots"; "lines"; "xAxis"; "yAxis"]
       ∨ ∃ category stages,
           category ∈ settingsChanged flags
           ∧ SETTINGS_TO_RENDER_MAP !! category = Some stages
           ∧ stage ∈ stages)
  ∧ (settingsChanged flags = ∅ →
     renderNeeded flags = {[ "dots"; "lines"; "xAxis"; "yAxis" ]}).
Proof.
  intros flags.
  destruct (computeChangeFlags_later prev cur prevS curS)
    as (Hro & Hdc & Hsc & Hlim & Hrender).
  fold flags in Hro, Hdc, Hsc, Hlim, Hrender.
  intros Hresize Hlimits.
  rewrite Hro in Hresize.
  destruct (resizeOnly_inv _ _ Hresize) as [Hvp Hdata].
  rewrite Hlim in Hlimits.
  rewrite Hresize, Hvp, Hlimits, Hdata in Hrender.
  cbn [andb negb] in Hrender. cbv zeta in Hrender.
  assert (Hchar : ∀ stage, stage ∈ renderNeeded flags
     ↔ stage ∈ ["dots"; "lines"; "xAxis"; "yAxis"]
       ∨ ∃ category stages,
           category ∈ settingsChanged flags
           ∧ SETTINGS_TO_RENDER_MAP !! category = Some stages
           ∧ stage ∈ stages).
  { intros stage. rewrite Hrender, Hsc.
    rewrite !elem_of_addStages, settings_fold_render.
    cbn [p_render]. rewrite !elem_of_cons, !elem_of_nil, elem_of_empty.
    tauto. }
  split; [exact Hchar|].
  intros Hnone. apply set_eq. intros stage. rewrite Hchar, Hnone.
  rewrite !elem_of_cons, !elem_of_nil, !elem_of_union, !elem_of_singleton.
  split; [intros [H|(c & st & Hc & _)] | intros H]; [tauto | | tauto].
  by apply elem_of_empty in Hc.
Qed.

(** ** The TypeError of the settings loop *)

(** No key of [SETTINGS_TO_RENDER_MAP] is a name inherited from
    [Object.prototype]. *)
Lemma inherited_not_own (category : string) :
  category ∈ OBJECT_PROTOTYPE_MEMBERS →
  SETTINGS_TO_RENDER_MAP !! category = None.
Proof.
  unfold OBJECT_PROTOTYPE_MEMBERS.
  rewrite !elem_of_union, !elem_of_singleton.
  intros H. repeat (destruct H as [H| ->]; [|vm_compute; reflexivity]).
  subst. vm_compute. reflexivity.
Qed.

Lemma settingsStepOutcome_Some (category : string) (p : Pending) :
  settingsStepOutcome category (Some p)
  = if bool_decide (category ∈ OBJECT_PROTOTYPE_MEMBERS) then None
    else Some (settingsStep category p).
Proof.
  unfold settingsStepOutcome, settingsStep, renderStagesOf.
  case_bool_decide as Hin.
  - by rewrite (inherited_not_own _ Hin).
  - by destruct (SETTINGS_TO_RENDER_MAP !! category).
Qed.

Lemma settings_foldr_outcome (p0 : Pending) (l : list string) :
  foldr settingsStepOutcome (Some p0) l
  = if bool_decide (Forall (λ c, c ∉ OBJECT_PROTOTYPE_MEMBERS) l)
    then Some (foldr settingsStep p0 l) else None.
Proof.
  induction l as [|c l IH]; cbn [foldr].
  - by rewrite bool_decide_eq_true_2.
  - rewrite IH. case_bool_decide as Hl.
    + rewrite settingsStepOutcome_Some. case_bool_decide as Hc.
      * rewrite bool_decide_eq_false_2; [done|].
        intros Hall. apply Forall_cons in Hall as [Hc' _]. by apply Hc'.
      * rewrite bool_decide_eq_true_2; [done|]. by apply Forall_cons.
    + rewrite bool_decide_eq_false_2; [done|].
      intros Hall. apply Forall_cons in Hall as [_ Hl']. by apply Hl.
Qed.

(** [computeChangeFlags] throws exactly when a changed category is named
    like a member of [Object.prototype]; otherwise it returns the flags. *)
Lemma computeChangeFlagsOutcome_later prev cur prevS curS :
  computeChangeFlagsOutcome prev cur prevS curS false
  = if bool_decide (∀ category, category ∈ detectSettingsChanges prevS curS →
                                category ∉ OBJECT_PROTOTYPE_MEMBERS)
    then Some (computeChangeFlags prev cur prevS curS false) else None.
Proof.
  unfold computeChangeFlagsOutcome, computeChangeFlags. cbv zeta.
  unfold set_fold. cbn [compose]. rewrite settings_foldr_outcome.
  assert (Hiff : Forall (λ c, c ∉ OBJECT_PROTOTYPE_MEMBERS)
                   (elements (detectSettingsChanges prevS curS))
                 ↔ ∀ category, category ∈ detectSettingsChanges prevS curS →
                               category ∉ OBJECT_PROTOTYPE_MEMBERS).
  { rewrite Forall_forall. by setoid_rewrite elem_of_elements. }
  by rewrite (bool_decide_ext _ _ Hiff); case_bool_decide.
Qed.

(** On the first run the loop is not reached and the flags are returned. *)
Lemma computeChangeFlagsOutcome_first prev cur prevS curS :
  computeChangeFlagsOutcome prev cur prevS curS true
  = Some (computeChangeFlags prev cur prevS curS true).
Proof. reflexivity. Qed.

(** C5, as the code has it: on a later cycle of which no changed settings
    category is named like a member of Object.prototype,
    computeChangeFlags returns flags (it throws a TypeError otherwise); if
    they are resize-only and need no limit recalculation, the render stages
    are dots and lines, the two axis stages of the viewport change, and the
    stages mapped from the changed settings categories; nothing else. *)
Theorem resize_only_render_stages prev cur prevS curS :
  (∀ category, category ∈ detectSettingsChanges prevS curS →
               category ∉ OBJECT_PROTOTYPE_MEMBERS) →
  ∃ flags,
    computeChangeFlagsOutcome prev cur prevS curS false = Some flags
    ∧ (resizeOnly flags = true →
       limitsNeedRecalc flags = false →
       (∀ stage, stage ∈ renderNeeded flags
          ↔ stage ∈ ["dots"; "lines"; "xAxis"; "yAxis"]
            ∨ ∃ category stages,
                category ∈ settingsChanged flags
                ∧ SETTINGS_TO_RENDER_MAP !! category = Some stages
                ∧ stage ∈ stages)
       ∧ (settingsChanged flags = ∅ →
          renderNeeded flags = {[ "dots"; "lines"; "xAxis"; "yAxis" ]})).
Proof.
  intros Hnames. exists (computeChangeFlags prev cur prevS curS false).
  rewrite computeChangeFlagsOutcome_later, bool_decide_eq_true_2 by done.
  split; [reflexivity|]. apply resize_only_stages.
Qed.

(** C5 as stated fails: a resize with unchanged data and settings asks for
    the axis stages too, not for dots and lines only. *)
Lemma resize_only_render_stages_counterexample :
  ∃ flags,
    computeChangeFlagsOutcome (Some (exampleState 400)) (exampleState 500)
      (Some exampleSettings) exampleSettings false = Some flags
    ∧ resizeOnly flags = true ∧ limitsNeedRecalc flags = false
    ∧ "xAxis" ∈ renderNeeded flags ∧ "yAxis" ∈ renderNeeded flags
    ∧ ¬ renderNeeded flags ⊆ {[ "dots"; "lines" ]}.
Proof.
  exists (computeChangeFlags (Some (exampleState 400)) (exampleState 500)
            (Some exampleSettings) exampleSettings false).
  split; [vm_compute; reflexivity|]. split_and!; compute_done.
Qed.

Lemma resize_only_render_stages_witness :
  ∃ flags,
    computeChangeFlagsOutcome (Some (exampleState 400)) (exampleState 500)
      (Some exampleSettings) exampleSettings false = Some flags
    ∧ resizeOnly flags = true ∧ limitsNeedRecalc flags = false
    ∧ renderNeeded flags = {[ "dots"; "lines"; "xAxis"; "yAxis" ]}.
Proof.
  assert (Hnames : ∀ category,
            category ∈ detectSettingsChanges (Some exampleSettings) exampleSettings →
            category ∉ OBJECT_PROTOTYPE_MEMBERS).
  { intros category Hc.
    rewrite detectSettingsChanges_same in Hc by reflexivity.
    by apply elem_of_empty in Hc. }
  destruct (resize_only_render_stages (Some (exampleState 400))
              (exampleState 500) (Some exampleSettings) exampleSettings Hnames)
    as (flags & Hflags & Hstages).
  exists flags.
  assert (Heq : flags = computeChangeFlags (Some (exampleState 400))
                  (exampleState 500) (Some exampleSettings) exampleSettings false).
  { rewrite computeChangeFlagsOutcome_later, bool_decide_eq_true_2 in Hflags
      by exact Hnames.
    by injection Hflags as <-. }
  assert (Hr : resizeOnly flags = true) by (rewrite Heq; vm_compute; reflexivity).
  assert (Hl : limitsNeedRecalc flags = false)
    by (rewrite Heq; vm_compute; reflexivity).
  split; [exact Hflags|]. split; [exact Hr|]. split; [exact Hl|].
  apply (Hstages Hr Hl). rewrite Heq. vm_compute. reflexivity.
Defined.

(** C6: against a previous state, the data counts as changed exactly when
    one of the hashes (numerators, denominators, keys, split indexes) or the
    length differs, the viewport exactly when width or height differs, and
    the cycle is resize-only when the viewport changed and the data did not.
    With equal hashes and length, a different viewport and unchanged
    settings, a later cycle is resize-only and needs no limit
    recalculation. *)
Theorem detectDataChanges_spec (prev current : DataState)
    (prevSettings currentSettings : SettingsState) :
  let changes := detectDataChanges (Some prev) current in
  (dc_dataChanged changes = true
   ↔ numeratorsHash prev ≠ numeratorsHash current
     ∨ denominatorsHash prev ≠ denominatorsHash current
     ∨ keysHash prev ≠ keysHash current
     ∨ dataLength prev ≠ dataLength current
     ∨ splitIndexesHash prev ≠ splitIndexesHash current)
  ∧ (dc_viewportChanged changes = true
     ↔ viewportWidth prev ≠ viewportWidth current
       ∨ viewportHeight prev ≠ viewportHeight current)
  ∧ dc_resizeOnly changes
    = dc_viewportChanged changes && negb (dc_dataChanged changes)
  ∧ (numeratorsHash prev = numeratorsHash current →
     denominatorsHash prev = denominatorsHash current →
     keysHash prev = keysHash current →
     dataLength prev = dataLength current →
     splitIndexesHash prev = splitIndexesHash current →
     viewportWidth prev ≠ viewportWidth current
     ∨ viewportHeight prev ≠ viewportHeight current →
     categoryHashes prevSettings = categoryHashes currentSettings →
     let flags := computeChangeFlags (Some prev) current
                    (Some prevSettings) currentSettings false in
     dc_resizeOnly changes = true ∧ resizeOnly flags = true
     ∧ limitsNeedRecalc flags = false).
Proof.
  intros changes.
  assert (Hdata : dc_dataChanged changes = true
   ↔ numeratorsHash prev ≠ numeratorsHash current
     ∨ denominatorsHash prev ≠ denominatorsHash current
     ∨ keysHash prev ≠ keysHash current
     ∨ dataLength prev ≠ dataLength current
     ∨ splitIndexesHash prev ≠ splitIndexesHash current).
  { subst changes. cbn [detectDataChanges dc_dataChanged].
    rewrite !orb_true_iff, !negb_true_iff, !bool_decide_eq_false.
    split; [intros [[[[?|?]|?]|?]|?] | intros [?|[?|[?|[?|?]]]]]; auto 10. }
  assert (Hview : dc_viewportChanged changes = true
     ↔ viewportWidth prev ≠ viewportWidth current
       ∨ viewportHeight prev ≠ viewportHeight current).
  { subst changes. cbn [detectDataChanges dc_viewportChanged].
    rewrite !orb_true_iff, !negb_true_iff, !bool_decide_eq_false.
    reflexivity. }
  split_and!; [exact Hdata | exact Hview | reflexivity |].
  intros Hn Hd Hk Hl Hs Hvp Hset flags.
  assert (Hnodata : dc_dataChanged changes = false).
  { apply not_true_is_false. rewrite Hdata. tauto. }
  assert (Hresize : dc_resizeOnly changes = true).
  { change (dc_resizeOnly changes)
      with (dc_viewportChanged changes && negb (dc_dataChanged changes)).
    rewrite Hnodata, andb_true_r. by apply Hview. }
  destruct (computeChangeFlags_later (Some prev) current
              (Some prevSettings) currentSettings)
    as (Hro & _ & _ & Hlim & _).
  fold flags in Hro, Hlim. fold changes in Hro, Hlim.
  split_and!; [exact Hresize | by rewrite Hro |].
  rewrite Hlim. apply not_true_is_false. rewrite settings_fold_limits.
  rewrite detectSettingsChanges_same by exact Hset.
  rewrite Hnodata. intros [Hc|Hc]; [discriminate Hc | by apply elem_of_empty in Hc].
Qed.

Lemma detectDataChanges_spec_witness :
  let flags := computeChangeFlags (Some (exampleState 400)) (exampleState 500)
                 (Some exampleSettings) exampleSettings false in
  dc_resizeOnly (detectDataChanges (Some (exampleState 400)) (exampleState 500))
  = true
  ∧ resizeOnly flags = true ∧ limitsNeedRecalc flags = false.
Proof.
  apply (detectDataChanges_spec (exampleState 400) (exampleState 500)
           exampleSettings exampleSettings); try reflexivity.
  left. intros H. apply (f_equal this) in H. vm_compute in H. discriminate H.
Defined.

(** C9: 1.0000001 and 1.0000004 both contribute "1.000000", so the two
    arrays hash alike; 1.1 and 1.2 contribute different strings and the
    hashes of those arrays differ; and the hash depends on the order of the
    elements. *)
Theorem hashArray_six_decimals (toString_large : Qc → string) :
  let hash := hashArray toString_large in
  strValue toString_large double_1_0000001 = "1.000000"
  ∧ strValue toString_large double_1_0000004 = "1.000000"
  ∧ hash (Present [double_1_0000001; double_2])
    = hash (Present [double_1_0000004; double_2])
  ∧ hash (Present [double_1_0000001; double_2]) = "bdbb5bc6"
  ∧ hash (Present [double_1_1; double_2]) ≠ hash (Present [double_1_2; double_2])
  ∧ hash (Present [double_1_1; double_2]) ≠ hash (Present [double_2; double_1_1]).
Proof.
  simpl. split_and!; vm_compute; first [reflexivity | discriminate].
Qed.

(** C10, as the code has it: [null], [undefined] and the empty array all
    hash to "empty", so a numerator or split-index array that is absent and
    one that is empty give the same data state and no data change; the
    denominators and keys are tested before they are hashed, and there an
    absent array (hash [null], respectively "null") differs from an empty
    one (hash "empty"). *)
Theorem hashArray_empty (toString_large : Qc → string)
    (numerators numerators' splitIndexes splitIndexes' denominators : maybe (list value))
    (keys : maybe (list key)) (width height : Qc) :
  absentOrEmpty numerators → absentOrEmpty numerators' →
  absentOrEmpty splitIndexes → absentOrEmpty splitIndexes' →
  let absent := createDataState toString_large numerators denominators keys
                  splitIndexes width height in
  let empty := createDataState toString_large numerators' denominators keys
                 splitIndexes' width height in
  hashArray toString_large Null = "empty"
  ∧ hashArray toString_large Undefined = "empty"
  ∧ hashArray toString_large (Present []) = "empty"
  ∧ absent = empty
  ∧ dc_dataChanged (detectDataChanges (Some absent) empty) = false
  ∧ denominatorsHash (createDataState toString_large numerators Null keys
                        splitIndexes width height) = None
  ∧ denominatorsHash (createDataState toString_large numerators (Present []) keys
                        splitIndexes width height) = Some "empty"
  ∧ keysHash (createDataState toString_large numerators denominators Null
                splitIndexes width height) = "null"
  ∧ keysHash (createDataState toString_large numerators denominators (Present [])
                splitIndexes width height) = "empty".
Proof.
  intros Hn Hn' Hs Hs' absent empty.
  assert (Heq : absent = empty).
  { subst absent empty. unfold createDataState.
    destruct Hn as [->|[->| ->]], Hn' as [->|[->| ->]],
             Hs as [->|[->| ->]], Hs' as [->|[->| ->]]; reflexivity. }
  split_and!; try reflexivity; try exact Heq.
  rewrite Heq. cbn [detectDataChanges dc_dataChanged].
  by rewrite !bool_decide_eq_true_2.
Qed.

Lemma hashArray_empty_witness :
  createDataState (λ _, "1e+21") Null Null Null Undefined (Qc_of_Z 400) (Qc_of_Z 300)
  = createDataState (λ _, "1e+21") (Present []) Null Null (Present [])
      (Qc_of_Z 400) (Qc_of_Z 300).
Proof.
  apply (hashArray_empty (λ _, "1e+21") Null (Present []) Undefined (Present [])
           Null Null (Qc_of_Z 400) (Qc_of_Z 300));
    unfold absentOrEmpty; auto.
Defined.

(** C10 as stated fails for the data as a whole: with every array absent
    and with every array empty, the data states differ in the denominator
    and key hashes, and the transition counts as a data change. *)
Lemma hashArray_empty_counterexample :
  let absent := createDataState (λ _, "1e+21") Null Null Null Null
                  (Qc_of_Z 400) (Qc_of_Z 300) in
  let empty := createDataState (λ _, "1e+21") (Present []) (Present [])
                 (Present []) (Present []) (Qc_of_Z 400) (Qc_of_Z 300) in
  absent ≠ empty
  ∧ dc_dataChanged (detectDataChanges (Some absent) empty) = true
  ∧ denominatorsHash absent = None ∧ denominatorsHash empty = Some "empty"
  ∧ keysHash absent = "null" ∧ keysHash empty = "empty".
Proof.
  simpl. split_and!; try reflexivity.
  intros H. apply (f_equal keysHash) in H. discriminate H.
Qed.

End ChangeDetectionFacts.

(** * Properties of the twoInThree rule *)

Section OutlierFacts.
Import JS Outliers Examples.

(** C1, as the code has it: without lower crossings and without backfill,
    the rule flags each point whose window of three holds two values above
    the limit, that is the indices 3, 4, 5 and 6. *)
Theorem twoInThree_example (ll : limits) :
  (∀ i v, example_val !! i = Some v → lower_flag_at ll i v = 0) →
  twoInThree example_val ll example_ul95 false
  = [none; none; none; upper; upper; upper; upper].
Proof.
  intros Hll. unfold twoInThree.
  rewrite (imap_ext (lower_flag_at ll) (λ _ _, 0) example_val Hll).
  vm_compute. reflexivity.
Qed.

Lemma twoInThree_example_witness :
  twoInThree example_val None example_ul95 false
  = [none; none; none; upper; upper; upper; upper].
Proof.
  apply (twoInThree_example None). intros i v _. reflexivity.
Defined.

(** C1 as stated fails: with the lower limit 0 nowhere crossed, the points
    3 and 4 are flagged as well (the windows 20, 90, 95 and 90, 95, 15 each
    hold two values above 50). *)
Lemma twoInThree_example_counterexample :
  let flags := twoInThree example_val example_ll95 example_ul95 false in
  flags !! 3%nat = Some upper ∧ flags !! 4%nat = Some upper
  ∧ flags !! 5%nat = Some upper ∧ flags !! 6%nat = Some upper
  ∧ flags ≠ [none; none; none; none; none; upper; upper].
Proof.
  vm_compute. split_and!; first [reflexivity | discriminate].
Qed.

(** With the backfill, in the worker script and in the older copy alike,
    the two points before the first trigger are flagged too. *)
Lemma twoInThree_example_backfill :
  twoInThree example_val example_ll95 example_ul95 true
  = [none; upper; upper; upper; upper; upper; upper]
  ∧ twoInThree_legacy example_val (replicate 7 (of_Z 0)) (replicate 7 (of_Z 50))
    = [none; upper; upper; upper; upper; upper; upper].
Proof. vm_compute. split; reflexivity. Qed.

End OutlierFacts.

(** * Properties of the i-chart limits *)

Section LimitFacts.
Import JS Limits Examples LimitNotions FurtherExamples.

(** Equal rationals in canonical form are the same number. *)
Lemma Fin_eq (a b : Qc) : (a == b)%Q → Fin a = Fin b.
Proof. intros H. f_equal. by apply Qc_is_canon. Qed.

(** C2 fails in i.ts: for three equal values and outliers_in_limits off,
    every consecutive difference is 0, none is below the screening limit
    0 * 3.267, the mean of no value is undefined and sigma is NaN, so all
    four limits are NaN and not the centre line 5; a single value has no
    difference at all and its limits are NaN under either setting.  The
    worker script, whose mean of no value is 0, returns the centre line. *)
Theorem iLimits_constant_NaN :
  let r := iLimits_ts (constantArgs false) in
  sigma Worker.diff Worker.abs (numerators (constantArgs false)) false = NaN
  ∧ targets r = replicate 3 (of_Z 5)
  ∧ ll99 r = replicate 3 NaN ∧ ll95 r = replicate 3 NaN
  ∧ ul95 r = replicate 3 NaN ∧ ul99 r = replicate 3 NaN
  ∧ ll99 r ≠ targets r
  ∧ ll99 (iLimits_ts (singleArgs true)) = [NaN]
  ∧ ul99 (iLimits_ts (singleArgs true)) = [NaN]
  ∧ ll99 (Worker.iLimits (constantArgs false)) = replicate 3 (of_Z 5)
  ∧ ul99 (Worker.iLimits (constantArgs false)) = replicate 3 (of_Z 5).
Proof.
  split_and!; try (vm_compute; reflexivity); try (vm_compute; discriminate);
    vm_compute; repeat (f_equal; try (apply Fin_eq; reflexivity)).
Qed.

(** ** Equal values in general *)

Lemma of_Z_0 : of_Z 0 = Fin 0%Qc.
Proof. unfold of_Z. by rewrite Z2Qc_inj_0. Qed.

Lemma Qc_sgn_0 : Qc_sgn 0%Qc = Eq.
Proof. reflexivity. Qed.

Lemma Qc_sgn_pos (q : Qc) : (0 < q)%Qc → Qc_sgn q = Gt.
Proof.
  intros H. unfold Qc_sgn. rewrite Z2Qc_inj_0.
  unfold Qccompare. by apply Qgt_alt.
Qed.

Lemma lt_zero_zero : lt (Fin 0%Qc) (Fin 0%Qc) = false.
Proof. reflexivity. Qed.

Lemma diff_cons_cons (a b : number) (l : list number) :
  Worker.diff (a :: b :: l) = sub b a :: Worker.diff (b :: l).
Proof. reflexivity. Qed.

Lemma diff_constant (c : Qc) (n : nat) :
  Worker.diff (replicate n (Fin c)) = replicate (n - 1) (Fin 0%Qc).
Proof.
  induction n as [|[|n] IH]; [reflexivity..|].
  change (replicate (S (S n)) (Fin c))
    with (Fin c :: Fin c :: replicate n (Fin c)).
  rewrite diff_cons_cons.
  change (Fin c :: replicate n (Fin c)) with (replicate (S n) (Fin c)).
  rewrite IH. replace (S (S n) - 1)%nat with (S (S n - 1)) by lia.
  cbn [replicate]. f_equal. unfold sub, neg, add. f_equal.
  apply Qcplus_opp_r.
Qed.

Lemma abs_zeros (m : nat) :
  Worker.abs (replicate m (Fin 0%Qc)) = replicate m (Fin 0%Qc).
Proof. unfold Worker.abs. by rewrite fmap_replicate. Qed.

Lemma sum_zeros (m : nat) :
  foldl add (Fin 0%Qc) (replicate m (Fin 0%Qc)) = Fin 0%Qc.
Proof.
  induction m as [|m IH]; [reflexivity|].
  cbn [replicate foldl add]. by replace (0 + 0)%Qc with 0%Qc by ring.
Qed.

Lemma zero_div_positive (b : Qc) :
  (0 < b)%Qc → div (Fin 0%Qc) (Fin b) = Fin 0%Qc.
Proof.
  intros Hb. unfold div. rewrite (Qc_sgn_pos _ Hb). f_equal. field.
  intros H0. rewrite H0 in Hb. by apply Qclt_not_eq in Hb.
Qed.

(** The worker's mean of zeros is 0. *)
Lemma mean_zeros (m : nat) : Worker.mean (replicate m (Fin 0%Qc)) = Fin 0%Qc.
Proof.
  unfold Worker.mean. rewrite length_replicate.
  destruct m as [|m]; [by rewrite <- of_Z_0|]. cbn [Nat.eqb].
  rewrite of_Z_0, sum_zeros. unfold of_Z. apply zero_div_positive.
  rewrite <- Z2Qc_inj_0. apply (proj1 (Z2Qc_inj_lt 0 (Z.of_nat (S m)))). lia.
Qed.

Lemma filter_below_zero (m : nat) :
  filter (λ d, lt d (Fin 0%Qc) = true) (replicate m (Fin 0%Qc)) = [].
Proof.
  induction m as [|m IH]; [reflexivity|].
  cbn [replicate]. rewrite filter_cons_False; [exact IH|].
  rewrite lt_zero_zero. discriminate.
Qed.

Lemma c1_128_positive : ∃ k : Qc, c1_128 = Fin k ∧ (0 < k)%Qc.
Proof. eexists. split; reflexivity. Qed.

Lemma zero_mul (x : number) :
  isFinite x = true → mul (Fin 0%Qc) x = Fin 0%Qc.
Proof. destruct x as [q| | |]; try done. intros _. cbn. f_equal. ring. Qed.

(** In the worker script equal values have sigma 0, with the screening of
    large differences and without. *)
Lemma worker_sigma_constant (c : Qc) (n : nat) (outliers_in_limits : bool) :
  Worker.sigma (replicate n (Fin c)) outliers_in_limits = Fin 0%Qc.
Proof.
  unfold Worker.sigma. cbv zeta.
  rewrite diff_constant, abs_zeros, mean_zeros.
  rewrite (zero_mul c3_267) by reflexivity.
  destruct c1_128_positive as (k & -> & Hk).
  destruct outliers_in_limits.
  - rewrite mean_zeros. by apply zero_div_positive.
  - rewrite filter_below_zero. unfold Worker.mean. cbn [length Nat.eqb].
    rewrite of_Z_0. by apply zero_div_positive.
Qed.

Lemma mul_zero (k : Z) : mul (of_Z k) (Fin 0%Qc) = Fin 0%Qc.
Proof. unfold of_Z, mul. f_equal. ring. Qed.

Lemma sub_zero (x : number) : sub x (Fin 0%Qc) = x.
Proof. destruct x as [q| | |]; try done. cbn. f_equal. ring. Qed.

Lemma add_zero (x : number) : add x (Fin 0%Qc) = x.
Proof. destruct x as [q| | |]; try done. cbn. f_equal. ring. Qed.

(** X16: in the worker script, for one or more equal finite numerators
    without denominators and without a subset of points, sigma is 0 and the
    limits at one, two and three sigma equal the centre line, under either
    setting of outliers_in_limits. *)
Lemma worker_iLimits_constant (args : controlLimitsArgs) (c : Qc) (n : nat) :
  (0 < n)%nat →
  numerators args = replicate n (Fin c) →
  Worker.useRatio args = false →
  subset_points args = None →
  let r := Worker.iLimits args in
  Worker.sigma (numerators args) (outliers_in_limits args) = of_Z 0
  ∧ ll99 r = targets r ∧ ll95 r = targets r
  ∧ ll68 r = Some (targets r) ∧ ul68 r = Some (targets r)
  ∧ ul95 r = targets r ∧ ul99 r = targets r.
Proof.
  intros Hn Hnum Huse Hsub r. subst r. unfold Worker.iLimits. cbv zeta.
  cbn [targets ll99 ll95 ll68 ul68 ul95 ul99].
  unfold Worker.ratio. rewrite Huse, Hsub. cbn [Worker.extractValues].
  rewrite Hnum, worker_sigma_constant, of_Z_0.
  rewrite !mul_zero, sub_zero, add_zero. by split_and!.
Qed.

(** In i.ts, differences that are all 0 leave nothing below the screening
    limit, whence sigma and the limits are NaN whatever the centre line. *)
Lemma sigma_zero_differences (diff abs : list number → list number)
    (ratio : list number) :
  Forall (λ d, d = Fin 0%Qc) (abs (diff ratio)) →
  sigma diff abs ratio false = NaN.
Proof.
  intros Hzero. unfold sigma. cbv zeta.
  set (ulim := mul (to_number (d3_mean (abs (diff ratio)))) c3_267).
  assert (Hnone : filter (λ d, lt d ulim = true) (abs (diff ratio)) = []).
  { assert (Hul : ulim = NaN ∨ ulim = Fin 0%Qc).
    { subst ulim. unfold d3_mean.
      assert (Hvalid : filter (λ v, isNaN v = false) (abs (diff ratio))
                       = abs (diff ratio)).
      { induction Hzero as [|d l -> _ IH]; [reflexivity|].
        rewrite filter_cons_True by reflexivity. by rewrite IH. }
      rewrite Hvalid.
      destruct (length (abs (diff ratio)) =? 0)%nat eqn:E; [by left|right].
      apply Nat.eqb_neq in E.
      assert (Hrep : abs (diff ratio)
                     = replicate (length (abs (diff ratio))) (Fin 0%Qc)).
      { clear E Hvalid. induction Hzero as [|d l -> _ IH]; [reflexivity|].
        cbn [length replicate]. by rewrite <- IH. }
      pose proof (mean_zeros (length (abs (diff ratio)))) as Hmean.
      unfold Worker.mean in Hmean. rewrite length_replicate in Hmean.
      apply Nat.eqb_neq in E. rewrite E in Hmean. rewrite <- Hrep in Hmean.
      cbn [to_number default]. rewrite Hmean.
      by apply zero_mul. }
    clearbody ulim.
    induction Hzero as [|d l -> _ IH]; [reflexivity|].
    rewrite filter_cons_False; [exact IH|].
    destruct Hul as [-> | ->]; simpl; discriminate. }
  rewrite Hnone. reflexivity.
Qed.

(** C3 as stated fails: where the denominator is 0 or NaN the worker script
    does not divide and returns the numerator 5, not 0; and an infinite
    ratio is returned as it is, by the worker script and by i.ts. *)
Lemma iLimits_values_counterexample :
  let r := Worker.iLimits zeroDenominatorArgs in
  denominators zeroDenominatorArgs = Some [of_Z 0; of_Z 1]
  ∧ values r !! 0%nat = Some (of_Z 5)
  ∧ values r !! 0%nat ≠ Some (of_Z 0)
  ∧ Worker.ratio zeroDenominatorArgs !! 1%nat = Some PosInf
  ∧ values r !! 1%nat = Some PosInf
  ∧ isFinite PosInf = false
  ∧ values (Worker.iLimits unusableDenominatorArgs) = [of_Z 5; of_Z 5]
  ∧ values (iLimits_ts infiniteArgs) !! 1%nat = Some PosInf.
Proof.
  split_and!; try reflexivity.
  vm_compute. intros H. inversion H.
Qed.

(** C3, as the code has it, for the numerator [n] at position [i].  The
    values hold no NaN.  Where the worker script has no denominator for the
    position, or one that is 0 or NaN, it does not divide: the value is the
    numerator, and 0 only if the numerator is NaN.  Where it divides, the
    value is 0 if the quotient is NaN (a NaN numerator, or an infinite one
    over an infinite denominator), an infinity if an infinite numerator is
    divided by a finite denominator, and 0 for a finite numerator over an
    infinite denominator.  In i.ts the values are the numerators, NaN
    replaced by 0, when there are no denominators, and otherwise what its
    divide returns, NaN replaced by 0. *)
Theorem iLimits_values_no_NaN (args : controlLimitsArgs)
    (divide : list number → list number → list number)
    (diff abs : list number → list number) (i : nat) (n : number) :
  numerators args !! i = Some n →
  let worker := values (Worker.iLimits args) in
  let module := values (iLimits divide diff abs args) in
  (∀ v, v ∈ worker → isNaN v = false)
  ∧ (∀ v, v ∈ module → isNaN v = false)
  ∧ match denominatorAt args i with
    | Some d =>
        if truthy d then
          ∃ v, worker !! i = Some v
               ∧ (isNaN n = true ∨ (isFinite n = false ∧ isFinite d = false) →
                  v = of_Z 0)
               ∧ (isNaN n = false → isFinite n = false → isFinite d = true →
                  v = PosInf ∨ v = NegInf)
               ∧ (isFinite n = true → isFinite d = false → v = of_Z 0)
        else worker !! i = Some (orSentinel n)
    | None => worker !! i = Some (orSentinel n)
    end
  ∧ (useRatio args = false → module !! i = Some (orSentinel n))
  ∧ (∀ d, ratio divide args !! i = Some d → module !! i = Some (orSentinel d)).
Proof.
  intros Hn worker module. subst worker module.
  assert (Hmap : ∀ (l : list number) v,
            v ∈ (λ d, if isNaN d then of_Z 0 else d) <$> l → isNaN v = false).
  { intros l v Hv. apply list_elem_of_fmap in Hv as (d & -> & _).
    by destruct d. }
  split; [apply Hmap|]. split; [apply Hmap|]. split; [|split].
  - unfold denominatorAt, Worker.iLimits. cbn [values].
    rewrite list_lookup_fmap. unfold Worker.ratio.
    destruct (Worker.useRatio args) eqn:Huse.
    + unfold Worker.divide. rewrite list_lookup_imap, Hn. cbn [fmap option_fmap option_map].
      destruct (denominators args) as [ds|]; cbn [mbind option_bind];
        [|reflexivity].
      destruct (ds !! i) as [d|]; [|reflexivity].
      destruct (truthy d) eqn:Ht; [|reflexivity].
      eexists. split; [reflexivity|].
      destruct n as [a| | |], d as [b| | |]; cbn in Ht; try discriminate;
        cbn [isNaN isFinite div];
        try (destruct (Qc_sgn b) eqn:Hb; try discriminate);
        (split_and!; [intros [?|[? ?]]|intros ? ? ?|intros ? ?]);
        try discriminate; try reflexivity; auto.
    + rewrite Hn. reflexivity.
  - intros Huse. unfold iLimits. cbn [values]. unfold ratio. rewrite Huse.
    by rewrite list_lookup_fmap, Hn.
  - intros d Hd. unfold iLimits. cbn [values].
    by rewrite list_lookup_fmap, Hd.
Qed.

Lemma iLimits_values_no_NaN_witness :
  values (Worker.iLimits nanRatioArgs) !! 0%nat = Some (of_Z 0).
Proof.
  destruct (iLimits_values_no_NaN nanRatioArgs (λ n _, n) Worker.diff
              Worker.abs 0%nat NaN eq_refl) as (_ & _ & H & _).
  destruct H as (v & Hv & H0 & _).
  rewrite Hv, H0; [reflexivity|]. by left.
Defined.

End LimitFacts.

(** * Properties of the subgroup ranges *)

Section GroupingFacts.
Import ViewModel Examples.

Lemma indexOf_ge arr d : -1 ≤ indexOf arr d.
Proof.
  induction arr as [|a arr IH]; simpl; [lia|].
  case_bool_decide; [lia|]. destruct (indexOf arr d <? 0) eqn:E; lia.
Qed.

Lemma indexOf_lookup arr d (i : nat) :
  indexOf arr d = Z.of_nat i → arr !! i = Some d.
Proof.
  revert i. induction arr as [|a arr IH]; intros i; simpl.
  - lia.
  - case_bool_decide as Had.
    + intros Hi. assert (i = 0%nat) as -> by lia. by subst.
    + destruct (indexOf arr d <? 0) eqn:E; [lia|].
      apply Z.ltb_ge in E. intros Hi. destruct i as [|i]; [lia|].
      simpl. apply IH. lia.
Qed.

Lemma indexOf_elem arr d : d ∈ arr → ∃ i : nat, indexOf arr d = Z.of_nat i.
Proof.
  induction arr as [|a arr IH]; intros Hd.
  - by apply elem_of_nil in Hd.
  - simpl. case_bool_decide as Had; [by exists 0%nat|].
    apply elem_of_cons in Hd as [->|Hd]; [done|].
    destruct (IH Hd) as [i Hi]. exists (S i).
    rewrite Hi. destruct (Z.of_nat i <? 0) eqn:E; lia.
Qed.

Lemma elem_of_indexed (arr : list Z) (i : nat) (d : Z) :
  (i, d) ∈ zip (seq 0 (length arr)) arr ↔ arr !! i = Some d.
Proof.
  rewrite list_elem_of_lookup. split.
  - intros [j Hj]. apply lookup_zip_with_Some in Hj as (i' & d' & Heq & Hs & Hd).
    injection Heq as -> ->. apply lookup_seq in Hs as [-> _]. exact Hd.
  - intros Hd. exists i. apply lookup_zip_with_Some. exists i, d.
    split_and!; [done| |done]. apply lookup_seq. split; [done|].
    by apply lookup_lt_Some in Hd.
Qed.

(** The filter keeps one copy of every element. *)
Lemma elem_of_dedup arr d : d ∈ dedup arr ↔ d ∈ arr.
Proof.
  unfold dedup. rewrite list_elem_of_fmap. split.
  - intros ([i d'] & -> & Hin). apply list_elem_of_filter in Hin as [_ Hin].
    apply elem_of_indexed in Hin. by eapply list_elem_of_lookup_2.
  - intros Hd. destruct (indexOf_elem arr d Hd) as [i Hi].
    exists (i, d). split; [done|]. apply list_elem_of_filter. split; [done|].
    apply elem_of_indexed. by apply indexOf_lookup.
Qed.

Lemma NoDup_dedup arr : NoDup (dedup arr).
Proof.
  unfold dedup. apply NoDup_fmap_2_strong.
  - intros [i d] [j e] Hi Hj Heq. simpl in Heq. subst e.
    apply list_elem_of_filter in Hi as [Hi _].
    apply list_elem_of_filter in Hj as [Hj _]. simpl in Hi, Hj.
    f_equal. lia.
  - apply NoDup_filter. apply (NoDup_fmap_1 fst).
    rewrite fst_zip by (rewrite length_seq; lia). apply NoDup_seq.
Qed.

Lemma StronglySorted_le_lt (l : list Z) :
  StronglySorted Z.le l → NoDup l → StronglySorted Z.lt l.
Proof.
  induction 1 as [|a l Hs IH Hall]; intros Hnd; constructor.
  - apply IH. by apply NoDup_cons in Hnd as [_ ?].
  - apply NoDup_cons in Hnd as [Ha _].
    apply Forall_forall. intros x Hx.
    assert (a ≤ x) by (by eapply Forall_forall in Hall).
    assert (a ≠ x) by (intros ->; done). lia.
Qed.

(** The sorted indexes ascend strictly and are the elements given. *)
Lemma allIndexes_sorted inputData splitIndexes :
  StronglySorted Z.lt (allIndexes inputData splitIndexes)
  ∧ ∀ k, k ∈ allIndexes inputData splitIndexes
         ↔ k ∈ default [] splitIndexes ++ [-1] ++ groupingIndexes inputData
               ++ [Z.of_nat (length (keys (limitInputArgs inputData))) - 1].
Proof.
  unfold allIndexes, sortAscending. split.
  - apply StronglySorted_le_lt.
    + apply StronglySorted_merge_sort; apply _.
    + rewrite merge_sort_Permutation. apply NoDup_dedup.
  - intros k. rewrite merge_sort_Permutation. apply elem_of_dedup.
Qed.

Lemma getGroupingIndexes_consecutive inputData splitIndexes :
  getGroupingIndexes inputData splitIndexes
  = consecutive (allIndexes inputData splitIndexes).
Proof.
  unfold getGroupingIndexes. cbv zeta.
  generalize (allIndexes inputData splitIndexes) as l.
  induction l as [|a [|b l] IH]; [reflexivity| reflexivity |].
  change (consecutive (a :: b :: l)) with ((a + 1, b + 1) :: consecutive (b :: l)).
  rewrite <- IH.
  replace (length (a :: b :: l) - 1)%nat with (S (length (b :: l) - 1))
    by (simpl; lia).
  cbn [seq fmap list_fmap]. f_equal.
  rewrite <- fmap_S_seq, <- list_fmap_compose. reflexivity.
Qed.

(** The first of strictly ascending indexes is the least, the last the
    greatest. *)
Lemma sorted_first (a : Z) (l : list Z) m :
  StronglySorted Z.lt (a :: l) → m ∈ a :: l → (∀ k, k ∈ a :: l → m ≤ k) → a = m.
Proof.
  intros Hs Hm Hmin. apply StronglySorted_inv in Hs as [_ Hall].
  apply elem_of_cons in Hm as [->|Hm]; [done|].
  assert (a < m) by (by eapply Forall_forall in Hall).
  assert (m ≤ a) by (apply Hmin; left). lia.
Qed.

Lemma sorted_last (a : Z) (l : list Z) m :
  StronglySorted Z.lt (a :: l) → m ∈ a :: l → (∀ k, k ∈ a :: l → k ≤ m) →
  default a (last l) = m.
Proof.
  revert a. induction l as [|b l IH]; intros a Hs Hm Hmax.
  - apply elem_of_cons in Hm as [->|Hm]; [done|]. by apply elem_of_nil in Hm.
  - apply StronglySorted_inv in Hs as [Hs Hall].
    assert (a < b) by (eapply Forall_forall in Hall; [done|left]).
    assert (Hb : default b (last l) = m).
    { apply IH; [done| |].
      - apply elem_of_cons in Hm as [->|Hm]; [|done].
        assert (b ≤ a) by (apply Hmax; right; left). lia.
      - intros k Hk. apply Hmax. by right. }
    rewrite last_cons. destruct (last l); simpl in *; done.
Qed.

(** Strictly ascending indexes give ranges that run from the first index
    plus one to the last index plus one. *)
Lemma consecutive_chain (a b : Z) (l : list Z) :
  StronglySorted Z.lt (a :: b :: l) →
  chain (a + 1) (default b (last l) + 1) (consecutive (a :: b :: l)).
Proof.
  revert a b. induction l as [|c l IH]; intros a b Hs.
  - apply StronglySorted_inv in Hs as [_ Hall].
    assert (a < b) by (eapply Forall_forall in Hall; [done|left]).
    simpl. apply chain_one. lia.
  - pose proof Hs as Hs'. apply StronglySorted_inv in Hs' as [Hs' Hall].
    assert (a < b) by (eapply Forall_forall in Hall; [done|left]).
    change (consecutive (a :: b :: c :: l))
      with ((a + 1, b + 1) :: consecutive (b :: c :: l)).
    apply chain_cons; [lia|].
    specialize (IH b c Hs'). rewrite last_cons.
    destruct (last l); simpl in *; exact IH.
Qed.

Lemma chain_bounds a b rs r :
  chain a b rs → r ∈ rs → a ≤ r.1 ∧ r.1 < r.2 ∧ r.2 ≤ b.
Proof.
  induction 1 as [a b Hab|a b c rs Hab Hch IH]; intros Hr.
  - apply list_elem_of_singleton in Hr as ->. simpl. lia.
  - apply elem_of_cons in Hr as [->|Hr]; simpl.
    + assert (b < c); [|lia]. clear -Hch. induction Hch; lia.
    + specialize (IH Hr). lia.
Qed.

Lemma chain_lt a b rs : chain a b rs → a < b.
Proof. induction 1; lia. Qed.

Lemma chain_head a b rs : chain a b rs → ∃ e rs', rs = (a, e) :: rs'.
Proof. destruct 1; eauto. Qed.

Lemma chain_sorted a b rs : chain a b rs → sorted_ranges rs.
Proof.
  intros Hch. split.
  - induction Hch as [a b Hab|a b c rs Hab Hch IH].
    + repeat constructor.
    + constructor; [exact IH|]. apply Forall_forall. intros r Hr.
      destruct (chain_bounds _ _ _ _ Hch Hr). simpl. lia.
  - intros r Hr. by destruct (chain_bounds _ _ _ _ Hch Hr) as (_ & ? & _).
Qed.

Lemma chain_contiguous a b rs : chain a b rs → contiguous rs.
Proof.
  induction 1 as [a b Hab|a b c rs Hab Hch IH]; intros i r1 r2 H1 H2.
  - destruct i; simpl in H2; discriminate.
  - destruct i as [|i]; simpl in H1, H2.
    + injection H1 as <-. destruct (chain_head _ _ _ Hch) as (e & rs' & ->).
      simpl in H2. injection H2 as <-. reflexivity.
    + by eapply IH.
Qed.

Lemma chain_non_overlapping a b rs : chain a b rs → non_overlapping rs.
Proof.
  induction 1 as [a b Hab|a b c rs Hab Hch IH]; intros i j r1 r2 Hij H1 H2.
  - destruct j; [lia|]. simpl in H2. discriminate.
  - destruct j as [|j]; [lia|]. simpl in H2.
    destruct i as [|i]; simpl in H1.
    + injection H1 as <-. apply list_elem_of_lookup_2 in H2.
      destruct (chain_bounds _ _ _ _ Hch H2). simpl. lia.
    + eapply IH; [|done..]. lia.
Qed.

Lemma chain_covers a b rs k :
  chain a b rs → a ≤ k < b ↔ ∃ r, r ∈ rs ∧ r.1 ≤ k < r.2.
Proof.
  induction 1 as [a b Hab|a b c rs Hab Hch IH].
  - split.
    + intros Hk. exists (a, b). split; [left|done].
    + intros (r & Hr & Hk). apply list_elem_of_singleton in Hr as ->. done.
  - pose proof (chain_lt _ _ _ Hch). split.
    + intros Hk. destruct (decide (k < b)) as [Hlt|Hge].
      * exists (a, b). split; [left|simpl; lia].
      * destruct (proj1 IH) as (r & Hr & Hkr); [lia|].
        exists r. split; [by right|done].
    + intros (r & Hr & Hk). apply elem_of_cons in Hr as [->|Hr].
      * simpl in Hk. lia.
      * assert (b ≤ k < c); [|lia]. apply IH. eauto.
Qed.

(** C7: for a sequence of n >= 1 points and split and grouping indexes
    within 0 .. n-1, the subgroup ranges are ascending non-empty half-open
    ranges, each starting where the one before ends, none overlapping
    another, that run from 0 to n and hold exactly the indexes 0 .. n-1. *)
Theorem getGroupingIndexes_partition (inputData : dataObject)
    (splitIndexes : option (list Z)) :
  let n := Z.of_nat (length (keys (limitInputArgs inputData))) in
  1 ≤ n →
  (∀ k, k ∈ default [] splitIndexes → 0 ≤ k < n) →
  (∀ k, k ∈ groupingIndexes inputData → 0 ≤ k < n) →
  let ranges := getGroupingIndexes inputData splitIndexes in
  chain 0 n ranges
  ∧ sorted_ranges ranges
  ∧ contiguous ranges
  ∧ non_overlapping ranges
  ∧ covers ranges n.
Proof.
  intros n Hn Hsplit Hgroup ranges.
  destruct (allIndexes_sorted inputData splitIndexes) as [Hsorted Helem].
  fold n in Helem.
  assert (Hrange : ∀ k, k ∈ allIndexes inputData splitIndexes → -1 ≤ k ≤ n - 1).
  { intros k Hk. apply Helem in Hk.
    rewrite !elem_of_app, !list_elem_of_singleton in Hk.
    destruct Hk as [Hk|[->|[Hk| ->]]]; [|lia| |lia].
    - apply Hsplit in Hk. lia.
    - apply Hgroup in Hk. lia. }
  assert (Hmin : -1 ∈ allIndexes inputData splitIndexes).
  { apply Helem. rewrite !elem_of_app, !list_elem_of_singleton. auto. }
  assert (Hmax : n - 1 ∈ allIndexes inputData splitIndexes).
  { apply Helem. rewrite !elem_of_app, !list_elem_of_singleton. auto. }
  assert (Hchain : chain 0 n ranges).
  { subst ranges. rewrite getGroupingIndexes_consecutive.
    destruct (allIndexes inputData splitIndexes) as [|a [|b l]] eqn:El.
    - by apply elem_of_nil in Hmin.
    - apply list_elem_of_singleton in Hmin, Hmax. lia.
    - assert (a = -1) as ->.
      { eapply sorted_first; [done..|]. intros k Hk. apply Hrange in Hk. lia. }
      assert (Hlast : default (-1) (last (b :: l)) = n - 1).
      { eapply sorted_last; [done..|]. intros k Hk. apply Hrange in Hk. lia. }
      pose proof (consecutive_chain (-1) b l Hsorted) as Hc.
      rewrite last_cons in Hlast.
      replace (default b (last l)) with (n - 1) in Hc
        by (destruct (last l); simpl in *; lia).
      replace (n - 1 + 1) with n in Hc by lia. exact Hc. }
  split_and!.
  - exact Hchain.
  - by eapply chain_sorted.
  - by eapply chain_contiguous.
  - by eapply chain_non_overlapping.
  - intros k. by apply chain_covers.
Qed.

Lemma getGroupingIndexes_partition_witness :
  let ranges := getGroupingIndexes exampleData (Some [5; 2; 7]) in
  ranges = [(0, 3); (3, 4); (4, 6); (6, 8); (8, 10)]
  ∧ chain 0 10 ranges ∧ sorted_ranges ranges ∧ contiguous ranges
  ∧ non_overlapping ranges ∧ covers ranges 10.
Proof.
  split; [vm_compute; reflexivity|].
  apply (getGroupingIndexes_partition exampleData (Some [5; 2; 7])).
  - vm_compute. discriminate.
  - change (Z.of_nat (length (keys (limitInputArgs exampleData)))) with 10.
    apply Forall_forall. repeat constructor; lia.
  - change (Z.of_nat (length (keys (limitInputArgs exampleData)))) with 10.
    apply Forall_forall. repeat constructor; lia.
Defined.

End GroupingFacts.

(** * Properties of the update cycle *)

Section UpdateFacts.
Import JS ChangeDetection ViewModel.
Context {Settings DataViews Host Limits OutlierFlags PlotData Lines
         Palette Identities Tables GroupedPlot : Type}.
Abbreviation Collab :=
  (@Collaborators Settings DataViews Host Limits OutlierFlags PlotData Lines
     Palette Identities Tables GroupedPlot).
Abbreviation VM :=
  (@viewModel Settings Limits OutlierFlags PlotData Lines Palette Identities
     Tables GroupedPlot).
Variable C : Collab.

Lemma sameResults_refl (vm : VM) : sameResults vm vm.
Proof. by repeat split. Qed.

Lemma sameResults_trans (vm1 vm2 vm3 : VM) :
  sameResults vm1 vm2 → sameResults vm2 vm3 → sameResults vm1 vm3.
Proof.
  intros (?&?&?&?&?&?) (?&?&?&?&?&?). repeat split; congruence.
Qed.

Lemma prologue_results (vm : VM) options host :
  sameResults vm (prologue C vm options host).
Proof. by repeat split. Qed.

Lemma viewCycle_results (vm : VM) css : sameResults vm (viewCycle C vm css).
Proof. by repeat split. Qed.

Lemma groupedCycle_results (vm : VM) options host css :
  sameResults vm (groupedCycle C vm options host css).
Proof. by repeat split. Qed.

(** The closing part of [update] keeps the results, the mode and the input
    data, and reports failed validation of the input data as an error. *)
Lemma finish_state (vm : VM) css :
  sameResults vm (finish vm css).1
  ∧ showGrouped (finish vm css).1 = showGrouped vm
  ∧ inputData (finish vm css).1 = inputData vm.
Proof.
  unfold finish. cbn [showGrouped inputData inputDataGrouped].
  destruct (showGrouped vm).
  - destruct (inputDataGrouped vm); [case_match|]; by repeat split.
  - destruct (inputData vm); [case_match|]; by repeat split.
Qed.

(** It keeps the fields of the grouped mode and the split indexes too. *)
Lemma finish_grouped (vm : VM) css :
  let vm' := (finish vm css).1 in
  outliersGrouped vm' = outliersGrouped vm
  ∧ identitiesGrouped vm' = identitiesGrouped vm
  ∧ plotPointsGrouped vm' = plotPointsGrouped vm
  ∧ splitIndexes vm' = splitIndexes vm
  ∧ groupNames vm' = groupNames vm
  ∧ inputDataGrouped vm' = inputDataGrouped vm
  ∧ groupStartEndIndexesGrouped vm' = groupStartEndIndexesGrouped vm
  ∧ controlLimitsGrouped vm' = controlLimitsGrouped vm.
Proof.
  unfold finish. cbn [showGrouped inputData inputDataGrouped].
  destruct (showGrouped vm).
  - destruct (inputDataGrouped vm); [case_match|]; by repeat split.
  - destruct (inputData vm); [case_match|]; by repeat split.
Qed.

Lemma finish_error (vm : VM) css d :
  showGrouped vm = false → inputData vm = Some d →
  status (validationStatus d) ≠ 0 →
  (finish vm css).2
  = Returned {| res_status := false;
                res_error := Some (error (validationStatus d));
                res_warning := None; res_type := None |}.
Proof.
  intros Hs Hd Hst. unfold finish. cbn [showGrouped inputData].
  rewrite Hs, Hd.
  destruct (status (validationStatus d) =? 0) eqn:E;
    [apply Z.eqb_eq in E; done | reflexivity].
Qed.

(** A cycle without indicator column whose extracted data fails validation
    keeps the results. *)
Lemma singleCycle_cases (vm : VM) options host css :
  let vm' := singleCycle C vm options host css in
  showGrouped vm' = false
  ∧ inputData vm' = Some (extracted C vm options)
  ∧ (status (validationStatus (extracted C vm options)) ≠ 0 →
     sameResults vm vm').
Proof.
  unfold singleCycle. cbv zeta.
  destruct (status (validationStatus (extracted C vm options)) =? 0) eqn:E.
  - split_and!; [reflexivity..|]. apply Z.eqb_eq in E. done.
  - split_and!; [reflexivity..|]. intros _. by repeat split.
Qed.

(** The path of a rejected data update, from the inputs: on a data cycle
    with valid settings and data view and without indicator column, data
    that fails validation becomes [this.inputData], the validation error is
    returned and the results stay. *)
Lemma update_rejects_invalid_data (vm : VM)
    (options : VisualUpdateOptions DataViews) (host : Host) :
  let vm0 := prologue C vm options host in
  let inp := extracted C vm0 options in
  (type options =? 2) || firstRun vm = true →
  settingsError C (inputSettings vm0) = "" →
  validateDataView C (dataViews options) (inputSettings vm0) = "valid" →
  hasIndicator C (dataViews options) = false →
  status (validationStatus inp) ≠ 0 →
  (update C vm options host).2
  = Returned {| res_status := false;
                res_error := Some (error (validationStatus inp));
                res_warning := None; res_type := None |}
  ∧ showGrouped (update C vm options host).1 = false
  ∧ inputData (update C vm options host).1 = Some inp
  ∧ sameResults vm (update C vm options host).1.
Proof.
  intros vm0 inp Hcycle Hset Hdv Hind Hstatus. unfold update. cbv zeta.
  fold vm0. rewrite Hcycle, Hind.
  rewrite (bool_decide_eq_true_2 _ Hset), (bool_decide_eq_true_2 _ Hdv).
  cbn [negb].
  set (css := createSettingsState C (inputSettings vm0)).
  destruct (singleCycle_cases vm0 options host css) as (Hsg & Hinp & Hkeep).
  destruct (finish_state (singleCycle C vm0 options host css) css)
    as (Hres & Hsg' & Hinp').
  rewrite Hsg', Hinp', Hsg, Hinp.
  split_and!; [|reflexivity..|].
  - by apply finish_error.
  - apply (sameResults_trans _ vm0 _ (prologue_results vm options host)).
    apply (sameResults_trans _ _ _ (Hkeep Hstatus) Hres).
Qed.

(** C8, as the code has it: a cycle that ends in the non-grouped mode with
    input data whose validation status is not 0 returns an error result.
    The control limits, outlier flags, plot points, grouped lines, tables
    and subgroup ranges are those from before the cycle, and so are the
    outlier flags, identities and plot points of the grouped mode.  If the
    cycle read the rejected data itself (a data cycle without indicator
    column), that data and its split indexes have replaced the previous
    ones, and the group names, input data, subgroup ranges and control
    limits of the grouped mode are null; otherwise these stay. *)
Theorem update_validation_failure (vm : VM)
    (options : VisualUpdateOptions DataViews) (host : Host) (d : dataObject) :
  showGrouped (update C vm options host).1 = false →
  inputData (update C vm options host).1 = Some d →
  status (validationStatus d) ≠ 0 →
  let vm' := (update C vm options host).1 in
  (∃ res, (update C vm options host).2 = Returned res ∧ res_status res = false)
  ∧ controlLimits vm' = controlLimits vm
  ∧ outliers vm' = outliers vm
  ∧ plotPoints vm' = plotPoints vm
  ∧ sameResults vm vm'
  ∧ outliersGrouped vm' = outliersGrouped vm
  ∧ identitiesGrouped vm' = identitiesGrouped vm
  ∧ plotPointsGrouped vm' = plotPointsGrouped vm
  ∧ (if replacesInput C vm options host
     then d = extracted C (prologue C vm options host) options
          ∧ splitIndexes vm' = splitIndexesOf C (dataViews options)
          ∧ groupNames vm' = None
          ∧ inputDataGrouped vm' = None
          ∧ groupStartEndIndexesGrouped vm' = None
          ∧ controlLimitsGrouped vm' = None
     else inputData vm = Some d
          ∧ splitIndexes vm' = splitIndexes vm
          ∧ groupNames vm' = Some (groupNamesOf C (dataViews options))
          ∧ inputDataGrouped vm' = inputDataGrouped vm
          ∧ groupStartEndIndexesGrouped vm' = groupStartEndIndexesGrouped vm
          ∧ controlLimitsGrouped vm' = controlLimitsGrouped vm).
Proof.
  intros Hmode Hdata Hstatus vm'. subst vm'.
  assert (Hgoal : (∃ res, (update C vm options host).2 = Returned res
                          ∧ res_status res = false)
                  ∧ sameResults vm (update C vm options host).1).
  { revert Hmode Hdata. unfold update. cbv zeta.
    pose proof (prologue_results vm options host) as H0.
    set (vm0 := prologue C vm options host) in *.
    case_bool_decide as Hset; cbn [negb].
    2:{ intros _ _. split; [eauto|exact H0]. }
    case_bool_decide as Hdv; cbn [negb].
    2:{ intros _ _. split; [eauto|exact H0]. }
    set (css := createSettingsState C (inputSettings vm0)).
    set (vm1 := if (type options =? 2) || firstRun vm
                then if hasIndicator C (dataViews options)
                     then groupedCycle C vm0 options host css
                     else singleCycle C vm0 options host css
                else viewCycle C vm0 css).
    destruct (finish_state vm1 css) as (Hres & Hsg & Hinp).
    intros Hmode Hdata. rewrite Hsg in Hmode. rewrite Hinp in Hdata.
    split.
    - rewrite (finish_error vm1 css d Hmode Hdata Hstatus). eauto.
    - apply (sameResults_trans _ vm0 _ H0).
      apply (sameResults_trans _ vm1 _); [|exact Hres].
      subst vm1. destruct ((type options =? 2) || firstRun vm).
      + destruct (hasIndicator C (dataViews options)).
        * apply groupedCycle_results.
        * destruct (singleCycle_cases vm0 options host css) as (_ & Hd' & Hkeep).
          apply Hkeep. rewrite Hd' in Hdata. by injection Hdata as ->.
      + apply viewCycle_results. }
  destruct Hgoal as [Hres Hsame]. pose proof Hsame as (?&?&?&_).
  split; [exact Hres|]. do 4 (split; [done|]).
  clear Hres Hsame. revert Hmode Hdata.
  unfold replacesInput, update. cbv zeta.
  set (vm0 := prologue C vm options host).
  case_bool_decide as Hset; cbn [negb andb].
  2:{ rewrite andb_false_r. cbn [andb fst]. intros _ Hd. by split_and!. }
  case_bool_decide as Hdv; cbn [negb andb].
  2:{ rewrite andb_false_r. cbn [andb fst]. intros _ Hd. by split_and!. }
  rewrite !andb_true_r.
  set (css := createSettingsState C (inputSettings vm0)).
  set (vm1 := if (type options =? 2) || firstRun vm
              then if hasIndicator C (dataViews options)
                   then groupedCycle C vm0 options host css
                   else singleCycle C vm0 options host css
              else viewCycle C vm0 css).
  destruct (finish_state vm1 css) as (_ & Hsg & Hinp).
  destruct (finish_grouped vm1 css) as (-> & -> & -> & -> & -> & -> & -> & ->).
  rewrite Hsg, Hinp. subst vm1.
  destruct ((type options =? 2) || firstRun vm); cbn [andb].
  - destruct (hasIndicator C (dataViews options)); cbn [negb].
    + intros Hmode. discriminate.
    + intros _ Hd.
      destruct (singleCycle_cases vm0 options host css) as (_ & Hd' & _).
      rewrite Hd' in Hd. apply (inj Some) in Hd. subst d.
      unfold singleCycle. cbv zeta.
      destruct (status (validationStatus (extracted C vm0 options)) =? 0) eqn:E;
        [by apply Z.eqb_eq in E|].
      by split_and!.
  - intros _ Hd. by split_and!.
Qed.

End UpdateFacts.

Section UpdateExample.
Import ViewModel Examples FurtherExamples.

(** C8 as stated fails after a cycle in grouped mode: the rejected cycle
    without indicator column returns the error, sets the control limits and
    the input data of the groups to null and replaces the input data, while
    the outlier flags of the groups stay. *)
Lemma update_validation_failure_counterexample :
  let r := update switchingCollaborators groupedModel rejectedUpdate tt in
  (∃ res, (update switchingCollaborators previousModel groupedUpdate tt).2
          = Returned res ∧ res_status res = true)
  ∧ controlLimitsGrouped groupedModel = Some [Some 1%nat]
  ∧ outliersGrouped groupedModel = Some [Some 2%nat]
  ∧ inputData groupedModel = Some exampleData
  ∧ (∃ res, r.2 = Returned res ∧ res_status res = false)
  ∧ showGrouped r.1 = false
  ∧ inputData r.1 = Some invalidData
  ∧ controlLimitsGrouped r.1 = None
  ∧ controlLimitsGrouped r.1 ≠ controlLimitsGrouped groupedModel
  ∧ inputDataGrouped r.1 = None
  ∧ outliersGrouped r.1 = Some [Some 2%nat].
Proof.
  split_and!; try (vm_compute; reflexivity); try (vm_compute; discriminate);
    eexists; split; vm_compute; reflexivity.
Qed.

Lemma update_validation_failure_witness :
  let r := update failingCollaborators previousModel dataUpdate tt in
  (∃ res, r.2 = Returned res ∧ res_status res = false)
  ∧ controlLimits r.1 = Some 7%nat
  ∧ outliers r.1 = Some 3%nat
  ∧ plotPoints r.1 = [1; 2; 3]%nat
  ∧ sameResults previousModel r.1
  ∧ outliersGrouped r.1 = None
  ∧ identitiesGrouped r.1 = None
  ∧ plotPointsGrouped r.1 = None
  ∧ invalidData = invalidData
  ∧ splitIndexes r.1 = []
  ∧ groupNames r.1 = None
  ∧ inputDataGrouped r.1 = None
  ∧ groupStartEndIndexesGrouped r.1 = None
  ∧ controlLimitsGrouped r.1 = None.
Proof.
  apply (update_validation_failure failingCollaborators previousModel
           dataUpdate tt invalidData).
  - reflexivity.
  - reflexivity.
  - vm_compute. discriminate.
Defined.

End UpdateExample.

(** * Further properties of change detection *)

Section ChangeFlagFacts.
Import JS ChangeDetection Examples.

Lemma settingsStep_outliers (c : string) (r : Pending) :
  p_outliers (settingsStep c r) = true
  ↔ p_outliers r = true ∨ c = "spc" ∨ c = "outliers".
Proof.
  unfold settingsStep, LIMIT_RECALC_SETTINGS, OUTLIER_RECALC_SETTINGS.
  rewrite <- (elem_of_singleton (C := gset string) c "spc").
  rewrite <- (elem_of_singleton (C := gset string) c "outliers").
  destruct (SETTINGS_TO_RENDER_MAP !! c); repeat case_bool_decide;
    cbn [p_outliers]; tauto.
Qed.

Lemma settings_fold_outliers (p0 : Pending) (X : gset string) :
  p_outliers (set_fold settingsStep p0 X) = true
  ↔ p_outliers p0 = true ∨ "spc" ∈ X ∨ "outliers" ∈ X.
Proof.
  apply (set_fold_ind_L
           (λ r Y, p_outliers r = true
                   ↔ p_outliers p0 = true ∨ "spc" ∈ Y ∨ "outliers" ∈ Y)).
  - rewrite !elem_of_empty. tauto.
  - intros c Y r Hc IH.
    rewrite settingsStep_outliers, IH, !elem_of_union, !elem_of_singleton.
    split; [intros [[?|[?|?]]|[?|?]] | intros [?|[[?|?]|[?|?]]]]; auto.
Qed.

(** The flags of a later cycle that [computeChangeFlags_later] leaves out. *)
Lemma computeChangeFlags_later_more prev cur prevS curS :
  let dc := detectDataChanges prev cur in
  let p1 := set_fold settingsStep
              (if dc_dataChanged dc
               then {| p_limits := true; p_outliers := true;
                       p_render := addStages
                         ["dots"; "lines"; "icons"; "xAxis"; "yAxis";
                          "valueLabels"; "lineLabels"] ∅ |}
               else {| p_limits := false; p_outliers := false; p_render := ∅ |})
              (detectSettingsChanges prevS curS) in
  let flags := computeChangeFlags prev cur prevS curS false in
  outliersNeedRecalc flags = p_outliers p1
  ∧ viewportChanged flags = dc_viewportChanged dc.
Proof. repeat split. Qed.

(** The recalculation flags of a later cycle, for the flags that are
    returned. *)
Lemma recalc_flags_returned prev cur prevS curS :
  let flags := computeChangeFlags prev cur prevS curS false in
  (limitsNeedRecalc flags = true
   ↔ dataChanged flags = true ∨ "spc" ∈ settingsChanged flags)
  ∧ (outliersNeedRecalc flags = true
     ↔ dataChanged flags = true ∨ "spc" ∈ settingsChanged flags
       ∨ "outliers" ∈ settingsChanged flags)
  ∧ (limitsNeedRecalc flags = true → outliersNeedRecalc flags = true).
Proof.
  intros flags.
  destruct (computeChangeFlags_later prev cur prevS curS)
    as (_ & Hdc & Hsc & Hlim & _).
  destruct (computeChangeFlags_later_more prev cur prevS curS) as (Hout & _).
  fold flags in Hdc, Hsc, Hlim, Hout.
  assert (Hl : limitsNeedRecalc flags = true
               ↔ dataChanged flags = true ∨ "spc" ∈ settingsChanged flags).
  { rewrite Hlim, settings_fold_limits, Hdc, Hsc.
    destruct (dc_dataChanged (detectDataChanges prev cur)); cbn [p_limits];
      intuition discriminate. }
  assert (Ho : outliersNeedRecalc flags = true
               ↔ dataChanged flags = true ∨ "spc" ∈ settingsChanged flags
                 ∨ "outliers" ∈ settingsChanged flags).
  { rewrite Hout, settings_fold_outliers, Hdc, Hsc.
    destruct (dc_dataChanged (detectDataChanges prev cur)); cbn [p_outliers];
      intuition discriminate. }
  split_and!; [exact Hl | exact Ho |].
  rewrite Hl, Ho. intros [?|?]; auto.
Qed.

(** A changed category named toString ends a later cycle with the
    TypeError; on the first run the loop is not reached. *)
Example computeChangeFlags_throws :
  let named := {| categoryHashes := {[ "toString" := "811c9dc5" ]} |} in
  computeChangeFlagsOutcome (Some (exampleState 400)) (exampleState 400)
    (Some exampleSettings) named false = None
  ∧ is_Some (computeChangeFlagsOutcome (Some (exampleState 400))
               (exampleState 400) (Some exampleSettings) named true).
Proof. split; [vm_compute; reflexivity|by eexists]. Qed.

(** X1: On a later cycle computeChangeFlags throws a TypeError exactly when
    a changed settings category is named like a member of Object.prototype.
    In the flags it returns otherwise, the limits are to be recomputed
    exactly when the data changed or the "spc" settings did, the outliers
    exactly when the data, the "spc" or the "outliers" settings changed; so
    whenever the limits are recomputed the outliers are too. *)
Theorem recalc_flags prev cur prevS curS :
  (computeChangeFlagsOutcome prev cur prevS curS false = None
   ↔ ∃ category, category ∈ detectSettingsChanges prevS curS
                 ∧ category ∈ OBJECT_PROTOTYPE_MEMBERS)
  ∧ ∀ flags, computeChangeFlagsOutcome prev cur prevS curS false = Some flags →
      (limitsNeedRecalc flags = true
       ↔ dataChanged flags = true ∨ "spc" ∈ settingsChanged flags)
      ∧ (outliersNeedRecalc flags = true
         ↔ dataChanged flags = true ∨ "spc" ∈ settingsChanged flags
           ∨ "outliers" ∈ settingsChanged flags)
      ∧ (limitsNeedRecalc flags = true → outliersNeedRecalc flags = true).
Proof.
  rewrite computeChangeFlagsOutcome_later. split.
  - case_bool_decide as Hnames.
    + split; [discriminate|]. intros (c & Hc & Hin). by destruct (Hnames c Hc).
    + split; [intros _|done].
      destruct (decide (set_Exists (λ c, c ∈ OBJECT_PROTOTYPE_MEMBERS)
                          (detectSettingsChanges prevS curS)))
        as [(c & Hc & Hin)|Hno]; [by exists c|].
      destruct Hnames. intros c Hc Hin. apply Hno. by exists c.
  - intros flags. case_bool_decide; [|discriminate].
    intros [= <-]. apply recalc_flags_returned.
Qed.

(** The stages of a later cycle, for the flags that are returned. *)
Lemma renderNeeded_returned prev cur prevS curS (stage : string) :
  let flags := computeChangeFlags prev cur prevS curS false in
  stage ∈ renderNeeded flags
  ↔ (dataChanged flags = true
     ∧ stage ∈ ["dots"; "lines"; "icons"; "xAxis"; "yAxis";
                "valueLabels"; "lineLabels"])
    ∨ (∃ category stages,
         category ∈ settingsChanged flags
         ∧ SETTINGS_TO_RENDER_MAP !! category = Some stages
         ∧ stage ∈ stages)
    ∨ (viewportChanged flags = true ∧ stage ∈ ["xAxis"; "yAxis"])
    ∨ (resizeOnly flags = true ∧ limitsNeedRecalc flags = false
       ∧ stage ∈ ["dots"; "lines"]).
Proof.
  intros flags.
  destruct (computeChangeFlags_later prev cur prevS curS)
    as (Hro & Hdc & Hsc & Hlim & Hrender).
  destruct (computeChangeFlags_later_more prev cur prevS curS) as (_ & Hvp).
  fold flags in Hro, Hdc, Hsc, Hlim, Hrender, Hvp.
  rewrite Hrender, Hro, Hdc, Hsc, Hlim, Hvp. cbv zeta.
  set (dc := detectDataChanges prev cur).
  set (p1 := set_fold settingsStep _ _).
  assert (Hp1 : stage ∈ p_render p1
     ↔ (dc_dataChanged dc = true
        ∧ stage ∈ ["dots"; "lines"; "icons"; "xAxis"; "yAxis";
                   "valueLabels"; "lineLabels"])
       ∨ ∃ category stages,
           category ∈ detectSettingsChanges prevS curS
           ∧ SETTINGS_TO_RENDER_MAP !! category = Some stages
           ∧ stage ∈ stages).
  { subst p1. rewrite settings_fold_render.
    destruct (dc_dataChanged dc); cbn [p_render].
    - rewrite elem_of_addStages, elem_of_empty. intuition.
    - rewrite elem_of_empty. intuition discriminate. }
  destruct (dc_resizeOnly dc), (p_limits p1), (dc_viewportChanged dc);
    cbn [andb negb]; rewrite ?elem_of_addStages, Hp1;
    intuition discriminate.
Qed.

(** X2: On a later cycle of which no changed settings category is named
    like a member of Object.prototype, computeChangeFlags returns flags in
    which a stage is requested exactly for one of four reasons: the data
    changed and it is a core stage; a changed settings category maps to it;
    the viewport changed and it is an axis stage; or the cycle is
    resize-only without limit recalculation and the stage is dots or
    lines. *)
Theorem renderNeeded_spec prev cur prevS curS :
  (∀ category, category ∈ detectSettingsChanges prevS curS →
               category ∉ OBJECT_PROTOTYPE_MEMBERS) →
  ∃ flags,
    computeChangeFlagsOutcome prev cur prevS curS false = Some flags
    ∧ ∀ stage,
        stage ∈ renderNeeded flags
        ↔ (dataChanged flags = true
           ∧ stage ∈ ["dots"; "lines"; "icons"; "xAxis"; "yAxis";
                      "valueLabels"; "lineLabels"])
          ∨ (∃ category stages,
               category ∈ settingsChanged flags
               ∧ SETTINGS_TO_RENDER_MAP !! category = Some stages
               ∧ stage ∈ stages)
          ∨ (viewportChanged flags = true ∧ stage ∈ ["xAxis"; "yAxis"])
          ∨ (resizeOnly flags = true ∧ limitsNeedRecalc flags = false
             ∧ stage ∈ ["dots"; "lines"]).
Proof.
  intros Hnames. exists (computeChangeFlags prev cur prevS curS false).
  rewrite computeChangeFlagsOutcome_later, bool_decide_eq_true_2 by done.
  split; [reflexivity|]. intros stage. apply renderNeeded_returned.
Qed.

Lemma renderNeeded_spec_witness :
  ∃ flags,
    computeChangeFlagsOutcome (Some (exampleState 400)) (exampleState 500)
      (Some exampleSettings) exampleSettings false = Some flags
    ∧ ∀ stage,
        stage ∈ renderNeeded flags
        ↔ (dataChanged flags = true
           ∧ stage ∈ ["dots"; "lines"; "icons"; "xAxis"; "yAxis";
                      "valueLabels"; "lineLabels"])
          ∨ (∃ category stages,
               category ∈ settingsChanged flags
               ∧ SETTINGS_TO_RENDER_MAP !! category = Some stages
               ∧ stage ∈ stages)
          ∨ (viewportChanged flags = true ∧ stage ∈ ["xAxis"; "yAxis"])
          ∨ (resizeOnly flags = true ∧ limitsNeedRecalc flags = false
             ∧ stage ∈ ["dots"; "lines"]).
Proof.
  apply (renderNeeded_spec (Some (exampleState 400)) (exampleState 500)
           (Some exampleSettings) exampleSettings).
  intros category Hc.
  rewrite detectSettingsChanges_same in Hc by reflexivity.
  by apply elem_of_empty in Hc.
Defined.

(** X3: With a previous state, a category counts as changed exactly when the
    current state holds it with a hash the previous state does not hold for
    it; a category that only the previous state holds is never reported.
    Without a previous state every current category is reported. *)
Theorem detectSettingsChanges_spec (prev current : SettingsState)
    (category : string) :
  (category ∈ detectSettingsChanges (Some prev) current
   ↔ ∃ hash, categoryHashes current !! category = Some hash
             ∧ categoryHashes prev !! category ≠ Some hash)
  ∧ (categoryHashes current !! category = None →
     category ∉ detectSettingsChanges (Some prev) current)
  ∧ (category ∈ detectSettingsChanges None current
     ↔ is_Some (categoryHashes current !! category)).
Proof.
  assert (H1 : category ∈ detectSettingsChanges (Some prev) current
   ↔ ∃ hash, categoryHashes current !! category = Some hash
             ∧ categoryHashes prev !! category ≠ Some hash).
  { unfold detectSettingsChanges. rewrite elem_of_dom. split.
    - intros [h Hh]. apply map_lookup_filter_Some in Hh as [Hh Hne].
      exists h. split; [exact Hh | exact Hne].
    - intros (h & Hh & Hne). exists h. apply map_lookup_filter_Some.
      split; [exact Hh | exact Hne]. }
  split_and!; [exact H1 | |].
  - intros Hnone. rewrite H1. intros (h & Hh & _). congruence.
  - unfold detectSettingsChanges. apply elem_of_dom.
Qed.

(** X4: A later cycle whose data state and settings hashes are those of the
    previous cycle asks for nothing: no flag is raised and no stage is
    requested. *)
Theorem unchanged_cycle_needs_nothing (state : DataState)
    (prevSettings currentSettings : SettingsState) :
  categoryHashes prevSettings = categoryHashes currentSettings →
  let flags := computeChangeFlags (Some state) state
                 (Some prevSettings) currentSettings false in
  dataChanged flags = false ∧ viewportChanged flags = false
  ∧ resizeOnly flags = false ∧ limitsNeedRecalc flags = false
  ∧ outliersNeedRecalc flags = false
  ∧ settingsChanged flags = ∅ ∧ renderNeeded flags = ∅.
Proof.
  intros Hsame flags.
  destruct (computeChangeFlags_later (Some state) state
              (Some prevSettings) currentSettings)
    as (Hro & Hdc & Hsc & Hlim & Hrender).
  destruct (computeChangeFlags_later_more (Some state) state
              (Some prevSettings) currentSettings) as (Hout & Hvp).
  fold flags in Hro, Hdc, Hsc, Hlim, Hrender, Hout, Hvp.
  assert (Hd : detectDataChanges (Some state) state
               = {| dc_dataChanged := false; dc_resizeOnly := false;
                    dc_viewportChanged := false |}).
  { unfold detectDataChanges. by rewrite !bool_decide_eq_true_2. }
  rewrite Hd in *. cbn [dc_dataChanged dc_resizeOnly dc_viewportChanged] in *.
  rewrite (detectSettingsChanges_same _ _ Hsame) in *.
  rewrite set_fold_empty in *. cbn [p_limits p_outliers p_render andb] in *.
  by split_and!.
Qed.

Lemma unchanged_cycle_needs_nothing_witness :
  renderNeeded (computeChangeFlags (Some (exampleState 400)) (exampleState 400)
                  (Some exampleSettings) exampleSettings false) = ∅.
Proof.
  apply (unchanged_cycle_needs_nothing (exampleState 400)
           exampleSettings exampleSettings).
  reflexivity.
Defined.

End ChangeFlagFacts.

(** * Further properties of the array hash *)

Section HashFacts.
Import JS ChangeDetection Notions.

Lemma digit_char_hex (d : Z) : 0 ≤ d < 16 → hexDigit (digit_char 16 d).
Proof.
  intros Hd. unfold hexDigit, digit_char. cbv zeta.
  destruct (d <? 10) eqn:E.
  - apply Z.ltb_lt in E. left.
    rewrite Ascii.nat_ascii_embedding by lia. lia.
  - apply Z.ltb_ge in E. right.
    rewrite Ascii.nat_ascii_embedding by lia. lia.
Qed.

Lemma digits_go_hex (fuel : nat) (n : Z) (acc : string) :
  Forall hexDigit (chars acc) →
  Forall hexDigit (chars (digits_go fuel 16 n acc)).
Proof.
  revert n acc. induction fuel as [|fuel IH]; intros n acc Hacc; simpl.
  - exact Hacc.
  - destruct (n <=? 0); [exact Hacc|]. apply IH. simpl.
    constructor; [|exact Hacc]. apply digit_char_hex.
    apply Z.mod_pos_bound. lia.
Qed.

Lemma digits_hex (n : Z) : Forall hexDigit (chars (digits 16 n)).
Proof.
  unfold digits. destruct (n <=? 0).
  - simpl. constructor; [left; vm_compute; lia | constructor].
  - apply digits_go_hex. constructor.
Qed.

(** X5: The hash of an array with an element is written in hexadecimal digits
    only, so it is never one of the sentinels "empty" and "null" that stand
    for a missing or empty array. *)
Theorem hashArray_not_sentinel (toString_large : Qc → string)
    (v : value) (l : list value) :
  Forall hexDigit (chars (hashArray toString_large (Present (v :: l))))
  ∧ hashArray toString_large (Present (v :: l)) ≠ "empty"
  ∧ hashArray toString_large (Present (v :: l)) ≠ "null".
Proof.
  assert (Hhex : Forall hexDigit
                   (chars (hashArray toString_large (Present (v :: l))))).
  { unfold hashArray. apply digits_hex. }
  split_and!; [exact Hhex | |].
  - intros Heq. rewrite Heq in Hhex. simpl in Hhex.
    apply Forall_cons in Hhex as [_ Hhex]. apply Forall_cons in Hhex as [Hm _].
    unfold hexDigit in Hm. vm_compute in Hm. lia.
  - intros Heq. rewrite Heq in Hhex. simpl in Hhex.
    apply Forall_cons in Hhex as [Hn _].
    unfold hexDigit in Hn. vm_compute in Hn. lia.
Qed.

Lemma charCodes_app (s1 s2 : string) :
  charCodes (s1 +:+ s2) = charCodes s1 ++ charCodes s2.
Proof. induction s1 as [|c s1 IH]; simpl; [done|]. by rewrite IH. Qed.

Lemma hashString_app (h : Z) (s1 s2 : string) :
  hashString h (s1 +:+ s2) = hashString (hashString h s1) s2.
Proof. unfold hashString. by rewrite charCodes_app, foldl_app. Qed.

Lemma hash_fold_text (toString_large : Qc → string) (h : Z) (l : list value) :
  foldl (λ h v, hashString h (strValue toString_large v)) h l
  = hashString h (elementText toString_large l).
Proof.
  unfold elementText. revert h. induction l as [|v l IH]; intros h; simpl.
  - reflexivity.
  - by rewrite IH, hashString_app.
Qed.

(** X6: The hash reads the element strings with nothing between them: two
    arrays with an element each whose strings concatenate to the same text
    have the same hash, however the text is split into elements. *)
Theorem hashArray_text (toString_large : Qc → string) (l1 l2 : list value) :
  l1 ≠ [] → l2 ≠ [] →
  elementText toString_large l1 = elementText toString_large l2 →
  hashArray toString_large (Present l1) = hashArray toString_large (Present l2).
Proof.
  intros H1 H2 Htext. unfold hashArray.
  destruct l1 as [|v1 l1]; [done|]. destruct l2 as [|v2 l2]; [done|].
  by rewrite !hash_fold_text, Htext.
Qed.

Lemma hashArray_text_witness :
  hashArray (λ _, "1e+21") (Present [VStr "ab"; VStr "c"])
  = hashArray (λ _, "1e+21") (Present [VStr "a"; VStr "bc"]).
Proof.
  apply (hashArray_text (λ _, "1e+21") [VStr "ab"; VStr "c"]
           [VStr "a"; VStr "bc"]); [discriminate | discriminate | reflexivity].
Defined.

End HashFacts.

(** * Properties of the outlier rules *)

Section RuleExamples.
Import JS Outliers OutlierRules.

Example shift_run_of_three :
  shift (of_Z <$> [5; 6; 7; 8; 1]) (of_Z <$> [4; 4; 4; 4; 4]) 3
  = [upper; upper; upper; upper; none].
Proof. vm_compute. reflexivity. Qed.

Example trend_peak :
  trend (of_Z <$> [1; 2; 3; 2; 1]) 3 = [upper; upper; lower; lower; lower].
Proof. vm_compute. reflexivity. Qed.

End RuleExamples.

Section RuleLengths.
Import JS Outliers OutlierRules.

Lemma store_fold_length (f : Flag) (js : list Z) (det : list Flag) :
  length (foldl (λ det (j : Z), if 0 <=? j then <[Z.to_nat j := f]> det else det)
            det js) = length det.
Proof.
  revert det. induction js as [|j js IH]; intros det; simpl; [done|].
  rewrite IH. destruct (0 <=? j); [apply length_insert | done].
Qed.

Lemma backfill_length (n : nat) (det : list Flag) (i : nat) :
  length (backfill n det i) = length det.
Proof.
  unfold backfill. destruct (det !! i) as [f|]; [|done].
  case_bool_decide; [apply store_fold_length | done].
Qed.

Lemma backfill_fold_length (n : nat) (idxs : list nat) (det : list Flag) :
  length (foldl (backfill n) det idxs) = length det.
Proof.
  revert det. induction idxs as [|i idxs IH]; intros det; simpl; [done|].
  by rewrite IH, backfill_length.
Qed.

Lemma backfillStep_length (det : list Flag) (i : nat) :
  length (backfillStep det i) = length det.
Proof.
  unfold backfillStep. destruct (det !! i) as [f|]; [|done].
  case_bool_decide; [apply store_fold_length | done].
Qed.

Lemma backfillStep_fold_length (idxs : list nat) (det : list Flag) :
  length (foldl backfillStep det idxs) = length det.
Proof.
  revert det. induction idxs as [|i idxs IH]; intros det; simpl; [done|].
  by rewrite IH, backfillStep_length.
Qed.

Lemma runStep_fold_length (w : Z) (arr : list (option Z)) (idxs : list nat)
    (st : option Z * list (option Z)) :
  length (foldl (runStep w arr) st idxs).2 = (length st.2 + length idxs)%nat.
Proof.
  revert st. induction idxs as [|i idxs IH]; intros st; simpl; [lia|].
  rewrite IH. unfold runStep. cbn [snd]. rewrite length_app. simpl. lia.
Qed.

Lemma runningSums_length (w : Z) (arr : list (option Z)) :
  length (runningSums w arr) = length arr.
Proof.
  unfold runningSums. rewrite runStep_fold_length, length_seq. simpl. lia.
Qed.

Lemma windowStep_fold_length (lf uf : list Z) (idxs : list nat) (w : Window) :
  length (lower_sum (foldl (windowStep lf uf) w idxs))
  = (length (lower_sum w) + length idxs)%nat
  ∧ length (upper_sum (foldl (windowStep lf uf) w idxs))
    = (length (upper_sum w) + length idxs)%nat.
Proof.
  revert w. induction idxs as [|i idxs IH]; intros w; simpl; [lia|].
  destruct (IH (windowStep lf uf w i)) as [-> ->].
  unfold windowStep. cbn [lower_sum upper_sum]. rewrite !length_app. simpl. lia.
Qed.

(** X7: Every rule of the worker script returns one flag for each value, for
    any limits, targets, window length and backfill setting. *)
Theorem rules_keep_length (val : list number) (nullable : list (option number))
    (ll ul : limits) (targets : list number) (n : nat) (highlightSeries : bool) :
  length (astronomical nullable ll ul) = length nullable
  ∧ length (shift val targets n) = length val
  ∧ length (trend val n) = length val
  ∧ length (twoInThree val ll ul highlightSeries) = length val.
Proof.
  split_and!.
  - unfold astronomical. apply length_imap.
  - unfold shift. cbv zeta. destruct (length val =? 0)%nat eqn:E.
    + apply Nat.eqb_eq in E. by rewrite E.
    + rewrite backfill_fold_length, length_fmap, runningSums_length.
      unfold lagged_sign. apply length_imap.
  - unfold trend. cbv zeta. destruct (length val =? 0)%nat eqn:E.
    + apply Nat.eqb_eq in E. by rewrite E.
    + rewrite backfill_fold_length, length_fmap, runningSums_length,
        length_fmap. unfold direction. apply length_imap.
  - unfold twoInThree. cbv zeta. destruct (length val =? 0)%nat eqn:E.
    + apply Nat.eqb_eq in E. by rewrite E.
    + assert (Hz : length (zip_with detect
                 (lower_sum (foldl (windowStep (imap (lower_flag_at ll) val)
                                      (imap (upper_flag_at ul) val))
                    {| lowerWindowSum := 0; upperWindowSum := 0;
                       lower_sum := []; upper_sum := [] |} (seq 0 (length val))))
                 (upper_sum (foldl (windowStep (imap (lower_flag_at ll) val)
                                      (imap (upper_flag_at ul) val))
                    {| lowerWindowSum := 0; upperWindowSum := 0;
                       lower_sum := []; upper_sum := [] |} (seq 0 (length val)))))
               = length val).
      { rewrite length_zip_with.
        destruct (windowStep_fold_length (imap (lower_flag_at ll) val)
                    (imap (upper_flag_at ul) val) (seq 0 (length val))
                    {| lowerWindowSum := 0; upperWindowSum := 0;
                       lower_sum := []; upper_sum := [] |}) as [-> ->].
        rewrite length_seq. simpl. lia. }
      destruct highlightSeries; [|exact Hz].
      by rewrite backfillStep_fold_length.
Qed.

End RuleLengths.

Section WindowSums.
Import JS Outliers OutlierRules RuleNotions.

Lemma sumZ_from (a : Z) (l : list Z) : foldl Z.add a l = a + sumZ l.
Proof.
  unfold sumZ. revert a. induction l as [|x l IH]; intros a; simpl; [lia|].
  rewrite (IH (a + x)), (IH (0 + x)). lia.
Qed.

Lemma sumZ_cons (x : Z) (l : list Z) : sumZ (x :: l) = x + sumZ l.
Proof. unfold sumZ at 1. simpl. apply sumZ_from. Qed.

Lemma sumZ_snoc (l : list Z) (x : Z) : sumZ (l ++ [x]) = sumZ l + x.
Proof. unfold sumZ. by rewrite foldl_app. Qed.

Lemma slice_snoc {A} (a b : nat) (zs : list A) (z : A) :
  (a ≤ b)%nat → zs !! b = Some z → slice a (S b) zs = slice a b zs ++ [z].
Proof.
  intros Hab Hz. unfold slice.
  replace (S b - a)%nat with (S (b - a)) by lia.
  apply take_S_r. rewrite lookup_drop.
  by replace (a + (b - a))%nat with b by lia.
Qed.

Lemma slice_cons {A} (a b : nat) (zs : list A) (z : A) :
  (a < b)%nat → zs !! a = Some z → slice a b zs = z :: slice (S a) b zs.
Proof.
  intros Hab Hz. unfold slice.
  rewrite (drop_S zs z a Hz).
  replace (b - a)%nat with (S (b - S a)) by lia. reflexivity.
Qed.

Lemma windowTotal_0 (w : nat) (zs : list Z) (z : Z) :
  (1 ≤ w)%nat → zs !! 0%nat = Some z → windowTotal w zs 0 = z.
Proof.
  intros Hw Hz. unfold windowTotal.
  replace (0 + 1 - w)%nat with 0%nat by lia.
  change (0 + 1)%nat with 1%nat.
  rewrite (slice_snoc 0 0 zs z) by (lia || done).
  unfold slice. cbn [Nat.sub]. rewrite take_0. unfold sumZ. simpl. lia.
Qed.

Lemma windowTotal_S (w : nat) (zs : list Z) (i : nat) (z : Z) :
  (1 ≤ w)%nat → zs !! S i = Some z →
  windowTotal w zs (S i)
  = windowTotal w zs i + z
    - (if (w <=? S i)%nat then default 0 (zs !! (S i - w)%nat) else 0).
Proof.
  intros Hw Hz. unfold windowTotal.
  destruct (w <=? S i)%nat eqn:E.
  - apply Nat.leb_le in E.
    assert (Hlt : (S i - w < length zs)%nat).
    { apply lookup_lt_Some in Hz. lia. }
    destruct (lookup_lt_is_Some_2 zs _ Hlt) as [y Hy]. rewrite Hy.
    change (default 0 (Some y)) with y.
    replace (S i + 1 - w)%nat with (S (S i - w)) by lia.
    replace (i + 1 - w)%nat with (S i - w)%nat by lia.
    replace (i + 1)%nat with (S i) by lia.
    replace (S i + 1)%nat with (S (S i)) by lia.
    assert (H1 : slice (S i - w) (S (S i)) zs
                 = slice (S i - w) (S i) zs ++ [z])
      by (apply slice_snoc; [lia|done]).
    assert (H2 : slice (S i - w) (S (S i)) zs
                 = y :: slice (S (S i - w)) (S (S i)) zs)
      by (apply slice_cons; [lia|done]).
    pose proof (sumZ_snoc (slice (S i - w) (S i) zs) z) as H3.
    rewrite <- H1, H2, sumZ_cons in H3. lia.
  - apply Nat.leb_gt in E.
    replace (S i + 1 - w)%nat with 0%nat by lia.
    replace (i + 1 - w)%nat with 0%nat by lia.
    replace (S i + 1)%nat with (S (i + 1)) by lia.
    rewrite (slice_snoc 0 (i + 1) zs z);
      [|lia|by replace (i + 1)%nat with (S i) by lia].
    rewrite sumZ_snoc. lia.
Qed.

Lemma carried_step (w : nat) (zs : list Z) (m : nat) (z : Z) :
  (1 ≤ w)%nat → zs !! m = Some z →
  windowTotal w zs m
  = carried w zs m + z
    - (if (w <=? m)%nat then default 0 (zs !! (m - w)%nat) else 0).
Proof.
  intros Hw Hz. destruct m as [|m].
  - rewrite (windowTotal_0 w zs z Hw Hz). simpl.
    destruct (w <=? 0)%nat eqn:E; [apply Nat.leb_le in E; lia | lia].
  - by apply windowTotal_S.
Qed.

(** The running sum of [shift] and [trend] is the sum over the window. *)
Lemma runningSums_prefix (w : nat) (zs : list Z) (m : nat) :
  (1 ≤ w)%nat → (m ≤ length zs)%nat →
  foldl (runStep (Z.of_nat w) (Some <$> zs)) (Some 0, []) (seq 0 m)
  = (Some (carried w zs m), (λ i, Some (windowTotal w zs i)) <$> seq 0 m).
Proof.
  intros Hw. induction m as [|m IH]; intros Hm; [reflexivity|].
  rewrite seq_S, foldl_app, IH by lia. simpl.
  destruct (lookup_lt_is_Some_2 zs m ltac:(lia)) as [z Hz].
  unfold runStep. cbn [fst snd].
  assert (Hs : summand (Some <$> zs) (Z.of_nat m) = Some z).
  { unfold summand. destruct (Z.of_nat m <? 0) eqn:E; [lia|].
    rewrite Nat2Z.id, list_lookup_fmap, Hz. reflexivity. }
  rewrite Hs. cbn [addN].
  rewrite fmap_app. cbn [fmap list_fmap].
  rewrite (carried_step w zs m z Hw Hz).
  destruct (Z.of_nat w <=? Z.of_nat m) eqn:E.
  - apply Z.leb_le in E.
    assert (E' : (w <=? m)%nat = true) by (apply Nat.leb_le; lia).
    rewrite E'.
    assert (Hlt : (m - w < length zs)%nat) by lia.
    destruct (lookup_lt_is_Some_2 zs _ Hlt) as [y Hy].
    assert (Hs' : summand (Some <$> zs) (Z.of_nat m - Z.of_nat w) = Some y).
    { unfold summand. destruct (Z.of_nat m - Z.of_nat w <? 0) eqn:E2; [lia|].
      replace (Z.to_nat (Z.of_nat m - Z.of_nat w)) with (m - w)%nat by lia.
      rewrite list_lookup_fmap, Hy. reflexivity. }
    rewrite Hs', Hy. reflexivity.
  - apply Z.leb_gt in E.
    assert (E' : (w <=? m)%nat = false) by (apply Nat.leb_gt; lia).
    rewrite E'. repeat f_equal; lia.
Qed.

Lemma runningSums_spec (w : nat) (zs : list Z) :
  (1 ≤ w)%nat →
  runningSums (Z.of_nat w) (Some <$> zs)
  = (λ i, Some (windowTotal w zs i)) <$> seq 0 (length zs).
Proof.
  intros Hw. unfold runningSums. rewrite length_fmap.
  by rewrite runningSums_prefix.
Qed.

End WindowSums.

Section Triggers.
Import JS Outliers OutlierRules RuleNotions.

Lemma sumZ_extreme (l : list Z) :
  Forall unit l →
  (sumZ l ≤ Z.of_nat (length l)
   ∧ (sumZ l = Z.of_nat (length l) → Forall (λ z, z = 1) l))
  ∧ (- Z.of_nat (length l) ≤ sumZ l
     ∧ (sumZ l = - Z.of_nat (length l) → Forall (λ z, z = -1) l)).
Proof.
  induction 1 as [|z l Hz Hl IH].
  - repeat split; try constructor; unfold sumZ; simpl; lia.
  - destruct IH as [[Hle Hone] [Hge Hmone]]. unfold unit in Hz.
    rewrite sumZ_cons. cbn [length]. repeat split; try lia.
    + intros Heq. assert (z = 1) by lia.
      constructor; [done|]. apply Hone. lia.
    + intros Heq. assert (z = -1) by lia.
      constructor; [done|]. apply Hmone. lia.
Qed.

Lemma sumZ_const (c : Z) (l : list Z) :
  Forall (λ z, z = c) l → sumZ l = c * Z.of_nat (length l).
Proof.
  induction 1 as [|z l -> _ IH]; [unfold sumZ; simpl; lia|].
  rewrite sumZ_cons, IH. cbn [length]. lia.
Qed.

Lemma slice_length {A} (a b : nat) (zs : list A) :
  (b ≤ length zs)%nat → length (slice a b zs) = (b - a)%nat.
Proof. intros Hb. unfold slice. rewrite length_take, length_drop. lia. Qed.

Lemma slice_lookup {A} (a b : nat) (zs : list A) (j : nat) :
  (j < b - a)%nat → slice a b zs !! j = zs !! (a + j)%nat.
Proof.
  intros Hj. unfold slice. rewrite lookup_take_lt by lia. apply lookup_drop.
Qed.

Lemma slice_Forall {A} (P : A → Prop) (a b : nat) (zs : list A) :
  (b ≤ length zs)%nat →
  Forall P (slice a b zs)
  ↔ ∀ k z, (a ≤ k < b)%nat → zs !! k = Some z → P z.
Proof.
  intros Hb. rewrite Forall_lookup. split.
  - intros H k z Hk Hz. apply (H (k - a)%nat).
    rewrite slice_lookup by lia. by replace (a + (k - a))%nat with k by lia.
  - intros H j z Hj.
    assert (j < b - a)%nat.
    { apply lookup_lt_Some in Hj. rewrite slice_length in Hj; lia. }
    rewrite slice_lookup in Hj by lia. apply (H (a + j)%nat); [lia|done].
Qed.

Lemma slice_unit (a b : nat) (zs : list Z) :
  Forall unit zs → Forall unit (slice a b zs).
Proof. intros H. unfold slice. by apply Forall_take, Forall_drop. Qed.

(** The sum over a window reaches the window length exactly when the
    window lies inside the array and holds 1 throughout; likewise for -1. *)
Lemma window_full (w : nat) (zs : list Z) (i : nat) :
  (1 ≤ w)%nat → Forall unit zs → (i < length zs)%nat →
  (Z.of_nat w ≤ windowTotal w zs i
   ↔ (w ≤ i + 1)%nat ∧ ∀ k z, (i + 1 - w ≤ k ≤ i)%nat → zs !! k = Some z → z = 1)
  ∧ (windowTotal w zs i ≤ - Z.of_nat w
     ↔ (w ≤ i + 1)%nat
       ∧ ∀ k z, (i + 1 - w ≤ k ≤ i)%nat → zs !! k = Some z → z = -1).
Proof.
  intros Hw Hunit Hi. unfold windowTotal.
  pose proof (slice_unit (i + 1 - w) (i + 1) zs Hunit) as Hu.
  destruct (sumZ_extreme _ Hu) as [[Hle Hone] [Hge Hmone]].
  rewrite slice_length in Hle, Hone, Hge, Hmone by lia.
  split; split.
  - intros Hsum. assert (w ≤ i + 1)%nat by lia. split; [done|].
    intros k z Hk Hz.
    assert (Hall : Forall (λ z, z = 1) (slice (i + 1 - w) (i + 1) zs))
      by (apply Hone; lia).
    rewrite slice_Forall in Hall by lia. apply (Hall k z); [lia|done].
  - intros [Hwi Hall].
    assert (Hf : Forall (λ z, z = 1) (slice (i + 1 - w) (i + 1) zs)).
    { apply slice_Forall; [lia|]. intros k z Hk Hz. apply (Hall k z); [lia|done]. }
    rewrite (sumZ_const 1 _ Hf), slice_length by lia. lia.
  - intros Hsum. assert (w ≤ i + 1)%nat by lia. split; [done|].
    intros k z Hk Hz.
    assert (Hall : Forall (λ z, z = -1) (slice (i + 1 - w) (i + 1) zs))
      by (apply Hmone; lia).
    rewrite slice_Forall in Hall by lia. apply (Hall k z); [lia|done].
  - intros [Hwi Hall].
    assert (Hf : Forall (λ z, z = -1) (slice (i + 1 - w) (i + 1) zs)).
    { apply slice_Forall; [lia|]. intros k z Hk Hz. apply (Hall k z); [lia|done]. }
    rewrite (sumZ_const (-1) _ Hf), slice_length by lia. lia.
Qed.

Lemma detectRun_upper (w : nat) (s : Z) :
  (1 ≤ w)%nat → detectRun (Z.of_nat w) (Some s) = upper ↔ Z.of_nat w ≤ s.
Proof.
  intros Hw. unfold detectRun.
  destruct (Z.of_nat w <=? Z.abs s) eqn:E1; destruct (Z.of_nat w <=? s) eqn:E2;
    rewrite ?Z.leb_le, ?Z.leb_gt in *; split; intros; try done; lia.
Qed.

Lemma detectRun_lower (w : nat) (s : Z) :
  (1 ≤ w)%nat → detectRun (Z.of_nat w) (Some s) = lower ↔ s ≤ - Z.of_nat w.
Proof.
  intros Hw. unfold detectRun.
  destruct (Z.of_nat w <=? Z.abs s) eqn:E1; destruct (Z.of_nat w <=? s) eqn:E2;
    rewrite ?Z.leb_le, ?Z.leb_gt in *; split; intros; try done; lia.
Qed.

Lemma triggers_lookup (w : nat) (zs : list Z) (i : nat) :
  (i < length zs)%nat →
  triggers w zs !! i = Some (detectRun (Z.of_nat w) (Some (windowTotal w zs i))).
Proof.
  intros Hi. unfold triggers. rewrite list_lookup_fmap, lookup_seq_lt by lia.
  reflexivity.
Qed.

Lemma triggers_length (w : nat) (zs : list Z) :
  length (triggers w zs) = length zs.
Proof. unfold triggers. by rewrite length_fmap, length_seq. Qed.

(** A trigger at [i] says that the whole window ending at [i] holds the
    same non-zero sign. *)
Lemma trigger_window (w : nat) (zs : list Z) (i : nat) (f : Flag) :
  (1 ≤ w)%nat → Forall unit zs →
  triggers w zs !! i = Some f → f ≠ none →
  (w ≤ i + 1)%nat
  ∧ ∀ k z, (i + 1 - w ≤ k ≤ i)%nat → zs !! k = Some z →
           (f = upper ∧ z = 1) ∨ (f = lower ∧ z = -1).
Proof.
  intros Hw Hunit Hf Hne.
  assert (Hi : (i < length zs)%nat).
  { apply lookup_lt_Some in Hf. by rewrite triggers_length in Hf. }
  rewrite triggers_lookup in Hf by done. injection Hf as Hf.
  destruct (window_full w zs i Hw Hunit Hi) as [Hup Hlow].
  destruct f; [done| |].
  - apply detectRun_lower in Hf; [|done]. apply Hlow in Hf as [? Hall].
    split; [done|]. intros k z Hk Hz. right. split; [done|]. by eapply Hall.
  - apply detectRun_upper in Hf; [|done]. apply Hup in Hf as [? Hall].
    split; [done|]. intros k z Hk Hz. left. split; [done|]. by eapply Hall.
Qed.

Lemma trigger_upper (w : nat) (zs : list Z) (i : nat) :
  (1 ≤ w)%nat → Forall unit zs → (i < length zs)%nat → (w ≤ i + 1)%nat →
  (∀ k z, (i + 1 - w ≤ k ≤ i)%nat → zs !! k = Some z → z = 1) →
  triggers w zs !! i = Some upper.
Proof.
  intros Hw Hunit Hi Hwi Hall. rewrite triggers_lookup by done. f_equal.
  apply detectRun_upper; [done|].
  by apply (proj1 (window_full w zs i Hw Hunit Hi)).
Qed.

Lemma trigger_lower (w : nat) (zs : list Z) (i : nat) :
  (1 ≤ w)%nat → Forall unit zs → (i < length zs)%nat → (w ≤ i + 1)%nat →
  (∀ k z, (i + 1 - w ≤ k ≤ i)%nat → zs !! k = Some z → z = -1) →
  triggers w zs !! i = Some lower.
Proof.
  intros Hw Hunit Hi Hwi Hall. rewrite triggers_lookup by done. f_equal.
  apply detectRun_lower; [done|].
  by apply (proj2 (window_full w zs i Hw Hunit Hi)).
Qed.

End Triggers.

Section Backfill.
Import JS Outliers OutlierRules RuleNotions.

Lemma store_fold_lookup (f : Flag) (js : list Z) (det : list Flag) (k : nat) :
  foldl (λ det (j : Z), if 0 <=? j then <[Z.to_nat j := f]> det else det) det js
    !! k
  = if decide (Z.of_nat k ∈ js ∧ (k < length det)%nat) then Some f else det !! k.
Proof.
  revert det. induction js as [|j js IH]; intros det.
  - cbn [foldl]. case_decide as H; [|done]. destruct H as [H _].
    by apply elem_of_nil in H.
  - cbn [foldl]. rewrite IH.
    destruct (0 <=? j) eqn:Ej.
    + apply Z.leb_le in Ej. rewrite length_insert.
      destruct (decide (Z.to_nat j = k)) as [Hjk|Hjk].
      * subst k. rewrite Z2Nat.id by lia.
        destruct (decide (Z.to_nat j < length det)%nat) as [Hlt|Hge].
        -- rewrite list_lookup_insert_eq by done.
           repeat case_decide; try done; exfalso;
             rewrite elem_of_cons in *; tauto.
        -- rewrite list_insert_ge by lia.
           repeat case_decide; try done; exfalso; tauto.
      * rewrite list_lookup_insert_ne by done.
        assert (Z.of_nat k ≠ j) by lia.
        repeat case_decide; try done; exfalso;
          rewrite elem_of_cons in *; tauto.
    + apply Z.leb_gt in Ej.
      assert (Z.of_nat k ≠ j) by lia.
      repeat case_decide; try done; exfalso;
        rewrite elem_of_cons in *; tauto.
Qed.

Lemma backfill_targets (n i k : nat) :
  Z.of_nat k ∈ (λ q : nat, Z.of_nat i - 1 - Z.of_nat q) <$> seq 0 (n - 1)
  ↔ (k < i ∧ i ≤ k + (n - 1))%nat.
Proof.
  rewrite list_elem_of_fmap. split.
  - intros (q & Hq & Hin). apply elem_of_seq in Hin. lia.
  - intros [Hk Hi]. exists (i - 1 - k)%nat. split; [lia|].
    apply elem_of_seq. lia.
Qed.

(** What one backfill step leaves at position [k]. *)
Lemma backfill_lookup (n : nat) (det : list Flag) (i k : nat) (f : Flag) :
  det !! i = Some f →
  backfill n det i !! k
  = if decide (f ≠ none ∧ (k < i ∧ i ≤ k + (n - 1))%nat)
    then Some f else det !! k.
Proof.
  intros Hf. unfold backfill. rewrite Hf.
  assert (Hi : (i < length det)%nat) by (by apply lookup_lt_Some in Hf).
  case_bool_decide as Hne.
  - rewrite store_fold_lookup.
    repeat case_decide; try done; exfalso; rewrite backfill_targets in *;
      intuition lia.
  - case_decide as H; [tauto|done].
Qed.

(** The state of the backfill loop after the first [m] positions: later
    positions are untouched, every flag is the position's own trigger or
    that of a trigger at most [n - 1] positions later, and every position
    in the reach of a trigger is flagged. *)
Lemma backfill_prefix (n : nat) (D : list Flag) (m : nat) :
  (m ≤ length D)%nat →
  let R := foldl (backfill n) D (seq 0 m) in
  (∀ j, (m ≤ j)%nat → R !! j = D !! j)
  ∧ (∀ j f, R !! j = Some f →
       D !! j = Some f
       ∨ (f ≠ none ∧ ∃ i, (j < i < m ∧ i ≤ j + (n - 1))%nat ∧ D !! i = Some f))
  ∧ (∀ i f j, (i < m)%nat → D !! i = Some f → f ≠ none →
       (j ≤ i ∧ i ≤ j + (n - 1))%nat →
       ∃ f', R !! j = Some f' ∧ f' ≠ none).
Proof.
  induction m as [|m IH]; intros Hm R.
  - subst R. simpl. split_and!; [done| auto | intros; lia].
  - destruct IH as (IHb & IHc & IHd); [lia|].
    subst R. rewrite seq_S, foldl_app. cbn [foldl Nat.add].
    set (R := foldl (backfill n) D (seq 0 m)) in *.
    destruct (lookup_lt_is_Some_2 D m ltac:(lia)) as [f Hf].
    assert (HRm : R !! m = Some f) by (rewrite IHb by lia; done).
    split_and!.
    + intros j Hj. rewrite (backfill_lookup n R m j f HRm).
      case_decide as H; [lia|]. apply IHb. lia.
    + intros j f0. rewrite (backfill_lookup n R m j f HRm).
      case_decide as H.
      * intros [= <-]. right. split; [tauto|]. exists m. split; [lia|done].
      * intros Hj. destruct (IHc j f0 Hj) as [?|(Hne & i & Hi & HDi)];
          [by left|].
        right. split; [done|]. exists i. split; [lia|done].
    + intros i f0 j Hi HDi Hne Hj.
      rewrite (backfill_lookup n R m j f HRm).
      case_decide as H; [exists f; tauto|].
      destruct (decide (i = m)) as [->|Him].
      * assert (j = m) as ->.
        { destruct (decide (j = m)); [done|]. exfalso. apply H.
          rewrite Hf in HDi. injection HDi as ->. split; [done|lia]. }
        exists f. rewrite Hf in HDi. injection HDi as ->. done.
      * apply (IHd i f0 j); [lia|done..].
Qed.

Lemma backfill_all (n : nat) (D : list Flag) :
  let R := foldl (backfill n) D (seq 0 (length D)) in
  (∀ j f, R !! j = Some f →
     D !! j = Some f
     ∨ (f ≠ none ∧ ∃ i, (j < i ∧ i ≤ j + (n - 1))%nat ∧ D !! i = Some f))
  ∧ (∀ i f j, D !! i = Some f → f ≠ none → (j ≤ i ∧ i ≤ j + (n - 1))%nat →
       ∃ f', R !! j = Some f' ∧ f' ≠ none).
Proof.
  intros R. destruct (backfill_prefix n D (length D) ltac:(lia))
    as (_ & Hc & Hd). fold R in Hc, Hd. split.
  - intros j f Hj. destruct (Hc j f Hj) as [?|(Hne & i & Hi & HDi)]; [by left|].
    right. split; [done|]. exists i. split; [lia|done].
  - intros i f j HDi Hne Hj. apply (Hd i f j); [|done..].
    by apply lookup_lt_Some in HDi.
Qed.

(** Of the triggers that reach a position the last one decides: the flag
    [f] of a trigger at [i] is what position [j] holds in the end when every
    later trigger that reaches [j] is for [f] too. *)
Lemma backfill_prefix_last (n : nat) (D : list Flag) (m : nat) :
  (m ≤ length D)%nat →
  ∀ j i f, (i < m)%nat → D !! i = Some f → f ≠ none →
    (j ≤ i ∧ i ≤ j + (n - 1))%nat →
    (∀ i' f', (i < i' ∧ i' ≤ j + (n - 1) ∧ i' < m)%nat →
              D !! i' = Some f' → f' = none ∨ f' = f) →
    foldl (backfill n) D (seq 0 m) !! j = Some f.
Proof.
  induction m as [|m IH]; intros Hm j i f Hi HD Hne Hj Hlater; [lia|].
  rewrite seq_S, foldl_app. cbn [foldl Nat.add].
  destruct (backfill_prefix n D m ltac:(lia)) as (Hb & _ & _).
  set (R := foldl (backfill n) D (seq 0 m)) in *.
  destruct (lookup_lt_is_Some_2 D m ltac:(lia)) as [fm Hfm].
  assert (HRm : R !! m = Some fm) by (rewrite Hb by lia; done).
  rewrite (backfill_lookup n R m j fm HRm).
  destruct (decide (i = m)) as [->|Him].
  - assert (fm = f) as -> by congruence.
    case_decide as H; [done|].
    assert (j = m) as -> by (destruct (decide (j = m)); [done|]; exfalso;
                             apply H; split; [done|lia]).
    exact HRm.
  - case_decide as H.
    + destruct (Hlater m fm ltac:(lia) Hfm) as [->| ->]; [tauto|done].
    + apply (IH ltac:(lia) j i f ltac:(lia) HD Hne Hj).
      intros i' f' Hi'. apply Hlater. lia.
Qed.

Lemma backfill_last (n : nat) (D : list Flag) (j i : nat) (f : Flag) :
  D !! i = Some f → f ≠ none → (j ≤ i ∧ i ≤ j + (n - 1))%nat →
  (∀ i' f', (i < i' ∧ i' ≤ j + (n - 1))%nat →
            D !! i' = Some f' → f' = none ∨ f' = f) →
  foldl (backfill n) D (seq 0 (length D)) !! j = Some f.
Proof.
  intros HD Hne Hj Hlater.
  apply (backfill_prefix_last n D (length D) ltac:(lia) j i f); try done.
  - by apply lookup_lt_Some in HD.
  - intros i' f' Hi'. apply Hlater. lia.
Qed.

End Backfill.

Section Fill.
Import JS Outliers OutlierRules RuleNotions.

(** A flag left by the backfill comes from a full window that ends at most
    [n - 1] positions later. *)
Lemma fill_sound (w n : nat) (zs : list Z) (j : nat) (f : Flag) :
  (1 ≤ w)%nat → Forall unit zs →
  foldl (backfill n) (triggers w zs) (seq 0 (length zs)) !! j = Some f →
  f ≠ none →
  ∃ i, (j ≤ i ∧ i ≤ j + (n - 1) ∧ w ≤ i + 1 ∧ i < length zs)%nat
       ∧ ∀ k z, (i + 1 - w ≤ k ≤ i)%nat → zs !! k = Some z → z = flagSign f.
Proof.
  intros Hw Hu HR Hne.
  rewrite <- (triggers_length w zs) in HR.
  destruct (backfill_all n (triggers w zs)) as [Hs _].
  assert (∃ i, (j ≤ i ∧ i ≤ j + (n - 1))%nat ∧ triggers w zs !! i = Some f)
    as (i & Hi & HD).
  { destruct (Hs j f HR) as [HD|(_ & i & Hi & HD)].
    - exists j. split; [lia|done].
    - exists i. split; [lia|done]. }
  destruct (trigger_window w zs i f Hw Hu HD Hne) as [Hwi Hwin].
  exists i. split.
  - apply lookup_lt_Some in HD. rewrite triggers_length in HD. lia.
  - intros k z Hk Hz. destruct (Hwin k z Hk Hz) as [[-> ->]|[-> ->]]; done.
Qed.

(** Every position within [n - 1] before the end of a full window is
    flagged. *)
Lemma fill_complete (w n : nat) (zs : list Z) (i j : nat) (c : Z) :
  (1 ≤ w)%nat → Forall unit zs → (i < length zs)%nat → (w ≤ i + 1)%nat →
  c = 1 ∨ c = -1 →
  (∀ k z, (i + 1 - w ≤ k ≤ i)%nat → zs !! k = Some z → z = c) →
  (j ≤ i ∧ i ≤ j + (n - 1))%nat →
  ∃ f, foldl (backfill n) (triggers w zs) (seq 0 (length zs)) !! j = Some f
       ∧ f ≠ none.
Proof.
  intros Hw Hu Hi Hwi Hc Hwin Hj.
  rewrite <- (triggers_length w zs).
  destruct (backfill_all n (triggers w zs)) as [_ Hd].
  destruct Hc as [->| ->].
  - apply (Hd i upper j); [by apply trigger_upper|done|done].
  - apply (Hd i lower j); [by apply trigger_lower|done|done].
Qed.

End Fill.

Section ShiftFacts.
Import JS Outliers OutlierRules RuleNotions.

Lemma Qc_sgn_Gt (a b : Qc) : Qc_sgn (a + - b) = Gt ↔ Qccompare b a = Lt.
Proof.
  unfold Qc_sgn. rewrite Z2Qc_inj_0. rewrite <- Qcgt_alt, <- Qclt_alt.
  symmetry. apply Qclt_minus_iff.
Qed.

Lemma Qc_sgn_Lt (a b : Qc) : Qc_sgn (a + - b) = Lt ↔ Qccompare a b = Lt.
Proof.
  unfold Qc_sgn. rewrite Z2Qc_inj_0. rewrite <- !Qclt_alt.
  rewrite (Qclt_minus_iff a b), (Qclt_minus_iff (a + - b) 0).
  replace (0 + - (a + - b))%Qc with (b + - a)%Qc by ring. done.
Qed.

Lemma sign_sub_Fin (a b : Qc) :
  sign (sub (Fin a) (Fin b))
  = Some (match Qc_sgn (a + - b) with Lt => -1 | Eq => 0 | Gt => 1 end).
Proof. reflexivity. Qed.

(** [Math.sign(v - t)] is 1 exactly when [v > t]. *)
Lemma sign_sub_gt (v t : number) : sign (sub v t) = Some 1 ↔ gt v t = true.
Proof.
  destruct v as [a| | |], t as [b| | |];
    try (cbn; split; intros; (done || discriminate)).
  rewrite sign_sub_Fin.
  change (gt (Fin a) (Fin b))
    with (match Qccompare b a with Lt => true | _ => false end).
  pose proof (Qc_sgn_Gt a b) as H.
  destruct (Qc_sgn (a + - b)), (Qccompare b a); split; intros H';
    try done; try discriminate H'; exfalso;
    try (by apply proj1 in H; specialize (H eq_refl));
    try (by apply proj2 in H; specialize (H eq_refl)).
Qed.

(** [Math.sign(v - t)] is -1 exactly when [v < t]. *)
Lemma sign_sub_lt (v t : number) : sign (sub v t) = Some (-1) ↔ lt v t = true.
Proof.
  destruct v as [a| | |], t as [b| | |];
    try (cbn; split; intros; (done || discriminate)).
  rewrite sign_sub_Fin.
  change (lt (Fin a) (Fin b))
    with (match Qccompare a b with Lt => true | _ => false end).
  pose proof (Qc_sgn_Lt a b) as H.
  destruct (Qc_sgn (a + - b)), (Qccompare a b); split; intros H';
    try done; try discriminate H'; exfalso;
    try (by apply proj1 in H; specialize (H eq_refl));
    try (by apply proj2 in H; specialize (H eq_refl)).
Qed.

Lemma sign_NaN (x : number) : sign x = None ↔ isNaN x = true.
Proof. destruct x; cbn; split; intros; done || discriminate. Qed.

Lemma sign_unit (x : number) : unit (default 0 (sign x)).
Proof.
  unfold unit. destruct x as [q| | |]; cbn; try lia.
  destruct (Qc_sgn q); lia.
Qed.

Lemma lagged_sign_lookup (val targets : list number) (i : nat) :
  lagged_sign val targets !! i
  = (λ v, sign (sub v (default NaN (targets !! i)))) <$> val !! i.
Proof. unfold lagged_sign. apply list_lookup_imap. Qed.

Lemma signsZ_lookup (val targets : list number) (i : nat) :
  signsZ val targets !! i
  = (λ v, default 0 (sign (sub v (default NaN (targets !! i))))) <$> val !! i.
Proof.
  unfold signsZ. rewrite list_lookup_fmap, lagged_sign_lookup.
  by destruct (val !! i).
Qed.

Lemma signsZ_length (val targets : list number) :
  length (signsZ val targets) = length val.
Proof. unfold signsZ, lagged_sign. by rewrite length_fmap, length_imap. Qed.

Lemma signsZ_unit (val targets : list number) : Forall unit (signsZ val targets).
Proof.
  apply Forall_lookup. intros i z. rewrite signsZ_lookup.
  destruct (val !! i) as [v|]; [|done]. intros [= <-]. apply sign_unit.
Qed.

Lemma comparable_lookup (val targets : list number) (i : nat) (v : number) :
  comparable val targets → val !! i = Some v →
  ∃ t, targets !! i = Some t ∧ isNaN (sub v t) = false.
Proof.
  intros [Hlen Hall] Hv.
  destruct (lookup_lt_is_Some_2 targets i) as [t Ht].
  { apply lookup_lt_Some in Hv. lia. }
  exists t. split; [done|].
  rewrite Forall_lookup in Hall. apply (Hall i (v, t)).
  apply lookup_zip_with_Some. by exists v, t.
Qed.

Lemma all_Some_fmap (l : list (option Z)) :
  Forall (λ s, s ≠ None) l → l = Some <$> (default 0 <$> l).
Proof.
  induction 1 as [|s l Hs _ IH]; [done|].
  destruct s as [z|]; [|done]. cbn. by rewrite <- IH.
Qed.

Lemma lagged_sign_signs (val targets : list number) :
  comparable val targets →
  lagged_sign val targets = Some <$> signsZ val targets.
Proof.
  intros Hc. unfold signsZ. apply all_Some_fmap.
  apply Forall_lookup. intros i s. rewrite lagged_sign_lookup.
  destruct (val !! i) as [v|] eqn:Hv; [|done]. intros [= <-].
  destruct (comparable_lookup val targets i v Hc Hv) as (t & Ht & Hn).
  rewrite Ht. change (default NaN (Some t)) with t.
  intros Hs. apply sign_NaN in Hs. congruence.
Qed.

(** [shift] is the backfill of the full windows of signs. *)
Lemma shift_triggers (val targets : list number) (n : nat) :
  (1 ≤ n)%nat → comparable val targets →
  shift val targets n
  = foldl (backfill n) (triggers n (signsZ val targets))
      (seq 0 (length (signsZ val targets))).
Proof.
  intros Hn Hc. unfold shift. cbv zeta. rewrite signsZ_length.
  destruct (length val =? 0)%nat eqn:E.
  - apply Nat.eqb_eq in E. rewrite E.
    destruct val; [reflexivity|discriminate E].
  - rewrite (lagged_sign_signs val targets Hc), runningSums_spec by done.
    rewrite <- list_fmap_compose. unfold triggers. reflexivity.
Qed.

Lemma signsZ_entry (val targets : list number) (k : nat) (v t : number)
    (f : Flag) :
  f ≠ none → val !! k = Some v → targets !! k = Some t →
  signsZ val targets !! k = Some (flagSign f)
  ↔ (if bool_decide (f = upper) then gt v t else lt v t) = true.
Proof.
  intros Hne Hv Ht. rewrite signsZ_lookup, Hv, Ht. change (default NaN (Some t)) with t.
  cbn [fmap option_fmap option_map].
  destruct f; [done| |].
  - case_bool_decide; [done|]. rewrite <- sign_sub_lt. cbn [flagSign].
    destruct (sign (sub v t)) as [z|]; cbn; split; intros [= ?]; try done;
      by subst.
  - case_bool_decide; [|done]. rewrite <- sign_sub_gt. cbn [flagSign].
    destruct (sign (sub v t)) as [z|]; cbn; split; intros [= ?]; try done;
      by subst.
Qed.

(** The points [s .. s + n - 1] are all on the side of their targets that
    [f] names. *)
Lemma shift_run (val targets : list number) (n j : nat) (f : Flag) :
  (1 ≤ n)%nat → comparable val targets → f ≠ none →
  shift val targets n !! j = Some f
  ↔ ∃ s, (s ≤ j < s + n)%nat ∧ (s + n ≤ length val)%nat
         ∧ ∀ k v t, (s ≤ k < s + n)%nat → val !! k = Some v →
                    targets !! k = Some t →
                    (if bool_decide (f = upper) then gt v t else lt v t) = true.
Proof.
  intros Hn Hc Hne. rewrite (shift_triggers val targets n Hn Hc).
  pose proof (signsZ_unit val targets) as Hu.
  split.
  - intros HR.
    destruct (fill_sound n n _ j f Hn Hu HR Hne) as (i & Hi & Hwin).
    rewrite signsZ_length in Hi.
    exists (i + 1 - n)%nat. split_and!; [lia..|].
    intros k v t Hk Hv Ht.
    apply (signsZ_entry val targets k v t f Hne Hv Ht).
    destruct (signsZ val targets !! k) as [z|] eqn:Hz.
    + f_equal. apply (Hwin k z); [lia|done].
    + apply lookup_ge_None in Hz. rewrite signsZ_length in Hz.
      apply lookup_lt_Some in Hv. lia.
  - intros (s & Hj & Hlen & Hrun).
    assert (Hwin : ∀ k z, (s ≤ k < s + n)%nat →
              signsZ val targets !! k = Some z → z = flagSign f).
    { intros k z Hk Hz.
      destruct (lookup_lt_is_Some_2 val k ltac:(lia)) as [v Hv].
      destruct (comparable_lookup val targets k v Hc Hv) as (t & Ht & _).
      pose proof (proj2 (signsZ_entry val targets k v t f Hne Hv Ht)
                    (Hrun k v t Hk Hv Ht)) as Hz'.
      congruence. }
    destruct (fill_complete n n (signsZ val targets) (s + n - 1) j (flagSign f))
      as (f' & HR & Hne'); try done.
    + rewrite signsZ_length. lia.
    + lia.
    + destruct f; [done|by right|by left].
    + intros k z Hk. apply Hwin. lia.
    + lia.
    + rewrite HR. f_equal.
      destruct (fill_sound n n _ j f' Hn Hu HR Hne') as (i & Hi & Hwin').
      rewrite signsZ_length in Hi.
      destruct (lookup_lt_is_Some_2 (signsZ val targets) j) as [z Hz].
      { rewrite signsZ_length. lia. }
      pose proof (Hwin j z ltac:(lia) Hz) as H1.
      pose proof (Hwin' j z ltac:(lia) Hz) as H2.
      destruct f, f'; cbn in H1, H2; try done; lia.
Qed.

End ShiftFacts.

Section ShiftRule.
Import JS Outliers OutlierRules RuleNotions.

Lemma shift_length (val targets : list number) (n : nat) :
  length (shift val targets n) = length val.
Proof.
  unfold shift. cbv zeta. destruct (length val =? 0)%nat eqn:E.
  - apply Nat.eqb_eq in E. by rewrite E.
  - rewrite backfill_fold_length, length_fmap, runningSums_length.
    unfold lagged_sign. apply length_imap.
Qed.

Lemma trend_length (val : list number) (n : nat) :
  length (trend val n) = length val.
Proof.
  unfold trend. cbv zeta. destruct (length val =? 0)%nat eqn:E.
  - apply Nat.eqb_eq in E. by rewrite E.
  - rewrite backfill_fold_length, length_fmap, runningSums_length,
      length_fmap. unfold direction. apply length_imap.
Qed.

(** X8: [shift] flags a point "upper" exactly when it lies in a run of [n]
    consecutive points that are all strictly above their targets, and
    "lower" exactly when it lies in such a run below the targets; a point of
    the series in neither kind of run is flagged "none". *)
Theorem shift_spec (val targets : list number) (n j : nat) :
  (1 ≤ n)%nat → comparable val targets →
  (shift val targets n !! j = Some upper
   ↔ ∃ s, (s ≤ j < s + n)%nat ∧ runAbove val targets s n)
  ∧ (shift val targets n !! j = Some lower
     ↔ ∃ s, (s ≤ j < s + n)%nat ∧ runBelow val targets s n)
  ∧ ((j < length val)%nat →
     shift val targets n !! j = Some none
     ↔ ¬ ∃ s, (s ≤ j < s + n)%nat
              ∧ (runAbove val targets s n ∨ runBelow val targets s n)).
Proof.
  intros Hn Hc.
  assert (Hup : shift val targets n !! j = Some upper
                ↔ ∃ s, (s ≤ j < s + n)%nat ∧ runAbove val targets s n).
  { rewrite (shift_run val targets n j upper Hn Hc) by done.
    unfold runAbove. split; intros (s & Hj & Hlen & Hrun); exists s;
      (split; [done|split; [done|]]); intros k v t Hk Hv Ht;
      apply (Hrun k v t Hk Hv Ht). }
  assert (Hlo : shift val targets n !! j = Some lower
                ↔ ∃ s, (s ≤ j < s + n)%nat ∧ runBelow val targets s n).
  { rewrite (shift_run val targets n j lower Hn Hc) by done.
    unfold runBelow. split; intros (s & Hj & Hlen & Hrun); exists s;
      (split; [done|split; [done|]]); intros k v t Hk Hv Ht;
      apply (Hrun k v t Hk Hv Ht). }
  split_and!; [done|done|].
  intros Hj.
  destruct (lookup_lt_is_Some_2 (shift val targets n) j) as [f Hf].
  { by rewrite shift_length. }
  rewrite Hf in Hup, Hlo |- *. split.
  - intros [= ->] (s & Hs & [Hr|Hr]).
    + assert (Some none = Some upper) by (apply Hup; eauto). done.
    + assert (Some none = Some lower) by (apply Hlo; eauto). done.
  - intros Hno. destruct f; [done| |]; exfalso; apply Hno.
    + destruct (proj1 Hlo eq_refl) as (s & Hs & Hr). eauto.
    + destruct (proj1 Hup eq_refl) as (s & Hs & Hr). eauto.
Qed.

Lemma shift_spec_witness :
  shift [of_Z 1; of_Z 2; of_Z 3] [of_Z 0; of_Z 0; of_Z 0] 2 !! 0%nat
    = Some upper
  ↔ ∃ s, (s ≤ 0 < s + 2)%nat
         ∧ runAbove [of_Z 1; of_Z 2; of_Z 3]
             [of_Z 0; of_Z 0; of_Z 0] s 2.
Proof.
  refine (proj1 (shift_spec [of_Z 1; of_Z 2; of_Z 3]
                   [of_Z 0; of_Z 0; of_Z 0] 2 0 _ _)).
  - lia.
  - split; [simpl; lia | repeat constructor].
Defined.

End ShiftRule.

Section ShiftNaN.
Import JS Outliers OutlierRules RuleNotions.

Lemma addN_None_r (a : option Z) : addN a None = None.
Proof. by destruct a. Qed.

(** Once a NaN has entered the window sum it stays: every later sum is
    NaN. *)
Lemma runningSums_poisoned (w : Z) (arr : list (option Z)) (k m : nat) :
  arr !! k = Some None → (k < m ≤ length arr)%nat →
  (foldl (runStep w arr) (Some 0, []) (seq 0 m)).1 = None
  ∧ ∀ i, (k ≤ i < m)%nat →
         (foldl (runStep w arr) (Some 0, []) (seq 0 m)).2 !! i = Some None.
Proof.
  intros Hk. induction m as [|m IH]; intros Hm; [lia|].
  rewrite seq_S, foldl_app. cbn [foldl Nat.add].
  set (st := foldl (runStep w arr) (Some 0, []) (seq 0 m)) in *.
  assert (Hlen : length st.2 = m).
  { unfold st. rewrite runStep_fold_length, length_seq. simpl. lia. }
  unfold runStep. cbn [fst snd].
  assert (Hs1 : addN st.1 (summand arr (Z.of_nat m)) = None).
  { destruct (decide (k = m)) as [->|Hne].
    - unfold summand. destruct (Z.of_nat m <? 0) eqn:E; [lia|].
      rewrite Nat2Z.id, Hk. apply addN_None_r.
    - destruct IH as [-> _]; [lia|done]. }
  rewrite Hs1.
  assert (Hs2 : (if w <=? Z.of_nat m
                 then subN None (summand arr (Z.of_nat m - w)) else None)
                = None) by (by destruct (w <=? Z.of_nat m)).
  rewrite Hs2. split; [done|].
  intros i Hi. destruct (decide (i = m)) as [->|Hne].
  - by apply list_lookup_middle.
  - rewrite lookup_app_l by lia. apply IH; lia.
Qed.

(** X9: a point whose difference from its target is NaN (a NaN or missing
    value or target, or two infinities of the same sign) silences [shift]
    from there on: that point and every later one is flagged "none",
    whatever the later values are. *)
Theorem shift_nan_silences (val targets : list number) (n k j : nat)
    (v : number) :
  val !! k = Some v →
  isNaN (sub v (default NaN (targets !! k))) = true →
  (k ≤ j < length val)%nat →
  shift val targets n !! j = Some none.
Proof.
  intros Hv Hnan Hj.
  assert (Hsign : lagged_sign val targets !! k = Some None).
  { rewrite lagged_sign_lookup, Hv. cbn. f_equal. by apply sign_NaN. }
  assert (Hlen : length (lagged_sign val targets) = length val).
  { unfold lagged_sign. apply length_imap. }
  unfold shift. cbv zeta.
  destruct (length val =? 0)%nat eqn:E; [apply Nat.eqb_eq in E; lia|].
  set (D := detectRun (Z.of_nat n)
              <$> runningSums (Z.of_nat n) (lagged_sign val targets)).
  assert (HDlen : length D = length val).
  { unfold D. by rewrite length_fmap, runningSums_length. }
  assert (HD : ∀ i, (k ≤ i < length val)%nat → D !! i = Some none).
  { intros i Hi. unfold D, runningSums. rewrite list_lookup_fmap.
    destruct (runningSums_poisoned (Z.of_nat n) (lagged_sign val targets) k
                (length (lagged_sign val targets)) Hsign ltac:(lia))
      as [_ Hall].
    rewrite Hall by lia. reflexivity. }
  rewrite <- HDlen.
  destruct (backfill_all n D) as [Hs _].
  destruct (lookup_lt_is_Some_2 (foldl (backfill n) D (seq 0 (length D))) j)
    as [f Hf].
  { rewrite backfill_fold_length. lia. }
  rewrite Hf. f_equal.
  destruct (Hs j f Hf) as [HDj|(Hne & i & Hi & HDi)].
  - rewrite HD in HDj by lia. congruence.
  - assert (i < length D)%nat by (by apply lookup_lt_Some in HDi).
    rewrite HD in HDi by lia. congruence.
Qed.

Lemma shift_nan_silences_witness :
  shift [of_Z 1; NaN; of_Z 3; of_Z 4] [of_Z 0; of_Z 0; of_Z 0; of_Z 0] 2
    !! 3%nat = Some none.
Proof.
  apply (shift_nan_silences [of_Z 1; NaN; of_Z 3; of_Z 4]
           [of_Z 0; of_Z 0; of_Z 0; of_Z 0] 2 1 3 NaN).
  - reflexivity.
  - reflexivity.
  - simpl. lia.
Defined.

End ShiftNaN.

Section TrendFacts.
Import JS Outliers OutlierRules RuleNotions.

Lemma lt_asym (a b : number) : lt a b = true → lt b a = false.
Proof.
  destruct a as [p| | |], b as [q| | |]; cbn; try done.
  destruct (Qccompare p q) eqn:E1; try done.
  destruct (Qccompare q p) eqn:E2; try done.
  apply Qclt_alt in E1, E2. intros _. exfalso.
  exact (Qclt_not_le _ _ E1 (Qclt_le_weak _ _ E2)).
Qed.

Lemma direction_lookup (val : list number) (k : nat) :
  direction val !! k
  = (λ v, match k with
          | O => 0
          | S k' =>
              match val !! k' with
              | Some p => if gt v p then 1 else if lt v p then -1 else 0
              | None => 0
              end
          end) <$> val !! k.
Proof. unfold direction. by rewrite list_lookup_imap. Qed.

Lemma direction_length (val : list number) :
  length (direction val) = length val.
Proof. unfold direction. apply length_imap. Qed.

Lemma direction_unit (val : list number) : Forall unit (direction val).
Proof.
  apply Forall_lookup. intros k z. rewrite direction_lookup.
  destruct (val !! k) as [v|]; [|done]. intros [= <-]. unfold unit.
  destruct k as [|k']; [lia|].
  destruct (val !! k') as [p|]; [|lia].
  destruct (gt v p); [lia|]. destruct (lt v p); lia.
Qed.

Lemma direction_0 (val : list number) (z : Z) :
  direction val !! 0%nat = Some z → z = 0.
Proof.
  rewrite direction_lookup. destruct (val !! 0%nat); [|done].
  by intros [= <-].
Qed.

Lemma direction_entry (val : list number) (k : nat) (p v : number) (f : Flag) :
  f ≠ none → val !! k = Some p → val !! S k = Some v →
  direction val !! S k = Some (flagSign f)
  ↔ (if bool_decide (f = upper) then gt v p else lt v p) = true.
Proof.
  intros Hne Hp Hv. rewrite direction_lookup, Hv, Hp.
  cbn [fmap option_fmap option_map].
  destruct f; [done| |].
  - case_bool_decide; [done|]. cbn [flagSign].
    destruct (gt v p) eqn:Eg.
    + unfold gt in Eg. apply lt_asym in Eg. rewrite Eg.
      split; intros H'; [by injection H'|done].
    + destruct (lt v p); split; intros H'; try done; try by injection H'.
  - case_bool_decide; [|done]. cbn [flagSign].
    destruct (gt v p); [done|].
    destruct (lt v p); split; intros H'; try done; try by injection H'.
Qed.

(** [trend] is the backfill of the full windows of directions. *)
Lemma trend_triggers (val : list number) (n : nat) :
  (2 ≤ n)%nat →
  trend val n
  = foldl (backfill n) (triggers (n - 1) (direction val))
      (seq 0 (length (direction val))).
Proof.
  intros Hn. unfold trend. cbv zeta. rewrite direction_length.
  destruct (length val =? 0)%nat eqn:E.
  - apply Nat.eqb_eq in E. rewrite E.
    destruct val; [reflexivity|discriminate E].
  - replace (Z.of_nat n - 1) with (Z.of_nat (n - 1)) by lia.
    rewrite runningSums_spec by lia.
    rewrite <- list_fmap_compose. unfold triggers. reflexivity.
Qed.

(** A flag of [trend] comes from [n] consecutive points that step in the
    direction the flag names. *)
Lemma trend_sound (val : list number) (n j : nat) (f : Flag) :
  (2 ≤ n)%nat → f ≠ none → trend val n !! j = Some f →
  ∃ s, (s ≤ j < s + n)%nat ∧ (s + n ≤ length val)%nat
       ∧ ∀ k p v, (s ≤ k)%nat → (S k < s + n)%nat →
                  val !! k = Some p → val !! S k = Some v →
                  (if bool_decide (f = upper) then gt v p else lt v p) = true.
Proof.
  intros Hn Hne. rewrite (trend_triggers val n Hn). intros HR.
  destruct (fill_sound (n - 1) n _ j f ltac:(lia) (direction_unit val) HR Hne)
    as (i & Hi & Hwin).
  rewrite direction_length in Hi.
  assert (Hfirst : (1 ≤ i + 1 - (n - 1))%nat).
  { destruct (decide (i + 1 - (n - 1) = 0)%nat) as [E0|]; [|lia].
    destruct (lookup_lt_is_Some_2 (direction val) 0) as [z Hz].
    { rewrite direction_length. lia. }
    pose proof (direction_0 val z Hz) as ->.
    pose proof (Hwin 0%nat 0 ltac:(lia) Hz) as H0.
    destruct f; cbn in H0; done || lia. }
  exists (i + 1 - n)%nat. split_and!; [lia..|].
  intros k p v Hk1 Hk2 Hp Hv.
  apply (direction_entry val k p v f Hne Hp Hv).
  destruct (direction val !! S k) as [z|] eqn:Hz.
  - f_equal. apply (Hwin (S k) z); [lia|done].
  - apply lookup_ge_None in Hz. rewrite direction_length in Hz.
    apply lookup_lt_Some in Hv. lia.
Qed.

(** Every point of [n] consecutive points that step in one direction is
    flagged. *)
Lemma trend_complete (val : list number) (n j s : nat) (f : Flag) :
  (2 ≤ n)%nat → f ≠ none → (s ≤ j < s + n)%nat → (s + n ≤ length val)%nat →
  (∀ k p v, (s ≤ k)%nat → (S k < s + n)%nat →
            val !! k = Some p → val !! S k = Some v →
            (if bool_decide (f = upper) then gt v p else lt v p) = true) →
  ∃ f', trend val n !! j = Some f' ∧ f' ≠ none.
Proof.
  intros Hn Hne Hj Hlen Hrun. rewrite (trend_triggers val n Hn).
  apply (fill_complete (n - 1) n (direction val) (s + n - 1) j (flagSign f));
    [lia|apply direction_unit| | | | |].
  - rewrite direction_length. lia.
  - lia.
  - destruct f; [done|by right|by left].
  - intros k z Hk Hz.
    destruct k as [|k]; [lia|].
    destruct (lookup_lt_is_Some_2 val k ltac:(lia)) as [p Hp].
    destruct (lookup_lt_is_Some_2 val (S k) ltac:(lia)) as [v Hv].
    pose proof (proj2 (direction_entry val k p v f Hne Hp Hv)
                  (Hrun k p v ltac:(lia) ltac:(lia) Hp Hv)) as Hz'.
    congruence.
  - lia.
Qed.

(** A trigger of [trend] at [i] closes [n] consecutive points that step in
    the direction the flag names. *)
Lemma trend_trigger_run (val : list number) (n i : nat) (f : Flag) :
  (2 ≤ n)%nat → f ≠ none →
  triggers (n - 1) (direction val) !! i = Some f →
  (n ≤ i + 1)%nat ∧ (i < length val)%nat
  ∧ ∀ k p v, (i + 1 - n ≤ k)%nat → (S k ≤ i)%nat →
             val !! k = Some p → val !! S k = Some v →
             (if bool_decide (f = upper) then gt v p else lt v p) = true.
Proof.
  intros Hn Hne HD.
  assert (Hi : (i < length val)%nat).
  { apply lookup_lt_Some in HD.
    by rewrite triggers_length, direction_length in HD. }
  destruct (trigger_window (n - 1) (direction val) i f ltac:(lia)
              (direction_unit val) HD Hne) as [Hwi Hwin].
  assert (Hfirst : (1 ≤ i + 1 - (n - 1))%nat).
  { destruct (decide (i + 1 - (n - 1) = 0)%nat) as [E0|]; [|lia].
    destruct (lookup_lt_is_Some_2 (direction val) 0) as [z Hz].
    { rewrite direction_length. lia. }
    pose proof (direction_0 val z Hz) as ->.
    destruct (Hwin 0%nat 0 ltac:(lia) Hz) as [[_ ?]|[_ ?]]; lia. }
  split_and!; [lia|done|].
  intros k p v Hk1 Hk2 Hp Hv.
  apply (direction_entry val k p v f Hne Hp Hv).
  destruct (lookup_lt_is_Some_2 (direction val) (S k)) as [z Hz].
  { rewrite direction_length. lia. }
  rewrite Hz. f_equal.
  destruct (Hwin (S k) z ltac:(lia) Hz) as [[-> ->]|[-> ->]]; done.
Qed.

(** Of the runs that hold a point, the one that starts last decides its
    flag. *)
Lemma trend_latest (val : list number) (n j s : nat) (f : Flag) :
  (2 ≤ n)%nat → f ≠ none → (s ≤ j < s + n)%nat → (s + n ≤ length val)%nat →
  (∀ k p v, (s ≤ k)%nat → (S k < s + n)%nat →
            val !! k = Some p → val !! S k = Some v →
            (if bool_decide (f = upper) then gt v p else lt v p) = true) →
  (∀ s' f', (s < s' ≤ j)%nat → (s' + n ≤ length val)%nat → f' ≠ none →
            (∀ k p v, (s' ≤ k)%nat → (S k < s' + n)%nat →
                      val !! k = Some p → val !! S k = Some v →
                      (if bool_decide (f' = upper) then gt v p else lt v p)
                      = true) →
            f' = f) →
  trend val n !! j = Some f.
Proof.
  intros Hn Hne Hj Hlen Hrun Hlater. rewrite (trend_triggers val n Hn).
  rewrite <- (triggers_length (n - 1) (direction val)).
  apply (backfill_last n _ j (s + n - 1)%nat f); [|done|lia|].
  - assert (Hwin : ∀ k z, (s + n - 1 + 1 - (n - 1) ≤ k ≤ s + n - 1)%nat →
                          direction val !! k = Some z → z = flagSign f).
    { intros k z Hk Hz. destruct k as [|k]; [lia|].
      destruct (lookup_lt_is_Some_2 val k ltac:(lia)) as [p Hp].
      destruct (lookup_lt_is_Some_2 val (S k) ltac:(lia)) as [v Hv].
      pose proof (proj2 (direction_entry val k p v f Hne Hp Hv)
                    (Hrun k p v ltac:(lia) ltac:(lia) Hp Hv)) as Hz'.
      congruence. }
    destruct f; [done| |].
    + apply trigger_lower; [lia|apply direction_unit| |lia|exact Hwin].
      rewrite direction_length. lia.
    + apply trigger_upper; [lia|apply direction_unit| |lia|exact Hwin].
      rewrite direction_length. lia.
  - intros i' f' Hi' HD'.
    destruct (decide (f' = none)) as [->|Hne']; [by left|right].
    destruct (trend_trigger_run val n i' f' Hn Hne' HD')
      as (Hn' & Hi'len & Hrun').
    apply (Hlater (i' + 1 - n)%nat f'); [lia|lia|done|].
    intros k p v Hk1 Hk2 Hp Hv. apply (Hrun' k p v); [lia|lia|done..].
Qed.

(** X10: [trend] flags exactly the points that lie in a run of [n]
    consecutive points rising strictly from each to the next, or falling so;
    an "upper" flag is always in a rising run and a "lower" flag in a falling
    one; and of the runs that hold a point the one that starts last decides:
    a point of a rising run is flagged "upper" unless a falling run that
    holds it starts later, and a point of a falling run "lower" unless a
    rising run that holds it starts later. *)
Theorem trend_spec (val : list number) (n j : nat) :
  (2 ≤ n)%nat →
  ((∃ f, trend val n !! j = Some f ∧ f ≠ none)
   ↔ ∃ s, (s ≤ j < s + n)%nat ∧ (rising val s n ∨ falling val s n))
  ∧ (trend val n !! j = Some upper →
     ∃ s, (s ≤ j < s + n)%nat ∧ rising val s n)
  ∧ (trend val n !! j = Some lower →
     ∃ s, (s ≤ j < s + n)%nat ∧ falling val s n)
  ∧ (∀ s, (s ≤ j < s + n)%nat → rising val s n →
          (∀ s', (s < s' ≤ j)%nat → ¬ falling val s' n) →
          trend val n !! j = Some upper)
  ∧ (∀ s, (s ≤ j < s + n)%nat → falling val s n →
          (∀ s', (s < s' ≤ j)%nat → ¬ rising val s' n) →
          trend val n !! j = Some lower).
Proof.
  intros Hn.
  assert (Hup : trend val n !! j = Some upper →
                ∃ s, (s ≤ j < s + n)%nat ∧ rising val s n).
  { intros HR.
    destruct (trend_sound val n j upper Hn ltac:(done) HR)
      as (s & Hj & Hlen & Hrun).
    exists s. split; [done|]. split; [done|].
    intros k p v Hk1 Hk2 Hp Hv. apply (Hrun k p v Hk1 Hk2 Hp Hv). }
  assert (Hlo : trend val n !! j = Some lower →
                ∃ s, (s ≤ j < s + n)%nat ∧ falling val s n).
  { intros HR.
    destruct (trend_sound val n j lower Hn ltac:(done) HR)
      as (s & Hj & Hlen & Hrun).
    exists s. split; [done|]. split; [done|].
    intros k p v Hk1 Hk2 Hp Hv. apply (Hrun k p v Hk1 Hk2 Hp Hv). }
  split_and!; [|done|done| |].
  - split.
    + intros (f & HR & Hne). destruct f; [done| |].
      * destruct (Hlo HR) as (s & Hs & Hr). eauto.
      * destruct (Hup HR) as (s & Hs & Hr). eauto.
    + intros (s & Hj & [[Hlen Hrun]|[Hlen Hrun]]).
      * apply (trend_complete val n j s upper Hn ltac:(done) Hj Hlen).
        intros k p v Hk1 Hk2 Hp Hv. apply (Hrun k p v Hk1 Hk2 Hp Hv).
      * apply (trend_complete val n j s lower Hn ltac:(done) Hj Hlen).
        intros k p v Hk1 Hk2 Hp Hv. apply (Hrun k p v Hk1 Hk2 Hp Hv).
  - intros s Hj [Hlen Hrun] Hlater.
    apply (trend_latest val n j s upper Hn ltac:(done) Hj Hlen).
    + intros k p v Hk1 Hk2 Hp Hv. apply (Hrun k p v Hk1 Hk2 Hp Hv).
    + intros s' f' Hs' Hlen' Hne' Hrun'. destruct f'; [done| |done].
      destruct (Hlater s' Hs'). split; [done|].
      intros k p v Hk1 Hk2 Hp Hv. apply (Hrun' k p v Hk1 Hk2 Hp Hv).
  - intros s Hj [Hlen Hrun] Hlater.
    apply (trend_latest val n j s lower Hn ltac:(done) Hj Hlen).
    + intros k p v Hk1 Hk2 Hp Hv. apply (Hrun k p v Hk1 Hk2 Hp Hv).
    + intros s' f' Hs' Hlen' Hne' Hrun'. destruct f'; [done|done|].
      destruct (Hlater s' Hs'). split; [done|].
      intros k p v Hk1 Hk2 Hp Hv. apply (Hrun' k p v Hk1 Hk2 Hp Hv).
Qed.

Lemma trend_spec_witness :
  trend [of_Z 1; of_Z 2; of_Z 3; of_Z 2; of_Z 1] 3 !! 2%nat = Some lower.
Proof.
  refine (proj2 (proj2 (proj2 (proj2
            (trend_spec [of_Z 1; of_Z 2; of_Z 3; of_Z 2; of_Z 1] 3 2 _))))
            2%nat _ _ _).
  - lia.
  - lia.
  - split; [cbn; lia|]. intros k p v Hk1 Hk2.
    assert (k = 2 ∨ k = 3)%nat as [-> | ->] by lia;
      cbn; intros [= <-] [= <-]; reflexivity.
  - intros s' Hs'. lia.
Defined.

End TrendFacts.

Section TwoInThreeFacts.
Import JS Outliers OutlierRules RuleNotions.

(** The running sums of [twoInThree] are the sums over the last three
    entries. *)
Lemma windowStep_prefix (lf uf : list Z) (m : nat) :
  (m ≤ length lf)%nat → (m ≤ length uf)%nat →
  foldl (windowStep lf uf) window0 (seq 0 m)
  = {| lowerWindowSum := carried 3 lf m; upperWindowSum := carried 3 uf m;
       lower_sum := windowTotal 3 lf <$> seq 0 m;
       upper_sum := windowTotal 3 uf <$> seq 0 m |}.
Proof.
  induction m as [|m IH]; intros Hl Hu; [reflexivity|].
  rewrite seq_S, foldl_app, IH by lia. cbn [foldl Nat.add].
  destruct (lookup_lt_is_Some_2 lf m ltac:(lia)) as [a Ha].
  destruct (lookup_lt_is_Some_2 uf m ltac:(lia)) as [b Hb].
  unfold windowStep.
  cbn [lowerWindowSum upperWindowSum lower_sum upper_sum].
  rewrite !fmap_app. cbn [fmap list_fmap].
  assert (Hla : (if (3 <=? m)%nat
                 then carried 3 lf m + default 0 (lf !! m)
                      - default 0 (lf !! (m - 3)%nat)
                 else carried 3 lf m + default 0 (lf !! m))
                = windowTotal 3 lf m).
  { rewrite (carried_step 3 lf m a ltac:(lia) Ha), Ha.
    change (default 0 (Some a)) with a. destruct (3 <=? m)%nat; lia. }
  assert (Hub : (if (3 <=? m)%nat
                 then carried 3 uf m + default 0 (uf !! m)
                      - default 0 (uf !! (m - 3)%nat)
                 else carried 3 uf m + default 0 (uf !! m))
                = windowTotal 3 uf m).
  { rewrite (carried_step 3 uf m b ltac:(lia) Hb), Hb.
    change (default 0 (Some b)) with b. destruct (3 <=? m)%nat; lia. }
  rewrite Hla, Hub. reflexivity.
Qed.

Lemma twoInThree_plain (val : list number) (ll ul : limits) :
  twoInThree val ll ul false
  = (λ i, detect (windowTotal 3 (imap (lower_flag_at ll) val) i)
            (windowTotal 3 (imap (upper_flag_at ul) val) i))
    <$> seq 0 (length val).
Proof.
  unfold twoInThree. cbv zeta.
  destruct (length val =? 0)%nat eqn:E.
  - apply Nat.eqb_eq in E. by rewrite E.
  - rewrite windowStep_prefix by (by rewrite length_imap).
    cbn [lower_sum upper_sum].
    generalize (seq 0 (length val)). intros l.
    induction l as [|i l IH]; [done|]. cbn. by rewrite IH.
Qed.

Lemma twoInThree_length (val : list number) (ll ul : limits) (h : bool) :
  length (twoInThree val ll ul h) = length val.
Proof.
  destruct h.
  - unfold twoInThree. cbv zeta.
    destruct (length val =? 0)%nat eqn:E.
    + apply Nat.eqb_eq in E. by rewrite E.
    + rewrite backfillStep_fold_length.
      rewrite windowStep_prefix by (by rewrite length_imap).
      cbn [lower_sum upper_sum].
      by rewrite length_zip_with, !length_fmap, length_seq, Nat.min_id.
  - by rewrite twoInThree_plain, length_fmap, length_seq.
Qed.

(** X11: without the backfill, [twoInThree] flags a point by the number of
    crossings among the point and the two before it: "lower" when at least
    two are below the lower limit, otherwise "upper" when at least two are
    above the upper limit, otherwise "none"; the running sums of the loop
    are these window counts. *)
Theorem twoInThree_window (val : list number) (ll ul : limits) (i : nat) :
  (i < length val)%nat →
  twoInThree val ll ul false !! i
  = Some (detect (sumZ (slice (i - 2) (i + 1) (imap (lower_flag_at ll) val)))
            (sumZ (slice (i - 2) (i + 1) (imap (upper_flag_at ul) val)))).
Proof.
  intros Hi. rewrite twoInThree_plain, list_lookup_fmap.
  rewrite lookup_seq_lt by done. cbn [fmap option_fmap option_map Nat.add].
  unfold windowTotal. by replace (i + 1 - 3)%nat with (i - 2)%nat by lia.
Qed.

Lemma twoInThree_window_witness :
  twoInThree [of_Z 10; of_Z 90; of_Z 95] None
    (Some [Some (of_Z 50); Some (of_Z 50); Some (of_Z 50)]) false !! 2%nat
  = Some (detect
            (sumZ (slice (2 - 2) (2 + 1)
                     (imap (lower_flag_at None) [of_Z 10; of_Z 90; of_Z 95])))
            (sumZ (slice (2 - 2) (2 + 1)
                     (imap (upper_flag_at
                              (Some [Some (of_Z 50); Some (of_Z 50);
                                     Some (of_Z 50)]))
                        [of_Z 10; of_Z 90; of_Z 95])))).
Proof.
  apply (twoInThree_window [of_Z 10; of_Z 90; of_Z 95] None
           (Some [Some (of_Z 50); Some (of_Z 50); Some (of_Z 50)]) 2).
  simpl. lia.
Defined.

Lemma backfillStep_backfill (det : list Flag) (i : nat) :
  backfillStep det i = backfill 3 det i.
Proof.
  unfold backfillStep, backfill. destruct (det !! i) as [f|]; [|done].
  case_bool_decide; [|done].
  change (3 - 1)%nat with 2%nat. cbn [seq fmap list_fmap].
  f_equal. repeat (f_equal; try lia).
Qed.

Lemma backfillStep_fold (idxs : list nat) (det : list Flag) :
  foldl backfillStep det idxs = foldl (backfill 3) det idxs.
Proof.
  revert det. induction idxs as [|i idxs IH]; intros det; [done|].
  cbn [foldl]. by rewrite IH, backfillStep_backfill.
Qed.

Lemma twoInThree_highlighted (val : list number) (ll ul : limits) :
  twoInThree val ll ul true
  = foldl (backfill 3) (twoInThree val ll ul false)
      (seq 0 (length (twoInThree val ll ul false))).
Proof.
  rewrite (twoInThree_length val ll ul false).
  unfold twoInThree. cbv zeta.
  destruct (length val =? 0)%nat eqn:E.
  - apply Nat.eqb_eq in E. by rewrite E.
  - apply backfillStep_fold.
Qed.

(** X12: with [highlightSeries], [twoInThree] flags exactly the points that
    are flagged without it or lie at most two positions before such a
    point, and each flag is the flag of one of these points. *)
Theorem twoInThree_highlight (val : list number) (ll ul : limits) (j : nat) :
  (∀ f, twoInThree val ll ul true !! j = Some f → f ≠ none →
        ∃ i, (j ≤ i ≤ j + 2)%nat ∧ twoInThree val ll ul false !! i = Some f)
  ∧ (∀ i f, twoInThree val ll ul false !! i = Some f → f ≠ none →
            (j ≤ i ≤ j + 2)%nat →
            ∃ f', twoInThree val ll ul true !! j = Some f' ∧ f' ≠ none).
Proof.
  rewrite twoInThree_highlighted.
  destruct (backfill_all 3 (twoInThree val ll ul false)) as [Hs Hc].
  split.
  - intros f HR Hne. destruct (Hs j f HR) as [HD|(_ & i & Hi & HD)].
    + exists j. split; [lia|done].
    + exists i. split; [lia|done].
  - intros i f HD Hne Hi. apply (Hc i f j HD Hne). lia.
Qed.

End TwoInThreeFacts.

Section LegacyAgreement.
Import JS Outliers OutlierRules RuleNotions.

















End LegacyAgreement.

Section NestedLimits.
Import JS Limits LimitNotions Examples.

Lemma Fin_notAbove (a b : Qc) : (a ≤ b)%Qc → notAbove (Fin a) (Fin b).
Proof.
  intros Hab. unfold notAbove, gt, lt.
  destruct (Qccompare b a) eqn:E; try done.
  apply Qclt_alt in E. by apply Qcle_not_lt in Hab.
Qed.

Lemma Qc_add_le (q x y : Qc) : (x ≤ y)%Qc → (q + x ≤ q + y)%Qc.
Proof. intros H. apply Qcplus_le_compat; [apply Qcle_refl|done]. Qed.

Lemma Qc_sub_le (q x y : Qc) : (x ≤ y)%Qc → (q + - y ≤ q + - x)%Qc.
Proof. intros H. by apply Qc_add_le, Qcopp_le_compat. Qed.

Lemma Qc_add_nonneg (q x : Qc) : (0 ≤ x)%Qc → (q ≤ q + x)%Qc.
Proof.
  intros H. replace q with (q + 0)%Qc at 1 by ring. by apply Qc_add_le.
Qed.

Lemma Qc_sub_nonneg (q x : Qc) : (0 ≤ x)%Qc → (q + - x ≤ q)%Qc.
Proof.
  intros H. replace q with (q + - 0)%Qc at 2 by ring. by apply Qc_sub_le.
Qed.

Lemma length_positive (n : nat) :
  (0 < n)%nat → (0 < Qc_of_Z (Z.of_nat n))%Qc.
Proof.
  intros Hn. rewrite <- Z2Qc_inj_0.
  apply (proj1 (Z2Qc_inj_lt 0 (Z.of_nat n))). lia.
Qed.

Lemma quotient_nonnegative (a b : Qc) :
  (0 ≤ a)%Qc → (0 < b)%Qc → (0 ≤ a / b)%Qc.
Proof.
  intros Ha Hb. apply (Qcmult_lt_0_le_reg_r _ _ b Hb).
  rewrite test_field.
  - by replace (0 * b)%Qc with 0%Qc by ring.
  - intros H0. rewrite H0 in Hb. by apply Qclt_not_eq in Hb.
Qed.

Lemma abs_dispersion (x : number) : dispersion (JS.abs x).
Proof.
  destruct x as [q| | |]; [|by right; left..|by left].
  right. right. unfold abs, Qc_sgn. rewrite Z2Qc_inj_0.
  destruct (Qccompare q 0) eqn:E.
  - exists q. split; [done|]. apply Qcnot_lt_le. intros Hlt.
    pose proof (proj1 (Qclt_alt _ _) Hlt) as Hc. congruence.
  - exists (- q)%Qc. split; [done|].
    pose proof (proj2 (Qclt_alt _ _) E) as Hlt.
    replace 0%Qc with (- 0)%Qc by ring.
    apply Qcopp_le_compat. by apply Qclt_le_weak.
  - exists q. split; [done|]. apply Qcnot_lt_le. intros Hlt.
    pose proof (proj1 (Qclt_alt _ _) Hlt) as Hc. congruence.
Qed.

Lemma add_dispersion (a b : number) :
  dispersion a → dispersion b → dispersion (add a b).
Proof.
  intros [->|[->|(p & -> & Hp)]] [->|[->|(q & -> & Hq)]]; cbn [add];
    try (by left); try (by right; left).
  right. right. exists (p + q)%Qc. split; [done|].
  replace 0%Qc with (0 + 0)%Qc by ring. by apply Qcplus_le_compat.
Qed.

Lemma sum_dispersion (a : number) (l : list number) :
  dispersion a → Forall dispersion l → dispersion (foldl add a l).
Proof.
  intros Ha Hl. revert a Ha. induction Hl as [|x l Hx _ IH]; intros a Ha;
    [done|].
  cbn [foldl]. apply IH. by apply add_dispersion.
Qed.

Lemma div_dispersion (a : number) (b : Qc) :
  dispersion a → (0 < b)%Qc → dispersion (div a (Fin b)).
Proof.
  intros [->|[->|(p & -> & Hp)]] Hb; cbn [div]; rewrite ?(Qc_sgn_pos _ Hb).
  - by left.
  - by right; left.
  - right. right. eexists. split; [reflexivity|].
    by apply quotient_nonnegative.
Qed.

Lemma zero_dispersion : dispersion (of_Z 0).
Proof. right. right. exists 0%Qc. split; [apply of_Z_0|apply Qcle_refl]. Qed.

Lemma mean_dispersion (l : list number) :
  Forall dispersion l → dispersion (Worker.mean l).
Proof.
  intros H. unfold Worker.mean.
  destruct (length l =? 0)%nat eqn:E; [apply zero_dispersion|].
  apply Nat.eqb_neq in E. unfold of_Z at 2.
  apply div_dispersion; [|apply length_positive; lia].
  apply sum_dispersion; [apply zero_dispersion|done].
Qed.

(** The worker's sigma is never negative, whatever the values are. *)
Lemma worker_sigma_dispersion (l : list number) (outliers_in_limits : bool) :
  dispersion (Worker.sigma l outliers_in_limits).
Proof.
  unfold Worker.sigma. cbv zeta.
  assert (Hd : Forall dispersion (Worker.abs (Worker.diff l))).
  { unfold Worker.abs. apply Forall_fmap, Forall_forall.
    intros x _. apply abs_dispersion. }
  set (valid := if outliers_in_limits then Worker.abs (Worker.diff l)
                else filter _ (Worker.abs (Worker.diff l))).
  assert (Hv : Forall dispersion valid).
  { unfold valid. destruct outliers_in_limits; [done|].
    apply Forall_forall. intros x Hx.
    apply list_elem_of_filter in Hx as [_ Hx].
    rewrite Forall_forall in Hd. by apply Hd. }
  destruct c1_128_positive as (k & -> & Hk).
  apply div_dispersion; [by apply mean_dispersion|done].
Qed.

Lemma mul_Inf (k : Z) : 0 < k → mul (of_Z k) PosInf = PosInf.
Proof.
  intros Hk. unfold of_Z, mul. rewrite Qc_sgn_pos; [done|].
  rewrite <- Z2Qc_inj_0. by apply (proj1 (Z2Qc_inj_lt 0 k)).
Qed.

Lemma scale_le (k1 k2 : Z) (s : Qc) :
  k1 ≤ k2 → (0 ≤ s)%Qc → (Qc_of_Z k1 * s ≤ Qc_of_Z k2 * s)%Qc.
Proof.
  intros Hk Hs. apply Qcmult_le_compat_r; [|done].
  by apply (proj1 (Z2Qc_inj_le k1 k2)).
Qed.

Lemma scale_nonneg (k : Z) (s : Qc) :
  0 ≤ k → (0 ≤ s)%Qc → (0 ≤ Qc_of_Z k * s)%Qc.
Proof.
  intros Hk Hs. pose proof (scale_le 0 k s Hk Hs) as H.
  rewrite Z2Qc_inj_0 in H. by replace (0 * s)%Qc with 0%Qc in H by ring.
Qed.

(** Limits further out are not inside limits further in, and no lower
    limit is above the centre line, no upper limit below it. *)
Lemma limits_nested (c sigma : number) (k1 k2 : Z) :
  0 < k1 → k1 ≤ k2 → dispersion sigma →
  notAbove (sub c (mul (of_Z k2) sigma)) (sub c (mul (of_Z k1) sigma))
  ∧ notAbove (add c (mul (of_Z k1) sigma)) (add c (mul (of_Z k2) sigma))
  ∧ notAbove (sub c (mul (of_Z k1) sigma)) c
  ∧ notAbove c (add c (mul (of_Z k1) sigma)).
Proof.
  intros Hk1 Hk2 [->|[->|(s & -> & Hs)]].
  - unfold of_Z. by destruct c.
  - rewrite !mul_Inf by lia. by destruct c.
  - unfold of_Z. cbn [mul]. destruct c as [q| | |]; [|done..].
    cbn [sub neg add]. split_and!; apply Fin_notAbove.
    + by apply Qc_sub_le, scale_le.
    + by apply Qc_add_le, scale_le.
    + apply Qc_sub_nonneg, scale_nonneg; [lia|done].
    + apply Qc_add_nonneg, scale_nonneg; [lia|done].
Qed.

(** X14: whatever the input, the seven lines of the worker's i-chart are
    nested: each array holds one number at every key, sigma is not
    negative, and going from the lower 99% limit through the 95% and 68%
    limits, the centre line and the upper 68%, 95% and 99% limits, none is
    above the next (comparisons with NaN being false). *)
Theorem worker_iLimits_nested (args : controlLimitsArgs) :
  let r := Worker.iLimits args in
  let n := length (keys args) in
  ∃ l99 l95 l68 c u68 u95 u99 : number,
    ll99 r = replicate n l99 ∧ ll95 r = replicate n l95
    ∧ ll68 r = Some (replicate n l68) ∧ targets r = replicate n c
    ∧ ul68 r = Some (replicate n u68) ∧ ul95 r = replicate n u95
    ∧ ul99 r = replicate n u99
    ∧ notAbove l99 l95 ∧ notAbove l95 l68 ∧ notAbove l68 c
    ∧ notAbove c u68 ∧ notAbove u68 u95 ∧ notAbove u95 u99
    ∧ lt (Worker.sigma (Worker.extractValues (Worker.ratio args)
                          (subset_points args))
            (outliers_in_limits args)) (of_Z 0) = false.
Proof.
  intros r n. subst r n. unfold Worker.iLimits. cbv zeta.
  cbn [targets ll99 ll95 ll68 ul68 ul95 ul99].
  set (c := Worker.mean _). set (sigma := Worker.sigma _ _).
  pose proof (worker_sigma_dispersion
                (Worker.extractValues (Worker.ratio args) (subset_points args))
                (outliers_in_limits args)) as Hs.
  fold sigma in Hs.
  destruct (limits_nested c sigma 2 3 ltac:(lia) ltac:(lia) Hs)
    as (H32 & H23 & _ & _).
  destruct (limits_nested c sigma 1 2 ltac:(lia) ltac:(lia) Hs)
    as (H21 & H12 & H1c & Hc1).
  do 7 eexists. unfold Worker.rep.
  split_and!; try reflexivity; try done.
  destruct Hs as [->|[->|(s & -> & Hs)]]; [done..|].
  rewrite of_Z_0. by apply (Fin_notAbove 0 s).
Qed.

End NestedLimits.

Section CopiesAgree.
Import JS Limits LimitNotions Examples.

Lemma ratio_plain (divide : list number → list number → list number)
    (args : controlLimitsArgs) :
  Worker.useRatio args = false →
  ratio divide args = numerators args
  ∧ Worker.ratio args = numerators args
  ∧ useRatio args = false.
Proof.
  unfold ratio, Worker.ratio, useRatio, Worker.useRatio.
  by intros ->.
Qed.

(** [d3.mean] and the worker's [mean] agree on a non-empty array without
    NaN. *)
Lemma d3_mean_noNaN (l : list number) :
  noNaN l → l ≠ [] → d3_mean l = Some (Worker.mean l).
Proof.
  intros H Hne. unfold d3_mean, Worker.mean. cbv zeta.
  assert (Hf : filter (λ v, isNaN v = false) l = l).
  { clear Hne. induction H as [|x l Hx _ IH]; [done|].
    rewrite filter_cons_True by done. by rewrite IH. }
  rewrite Hf. destruct l; [done|]. reflexivity.
Qed.

Lemma finite_noNaN (l : list number) : finiteList l → noNaN l.
Proof. intros H. eapply Forall_impl; [exact H|]. by intros []. Qed.

(** No difference of two finite numbers is NaN. *)
Lemma diff_noNaN (l : list number) : finiteList l → noNaN (Worker.diff l).
Proof.
  intros H. induction H as [|a l Ha Hl IH]; [constructor|].
  destruct l as [|b l]; [constructor|].
  rewrite diff_cons_cons. constructor; [|exact IH].
  apply Forall_inv in Hl. by destruct a, b.
Qed.

Lemma abs_noNaN (l : list number) : noNaN l → noNaN (Worker.abs l).
Proof.
  intros H. unfold Worker.abs. apply Forall_fmap.
  eapply Forall_impl; [exact H|]. intros [q| | |]; cbn; try done.
  by destruct (Qc_sgn q).
Qed.

(** On finite values, sigma of i.ts (with diff and abs as the worker
    script inlines them) is sigma of the worker script, unless the
    screening leaves no difference: then it is NaN in i.ts and 0 in the
    worker script. *)
Lemma sigma_copies (l : list number) (o : bool) :
  finiteList l →
  sigma Worker.diff Worker.abs l o = Worker.sigma l o
  ∨ (sigma Worker.diff Worker.abs l o = NaN ∧ Worker.sigma l o = Fin 0%Qc).
Proof.
  intros Hl. unfold sigma, Worker.sigma. cbv zeta.
  set (cd := Worker.abs (Worker.diff l)).
  assert (Hcd : noNaN cd) by (by apply abs_noNaN, diff_noNaN).
  destruct c1_128_positive as (k & Hk & Hpos).
  assert (Hnone : ∀ x, div (to_number (d3_mean [])) x = NaN
                       ∧ (x = c1_128 → div (Worker.mean []) x = Fin 0%Qc)).
  { intros x. split; [done|]. intros ->. rewrite Hk.
    change (Worker.mean []) with (of_Z 0). rewrite of_Z_0.
    by apply zero_div_positive. }
  destruct (decide (cd = [])) as [E|Hne].
  - right. rewrite E. destruct o; cbn [filter list_filter];
      by destruct (Hnone c1_128) as [-> ->].
  - rewrite (d3_mean_noNaN cd Hcd Hne).
    change (to_number (Some (Worker.mean cd))) with (Worker.mean cd).
    set (valid := if o then cd
                  else filter (λ d, lt d (mul (Worker.mean cd) c3_267) = true)
                         cd).
    assert (Hv : noNaN valid).
    { unfold valid. destruct o; [done|].
      apply Forall_forall. intros x Hx.
      apply list_elem_of_filter in Hx as [_ Hx].
      unfold noNaN in Hcd. rewrite Forall_forall in Hcd. by apply Hcd. }
    destruct (decide (valid = [])) as [E|Hvne].
    + right. rewrite E. by destruct (Hnone c1_128) as [-> ->].
    + left. by rewrite (d3_mean_noNaN valid Hv Hvne).
Qed.

Lemma limit_NaN (c : number) (k : Z) :
  sub c (mul (of_Z k) NaN) = NaN ∧ add c (mul (of_Z k) NaN) = NaN.
Proof. unfold of_Z. by destruct c. Qed.

(** X15: on finite numerators without denominators and without a subset of
    points, i.ts (with diff and abs as the worker script inlines them) and
    the i-chart of the worker script return the same keys, values,
    numerators, denominators and centre line.  Either their sigma and their
    95% and 99% limits are the same too, or sigma is NaN in i.ts and 0 in
    the worker script: then the limits of i.ts are NaN and those of the
    worker script are the centre line. *)
Theorem iLimits_copies_agree (args : controlLimitsArgs)
    (divide : list number → list number → list number) :
  finiteList (numerators args) → numerators args ≠ [] →
  Worker.useRatio args = false →
  subset_points args = None →
  let module := iLimits divide Worker.diff Worker.abs args in
  let worker := Worker.iLimits args in
  let sigma_module :=
    sigma Worker.diff Worker.abs (numerators args) (outliers_in_limits args) in
  let sigma_worker :=
    Worker.sigma (numerators args) (outliers_in_limits args) in
  let n := length (keys args) in
  r_keys module = r_keys worker
  ∧ values module = values worker
  ∧ r_numerators module = r_numerators worker
  ∧ r_denominators module = r_denominators worker
  ∧ targets module = targets worker
  ∧ ((sigma_module = sigma_worker
      ∧ ll99 module = ll99 worker ∧ ll95 module = ll95 worker
      ∧ ul95 module = ul95 worker ∧ ul99 module = ul99 worker)
     ∨ (sigma_module = NaN ∧ sigma_worker = of_Z 0
        ∧ ll99 module = replicate n NaN ∧ ll95 module = replicate n NaN
        ∧ ul95 module = replicate n NaN ∧ ul99 module = replicate n NaN
        ∧ ll99 worker = targets worker ∧ ll95 worker = targets worker
        ∧ ul95 worker = targets worker ∧ ul99 worker = targets worker)).
Proof.
  intros Hn Hne Huse Hsub module worker sigma_module sigma_worker n.
  subst module worker sigma_module sigma_worker n.
  destruct (ratio_plain divide args Huse) as (Hr & Hrw & Huse').
  unfold iLimits, Worker.iLimits. cbv zeta.
  cbn [r_keys values r_numerators r_denominators targets ll99 ll95 ul95 ul99].
  rewrite Hr, Hrw, Huse, Huse', Hsub. cbn [Worker.extractValues].
  rewrite (d3_mean_noNaN _ (finite_noNaN _ Hn) Hne).
  change (to_number (Some (Worker.mean (numerators args))))
    with (Worker.mean (numerators args)).
  unfold Worker.rep. do 5 (split; [reflexivity|]).
  destruct (sigma_copies (numerators args) (outliers_in_limits args) Hn)
    as [->|[-> ->]].
  - by left.
  - right. rewrite !mul_zero, sub_zero, add_zero, of_Z_0.
    destruct (limit_NaN (Worker.mean (numerators args)) 3) as [-> ->].
    destruct (limit_NaN (Worker.mean (numerators args)) 2) as [-> ->].
    by split_and!.
Qed.

Lemma iLimits_copies_agree_witness :
  targets (iLimits_ts FurtherExamples.variedArgs)
  = targets (Worker.iLimits FurtherExamples.variedArgs).
Proof.
  refine (proj1 (proj2 (proj2 (proj2 (proj2
            (iLimits_copies_agree FurtherExamples.variedArgs
               (λ n d, Worker.divide n (Some d)) _ _ _ _)))))).
  - repeat constructor.
  - discriminate.
  - reflexivity.
  - reflexivity.
Defined.

Lemma worker_iLimits_constant_witness :
  ll99 (Worker.iLimits (constantArgs false))
  = targets (Worker.iLimits (constantArgs false)).
Proof.
  refine (proj1 (proj2
            (worker_iLimits_constant (constantArgs false) (Qc_of_Z 5) 3
               _ _ _ _))).
  - lia.
  - reflexivity.
  - reflexivity.
  - reflexivity.
Defined.

End CopiesAgree.

Section UpdateReuse.
Import JS ChangeDetection ViewModel.
Context {Settings DataViews Host Limits OutlierFlags PlotData Lines
         Palette Identities Tables GroupedPlot : Type}.
Abbreviation Collab :=
  (@Collaborators Settings DataViews Host Limits OutlierFlags PlotData Lines
     Palette Identities Tables GroupedPlot).
Abbreviation VM :=
  (@viewModel Settings Limits OutlierFlags PlotData Lines Palette Identities
     Tables GroupedPlot).
Variable C : Collab.

(** With the data state and the settings hashes of the previous cycle,
    neither the limits nor the outliers are due. *)
Lemma unchanged_recalc (state : DataState) (prevS curS : SettingsState) :
  categoryHashes prevS = categoryHashes curS →
  let flags := computeChangeFlags (Some state) state (Some prevS) curS false in
  limitsNeedRecalc flags = false ∧ outliersNeedRecalc flags = false
  ∧ dataChanged flags = false ∧ renderNeeded flags = ∅.
Proof.
  intros Hsame flags.
  destruct (computeChangeFlags_later (Some state) state (Some prevS) curS)
    as (Hro & Hdc & Hsc & Hlim & Hrender).
  destruct (computeChangeFlags_later_more (Some state) state (Some prevS) curS)
    as (Hout & Hvp).
  fold flags in Hro, Hdc, Hsc, Hlim, Hrender, Hout, Hvp.
  assert (Hd : detectDataChanges (Some state) state
               = {| dc_dataChanged := false; dc_resizeOnly := false;
                    dc_viewportChanged := false |}).
  { unfold detectDataChanges. by rewrite !bool_decide_eq_true_2. }
  rewrite Hd in *. cbn [dc_dataChanged dc_resizeOnly dc_viewportChanged] in *.
  rewrite (detectSettingsChanges_same _ _ Hsame) in *.
  rewrite set_fold_empty in *. cbn [p_limits p_outliers p_render andb] in *.
  by split_and!.
Qed.

(** What the closing part of [update] does to the state: it stores the
    settings state and clears [firstRun]. *)
Lemma finish_fields (vm : VM) css :
  let vm' := (finish vm css).1 in
  prevSettingsState vm' = Some css ∧ firstRun vm' = false
  ∧ prevDataState vm' = prevDataState vm
  ∧ lastChangeFlags vm' = lastChangeFlags vm
  ∧ inputSettings vm' = inputSettings vm
  ∧ colourPalette vm' = colourPalette vm
  ∧ splitIndexes vm' = splitIndexes vm.
Proof.
  unfold finish. cbn [showGrouped inputData inputDataGrouped].
  destruct (showGrouped vm).
  - destruct (inputDataGrouped vm); [case_match|]; by repeat split.
  - destruct (inputData vm); [case_match|]; by repeat split.
Qed.

Lemma finish_ok (vm : VM) css d :
  showGrouped vm = false → inputData vm = Some d →
  status (validationStatus d) = 0 →
  (finish vm css).2
  = Returned {| res_status := true; res_error := None;
                res_warning :=
                  if negb (bool_decide (warningMessage d = ""))
                  then Some (warningMessage d) else None;
                res_type := None |}.
Proof.
  intros Hs Hd Hst. unfold finish. cbn [showGrouped inputData].
  by rewrite Hs, Hd, Hst.
Qed.

(** The path of an accepted data update without indicator column. *)
Lemma update_single (vm : VM) (options : VisualUpdateOptions DataViews)
    (host : Host) :
  let vm0 := prologue C vm options host in
  let css := createSettingsState C (inputSettings vm0) in
  (type options =? 2) || firstRun vm = true →
  settingsError C (inputSettings vm0) = "" →
  validateDataView C (dataViews options) (inputSettings vm0) = "valid" →
  hasIndicator C (dataViews options) = false →
  update C vm options host = finish (singleCycle C vm0 options host css) css.
Proof.
  intros vm0 css Hcycle Hset Hdv Hind. unfold update. cbv zeta.
  fold vm0. rewrite Hcycle, Hind.
  by rewrite (bool_decide_eq_true_2 _ Hset), (bool_decide_eq_true_2 _ Hdv).
Qed.

(** X17: a cycle that the settings or the data view reject returns the error
    before anything is computed: the results, the input data and the state
    of change detection stay, and [firstRun] is not cleared, so that the
    next cycle is handled as the first again. *)
Theorem update_rejected_early (vm : VM)
    (options : VisualUpdateOptions DataViews) (host : Host) :
  let vm0 := prologue C vm options host in
  let checkDV := validateDataView C (dataViews options) (inputSettings vm0) in
  settingsError C (inputSettings vm0) ≠ "" ∨ checkDV ≠ "valid" →
  (update C vm options host).2
  = Returned (if bool_decide (settingsError C (inputSettings vm0) = "")
              then {| res_status := false; res_error := Some checkDV;
                      res_warning := None; res_type := None |}
              else {| res_status := false;
                      res_error := Some (settingsError C (inputSettings vm0));
                      res_warning := None; res_type := Some "settings" |})
  ∧ (update C vm options host).1 = vm0
  ∧ firstRun vm0 = firstRun vm
  ∧ prevDataState vm0 = prevDataState vm
  ∧ prevSettingsState vm0 = prevSettingsState vm
  ∧ lastChangeFlags vm0 = lastChangeFlags vm
  ∧ inputData vm0 = inputData vm
  ∧ sameResults vm vm0.
Proof.
  intros vm0 checkDV Hrej. unfold update. cbv zeta. fold vm0. fold checkDV.
  assert (Hstate : sameResults vm vm0) by (by repeat split).
  case_bool_decide as Hset; cbn [negb].
  - destruct Hrej as [Hrej|Hrej]; [done|].
    rewrite (bool_decide_eq_false_2 _ Hrej). cbn [negb fst snd].
    by split_and!.
  - cbn [fst snd]. by split_and!.
Qed.

(** The state after a data cycle that finds its own data and settings
    states stored. *)
Lemma unchanged_cycle_state (vm : VM)
    (options : VisualUpdateOptions DataViews) (host : Host)
    (prevS : SettingsState) :
  let vm0 := prologue C vm options host in
  let css := createSettingsState C (inputSettings vm0) in
  let inp := extracted C vm0 options in
  type options = 2 → firstRun vm = false →
  settingsError C (inputSettings vm0) = "" →
  validateDataView C (dataViews options) (inputSettings vm0) = "valid" →
  hasIndicator C (dataViews options) = false →
  status (validationStatus inp) = 0 →
  prevDataState vm
  = Some (currentDataStateOf C (Some inp) (splitIndexesOf C (dataViews options))
            (viewport_width options) (viewport_height options)) →
  prevSettingsState vm = Some prevS →
  categoryHashes prevS = categoryHashes css →
  let vm' := (update C vm options host).1 in
  controlLimits vm' = controlLimits vm
  ∧ outliers vm' = outliers vm
  ∧ groupStartEndIndexes vm' = groupStartEndIndexes vm
  ∧ (∃ flags, lastChangeFlags vm' = Some flags
              ∧ limitsNeedRecalc flags = false
              ∧ outliersNeedRecalc flags = false
              ∧ renderNeeded flags = ∅)
  ∧ prevDataState vm' = prevDataState vm
  ∧ prevSettingsState vm' = Some css
  ∧ ∃ res, (update C vm options host).2 = Returned res
           ∧ res_status res = true.
Proof.
  intros vm0 css inp Htype Hfirst Hset Hdv Hind Hstatus Hprev HprevS Hsame vm'.
  assert (Hcycle : (type options =? 2) || firstRun vm = true).
  { by rewrite Htype. }
  subst vm'. rewrite (update_single vm options host Hcycle Hset Hdv Hind).
  fold vm0. fold css.
  set (vm1 := singleCycle C vm0 options host css).
  destruct (finish_state vm1 css)
    as ((Hcl & Hout & _ & _ & _ & Hgr) & Hsg & Hinp).
  destruct (finish_fields vm1 css)
    as (Hpss & _ & Hpds & Hlcf & _).
  rewrite Hcl, Hout, Hgr, Hpss, Hpds, Hlcf.
  assert (Hvm1 : showGrouped vm1 = false ∧ inputData vm1 = Some inp).
  { destruct (singleCycle_cases C vm0 options host css) as (H1 & H2 & _).
    by split. }
  destruct Hvm1 as [Hsg1 Hinp1].
  rewrite (finish_ok vm1 css inp Hsg1 Hinp1 Hstatus).
  set (cds := currentDataStateOf C (Some inp)
                (splitIndexesOf C (dataViews options))
                (viewport_width options) (viewport_height options)) in *.
  destruct (unchanged_recalc cds prevS css Hsame)
    as (Hlim & Houtl & _ & Hrender).
  unfold vm1, singleCycle. cbv zeta. fold inp. rewrite Hstatus.
  cbn [Z.eqb controlLimits outliers groupStartEndIndexes lastChangeFlags
       prevDataState].
  change (prevDataState vm0) with (prevDataState vm).
  change (prevSettingsState vm0) with (prevSettingsState vm).
  change (firstRun vm0) with (firstRun vm).
  change (svgWidth vm0) with (viewport_width options).
  change (svgHeight vm0) with (viewport_height options).
  fold cds. rewrite Hprev, HprevS, Hfirst, Hlim, Houtl.
  cbn [orb].
  split_and!; try reflexivity.
  - eexists. split; [reflexivity|]. by split_and!.
  - eexists. split; [reflexivity|]. reflexivity.
Qed.

(** X18: a data cycle after the first, without indicator column, whose data
    state and settings hashes are those stored by the previous cycle keeps
    the control limits, the outlier flags and the subgroup ranges it finds
    in the view model, whatever they are; it succeeds and asks for no
    render stage. *)
Theorem update_unchanged_cycle (vm : VM)
    (options : VisualUpdateOptions DataViews) (host : Host)
    (prevS : SettingsState) :
  let vm0 := prologue C vm options host in
  let css := createSettingsState C (inputSettings vm0) in
  let inp := extracted C vm0 options in
  type options = 2 → firstRun vm = false →
  settingsError C (inputSettings vm0) = "" →
  validateDataView C (dataViews options) (inputSettings vm0) = "valid" →
  hasIndicator C (dataViews options) = false →
  status (validationStatus inp) = 0 →
  prevDataState vm
  = Some (currentDataStateOf C (Some inp) (splitIndexesOf C (dataViews options))
            (viewport_width options) (viewport_height options)) →
  prevSettingsState vm = Some prevS →
  categoryHashes prevS = categoryHashes css →
  let vm' := (update C vm options host).1 in
  controlLimits vm' = controlLimits vm
  ∧ outliers vm' = outliers vm
  ∧ groupStartEndIndexes vm' = groupStartEndIndexes vm
  ∧ (∃ flags, lastChangeFlags vm' = Some flags
              ∧ limitsNeedRecalc flags = false
              ∧ outliersNeedRecalc flags = false
              ∧ renderNeeded flags = ∅)
  ∧ prevDataState vm' = prevDataState vm
  ∧ prevSettingsState vm' = Some css
  ∧ ∃ res, (update C vm options host).2 = Returned res
           ∧ res_status res = true.
Proof.
  intros vm0 css inp Htype Hfirst Hset Hdv Hind Hstatus Hprev HprevS Hsame.
  by apply (unchanged_cycle_state vm options host prevS).
Qed.

(** X19: when an accepted data update without indicator column is repeated
    with the same options, and the settings update leaves the settings of
    the first cycle as they are, the second cycle finds the states the
    first one stored: it raises no flag, keeps the limits, outliers and
    subgroup ranges of the first cycle and returns the same result. *)
Theorem update_twice (vm : VM) (options : VisualUpdateOptions DataViews)
    (host : Host) :
  let vm0 := prologue C vm options host in
  let inp := extracted C vm0 options in
  let first := update C vm options host in
  let second := update C first.1 options host in
  type options = 2 →
  settingsError C (inputSettings vm0) = "" →
  validateDataView C (dataViews options) (inputSettings vm0) = "valid" →
  hasIndicator C (dataViews options) = false →
  status (validationStatus inp) = 0 →
  settingsUpdate C (inputSettings vm0) (dataViews options)
    (idxPerIndicatorOf C (dataViews options)) = inputSettings vm0 →
  controlLimits second.1 = controlLimits first.1
  ∧ outliers second.1 = outliers first.1
  ∧ groupStartEndIndexes second.1 = groupStartEndIndexes first.1
  ∧ (∃ flags, lastChangeFlags second.1 = Some flags
              ∧ limitsNeedRecalc flags = false
              ∧ outliersNeedRecalc flags = false
              ∧ renderNeeded flags = ∅)
  ∧ second.2 = first.2.
Proof.
  intros vm0 inp first second Htype Hset Hdv Hind Hstatus Hidem.
  set (css := createSettingsState C (inputSettings vm0)).
  assert (Hcycle : (type options =? 2) || firstRun vm = true).
  { by rewrite Htype. }
  assert (Hfirst : first = finish (singleCycle C vm0 options host css) css).
  { by apply update_single. }
  set (vm1 := singleCycle C vm0 options host css) in *.
  destruct (finish_fields vm1 css)
    as (Hpss & Hfr & Hpds & _ & Hset1 & _ & Hsplit).
  rewrite <- Hfirst in Hpss, Hfr, Hpds, Hset1, Hsplit.
  assert (Hs1 : inputSettings vm1 = inputSettings vm0).
  { unfold vm1, singleCycle. cbv zeta. by case_match. }
  assert (Hd1 : prevDataState vm1
                = Some (currentDataStateOf C (Some inp)
                          (splitIndexesOf C (dataViews options))
                          (viewport_width options) (viewport_height options))).
  { unfold vm1, singleCycle. cbv zeta. fold inp. by rewrite Hstatus. }
  set (vm0' := prologue C first.1 options host).
  assert (Hs0' : inputSettings vm0' = inputSettings vm0).
  { unfold vm0', prologue. cbn [inputSettings]. rewrite Htype.
    cbn [Z.eqb orb]. by rewrite Hset1, Hs1, Hidem. }
  assert (Hinp' : extracted C vm0' options = inp).
  { unfold extracted. by rewrite Hs0'. }
  destruct (unchanged_cycle_state first.1 options host css)
    as (Hcl & Hout & Hgr & Hflags & _ & _ & res & Hres & Hok).
  - exact Htype.
  - exact Hfr.
  - fold vm0'. by rewrite Hs0'.
  - fold vm0'. by rewrite Hs0'.
  - exact Hind.
  - fold vm0'. by rewrite Hinp'.
  - fold vm0'. by rewrite Hinp', Hpds, Hd1.
  - exact Hpss.
  - fold vm0'. by rewrite Hs0'.
  - fold second in Hcl, Hout, Hgr, Hflags, Hres.
    split_and!; try done.
    pose proof (update_single first.1 options host) as Hsecond.
    cbv zeta in Hsecond. fold vm0' in Hsecond. rewrite Hs0' in Hsecond.
    fold css in Hsecond. fold second in Hsecond.
    rewrite Hsecond; [|by rewrite Htype|done|done|done].
    destruct (singleCycle_cases C vm0' options host css) as (Hsg2 & Hin2 & _).
    rewrite Hinp' in Hin2.
    rewrite (finish_ok _ css inp Hsg2 Hin2 Hstatus).
    rewrite Hfirst.
    destruct (singleCycle_cases C vm0 options host css) as (Hsg1 & Hin1 & _).
    fold vm1 in Hsg1, Hin1. fold inp in Hin1.
    by rewrite (finish_ok vm1 css inp Hsg1 Hin1 Hstatus).
Qed.

End UpdateReuse.

Section UpdateReuseExamples.
Import ViewModel Examples FurtherExamples.

Lemma update_rejected_early_witness :
  (update rejectingCollaborators previousModel dataUpdate tt).1
  = prologue rejectingCollaborators previousModel dataUpdate tt.
Proof.
  refine (proj1 (proj2 (update_rejected_early rejectingCollaborators
                          previousModel dataUpdate tt _))).
  left. intros H. discriminate H.
Defined.

Lemma update_unchanged_cycle_witness :
  controlLimits (update workingCollaborators settledModel dataUpdate tt).1
  = controlLimits settledModel.
Proof.
  refine (proj1 (update_unchanged_cycle workingCollaborators settledModel
                   dataUpdate tt {| ChangeDetection.categoryHashes := ∅ |}
                   _ _ _ _ _ _ _ _ _)); reflexivity.
Defined.

Lemma update_twice_witness :
  (update workingCollaborators
     (update workingCollaborators previousModel dataUpdate tt).1
     dataUpdate tt).2
  = (update workingCollaborators previousModel dataUpdate tt).2.
Proof.
  refine (proj2 (proj2 (proj2 (proj2
            (update_twice workingCollaborators previousModel dataUpdate tt
               _ _ _ _ _ _))))); reflexivity.
Defined.

End UpdateReuseExamples.

Section GroupingSlices.
Import ViewModel Slices Examples.

Lemma getGroupingIndexes_chain (inputData : dataObject)
    (splitIndexes : option (list Z)) :
  let n := Z.of_nat (length (keys (limitInputArgs inputData))) in
  1 ≤ n →
  (∀ k, k ∈ default [] splitIndexes → 0 ≤ k < n) →
  (∀ k, k ∈ groupingIndexes inputData → 0 ≤ k < n) →
  chain 0 n (getGroupingIndexes inputData splitIndexes).
Proof.
  intros n Hn Hsplit Hgroup.
  destruct (allIndexes_sorted inputData splitIndexes) as [Hsorted Helem].
  fold n in Helem.
  assert (Hrange : ∀ k, k ∈ allIndexes inputData splitIndexes → -1 ≤ k ≤ n - 1).
  { intros k Hk. apply Helem in Hk.
    rewrite !elem_of_app, !list_elem_of_singleton in Hk.
    destruct Hk as [Hk|[->|[Hk| ->]]]; [|lia| |lia].
    - apply Hsplit in Hk. lia.
    - apply Hgroup in Hk. lia. }
  assert (Hmin : -1 ∈ allIndexes inputData splitIndexes).
  { apply Helem. rewrite !elem_of_app, !list_elem_of_singleton. auto. }
  assert (Hmax : n - 1 ∈ allIndexes inputData splitIndexes).
  { apply Helem. rewrite !elem_of_app, !list_elem_of_singleton. auto. }
  rewrite getGroupingIndexes_consecutive.
  destruct (allIndexes inputData splitIndexes) as [|a [|b l]] eqn:El.
  - by apply elem_of_nil in Hmin.
  - apply list_elem_of_singleton in Hmin, Hmax. lia.
  - assert (a = -1) as ->.
    { eapply sorted_first; [done..|]. intros k Hk. apply Hrange in Hk. lia. }
    assert (Hlast : default (-1) (last (b :: l)) = n - 1).
    { eapply sorted_last; [done..|]. intros k Hk. apply Hrange in Hk. lia. }
    pose proof (consecutive_chain (-1) b l Hsorted) as Hc.
    rewrite last_cons in Hlast.
    replace (default b (last l)) with (n - 1) in Hc
      by (destruct (last l); simpl in *; lia).
    replace (n - 1 + 1) with n in Hc by lia. exact Hc.
Qed.

Lemma jsSlice_nonneg {A} (a b : Z) (arr : list A) :
  0 ≤ a → a ≤ b → b ≤ Z.of_nat (length arr) →
  jsSlice a b arr = take (Z.to_nat b - Z.to_nat a) (drop (Z.to_nat a) arr).
Proof.
  intros Ha Hab Hb. unfold jsSlice. cbv zeta.
  destruct (Z.ltb_spec a 0), (Z.ltb_spec b 0); try lia.
  rewrite !Z.min_l by lia. f_equal. lia.
Qed.

Lemma jsSlice_app {A} (a b c : Z) (arr : list A) :
  0 ≤ a → a ≤ b → b ≤ c → c ≤ Z.of_nat (length arr) →
  jsSlice a b arr ++ jsSlice b c arr = jsSlice a c arr.
Proof.
  intros Ha Hab Hbc Hc.
  rewrite !jsSlice_nonneg by lia.
  replace (drop (Z.to_nat b) arr)
    with (drop (Z.to_nat b - Z.to_nat a) (drop (Z.to_nat a) arr)).
  - rewrite take_take_drop. f_equal. lia.
  - rewrite drop_drop. f_equal. lia.
Qed.

(** The slices along a chain of ranges, put together, are the slice from
    the start of the chain to its end. *)
Lemma chain_slices {A} (a b : Z) (rs : list (Z * Z)) (arr : list A) :
  chain a b rs → 0 ≤ a → b ≤ Z.of_nat (length arr) →
  concat (groupedSlices rs arr) = jsSlice a b arr.
Proof.
  unfold groupedSlices.
  induction 1 as [a b Hab|a b c rs Hab Hch IH]; intros Ha Hb.
  - cbn. apply app_nil_r.
  - pose proof (chain_lt _ _ _ Hch) as Hbc.
    rewrite fmap_cons. cbn [concat fst snd].
    rewrite IH by lia. apply jsSlice_app; lia.
Qed.

(** X20: the pieces into which [calculateLimits] cuts an array of the input
    along the subgroup ranges are, put together in order, the array itself:
    no entry is lost, repeated or moved. *)
Theorem groupedSlices_concat {A} (inputData : dataObject)
    (splitIndexes : option (list Z)) (arr : list A) :
  let n := Z.of_nat (length (keys (limitInputArgs inputData))) in
  1 ≤ n →
  (∀ k, k ∈ default [] splitIndexes → 0 ≤ k < n) →
  (∀ k, k ∈ groupingIndexes inputData → 0 ≤ k < n) →
  length arr = length (keys (limitInputArgs inputData)) →
  concat (groupedSlices (getGroupingIndexes inputData splitIndexes) arr) = arr.
Proof.
  intros n Hn Hsplit Hgroup Hlen.
  rewrite (chain_slices 0 n); [| by apply getGroupingIndexes_chain|lia|lia].
  rewrite jsSlice_nonneg by lia.
  change (Z.to_nat 0) with 0%nat. rewrite drop_0, Nat.sub_0_r.
  apply take_ge. lia.
Qed.

Lemma groupedSlices_concat_witness :
  concat (groupedSlices (getGroupingIndexes exampleData (Some [5; 2; 7]))
            (seq 0 10)) = seq 0 10.
Proof.
  apply (groupedSlices_concat exampleData (Some [5; 2; 7]) (seq 0 10)).
  - simpl. lia.
  - intros k Hk. simpl in Hk |- *.
    rewrite !elem_of_cons in Hk. rewrite elem_of_nil in Hk. lia.
  - intros k Hk. simpl in Hk |- *.
    rewrite !elem_of_cons in Hk. rewrite elem_of_nil in Hk. lia.
  - reflexivity.
Defined.

(** X21: the subgroup ranges depend only on which indexes are given, not on
    their order or on repetitions: two inputs with as many keys and the
    same split and grouping indexes as sets get the same ranges. *)
Theorem getGroupingIndexes_set (d1 d2 : dataObject)
    (s1 s2 : option (list Z)) :
  length (keys (limitInputArgs d1)) = length (keys (limitInputArgs d2)) →
  (∀ k, k ∈ default [] s1 ↔ k ∈ default [] s2) →
  (∀ k, k ∈ groupingIndexes d1 ↔ k ∈ groupingIndexes d2) →
  getGroupingIndexes d1 s1 = getGroupingIndexes d2 s2.
Proof.
  intros Hlen Hs Hg. rewrite !getGroupingIndexes_consecutive. f_equal.
  destruct (allIndexes_sorted d1 s1) as [Hsort1 Hel1].
  destruct (allIndexes_sorted d2 s2) as [Hsort2 Hel2].
  apply (StronglySorted_unique_strong Z.lt); [intros; lia|done..|].
  apply NoDup_Permutation.
  - clear -Hsort1. induction Hsort1 as [|x l _ IH Hx]; constructor; [|done].
    intros Hin. rewrite Forall_forall in Hx. specialize (Hx x Hin). lia.
  - clear -Hsort2. induction Hsort2 as [|x l _ IH Hx]; constructor; [|done].
    intros Hin. rewrite Forall_forall in Hx. specialize (Hx x Hin). lia.
  - intros k. rewrite Hel1, Hel2, Hlen.
    rewrite !elem_of_app, !list_elem_of_singleton, Hs, Hg. done.
Qed.

Lemma getGroupingIndexes_set_witness :
  getGroupingIndexes exampleData (Some [5; 2; 7])
  = getGroupingIndexes exampleData (Some [7; 5; 2; 5]).
Proof.
  apply (getGroupingIndexes_set exampleData exampleData
           (Some [5; 2; 7]) (Some [7; 5; 2; 5])).
  - reflexivity.
  - intros k. simpl. rewrite !elem_of_cons, !elem_of_nil. intuition.
  - intros k. reflexivity.
Defined.

End GroupingSlices.

Section CacheFacts.
Import Cache.
Context {K V : Type} `{Countable K}.

(** X22: what [get] returns after each method of the cache: after [set] the
    value for that key under that hash and nothing under another hash,
    after [invalidate] nothing for that key, other keys as before, and
    nothing at all after [clear]. *)
Theorem cache_get_after (c : ComputedValueCache K V) (key key' : K)
    (value : V) (hash hash' : string) :
  get (set c key value hash) key' hash'
  = (if decide (key = key')
     then (if decide (hash = hash') then Some value else None)
     else get c key' hash')
  ∧ get (invalidate c key) key' hash'
    = (if decide (key = key') then None else get c key' hash')
  ∧ get (clear c) key' hash' = None.
Proof.
  unfold get, set, invalidate, clear, fresh.
  cbn [cache validityHashes]. split_and!.
  - destruct (decide (key = key')) as [->|Hne].
    + rewrite !lookup_insert_eq. destruct (decide (hash = hash')) as [->|Hh].
      * by rewrite bool_decide_eq_true_2.
      * rewrite bool_decide_eq_false_2; [done|congruence].
    + by rewrite !lookup_insert_ne.
  - destruct (decide (key = key')) as [->|Hne].
    + rewrite !lookup_delete_eq. by rewrite bool_decide_eq_false_2.
    + by rewrite !lookup_delete_ne.
  - rewrite lookup_empty. by rewrite bool_decide_eq_false_2.
Qed.

Lemma reachable_dom (c : ComputedValueCache K V) :
  reachable c → dom (cache c) = dom (validityHashes c).
Proof.
  induction 1 as [|c key value hash _ IH|c key _ IH|c _ IH];
    cbn [cache validityHashes set invalidate clear fresh].
  - by rewrite !dom_empty_L.
  - by rewrite !dom_insert_L, IH.
  - by rewrite !dom_delete_L, IH.
  - by rewrite !dom_empty_L.
Qed.

(** X23: in a cache that calls of its methods have produced, the two maps
    hold the same keys: [get] returns a value exactly when the stored hash
    of the key is the current one, and [size] counts the stored hashes. *)
Theorem cache_consistent (c : ComputedValueCache K V) (key : K)
    (currentHash : string) :
  reachable c →
  (is_Some (get c key currentHash)
   ↔ validityHashes c !! key = Some currentHash)
  ∧ size c = base.size (validityHashes c).
Proof.
  intros Hr. pose proof (reachable_dom c Hr) as Hdom. split.
  - unfold get. case_bool_decide as Hh.
    + split; [done|]. intros _.
      apply elem_of_dom. rewrite Hdom. apply elem_of_dom. by eexists.
    + split; [|done]. by intros [? ?].
  - unfold size. by rewrite <- !size_dom, Hdom.
Qed.

End CacheFacts.

Section CacheExample.
Import Cache.

Lemma cache_consistent_witness :
  Cache.size (Cache.set (Cache.fresh (K := nat) (V := nat)) 1%nat 2%nat "a")
  = base.size
      (validityHashes (Cache.set (Cache.fresh (K := nat) (V := nat))
                         1%nat 2%nat "a")).
Proof.
  refine (proj2 (cache_consistent
                   (Cache.set (Cache.fresh (K := nat) (V := nat))
                      1%nat 2%nat "a") 1%nat "a" _)).
  apply reach_set. apply reach_fresh.
Defined.

End CacheExample.

Section SchedulerFacts.
Import Scheduler.

Lemma schedule_requested (s : state) (l : list (gset string)) :
  frameRequested s = true →
  foldl scheduleRender s l
  = {| pendingRender := pendingRender s ∪ ⋃ l; frameRequested := true;
       renderCallback := renderCallback s; frames := frames s;
       rendered := rendered s |}.
Proof.
  revert s. induction l as [|x l IH]; intros s Hreq.
  - cbn. rewrite (right_id_L ∅ (∪)). destruct s. cbn in *. by subst.
  - cbn [foldl]. rewrite IH.
    + unfold scheduleRender. rewrite Hreq. cbn.
      by rewrite (assoc_L (∪)).
    + unfold scheduleRender. by rewrite Hreq.
Qed.

(** X24: any number of [scheduleRender] calls made while no frame is
    requested and a callback is set request one frame between them; when
    it fires the callback is called once, with all the stages scheduled and
    those left pending before, and the scheduler is idle again.  Nothing is
    rendered if there is no stage at all. *)
Theorem scheduler_batches (s : state) (first : gset string)
    (more : list (gset string)) :
  renderCallback s = true → frameRequested s = false →
  let total := pendingRender s ∪ ⋃ (first :: more) in
  let scheduled := foldl scheduleRender s (first :: more) in
  let fired := executeRender scheduled in
  frames scheduled = S (frames s) ∧ frameRequested scheduled = true
  ∧ pendingRender scheduled = total
  ∧ rendered scheduled = rendered s
  ∧ rendered fired
    = (if decide (total = ∅) then rendered s else rendered s ++ [total])
  ∧ pendingRender fired = ∅ ∧ frameRequested fired = false
  ∧ frames fired = frames s.
Proof.
  intros Hcb Hreq total scheduled fired.
  assert (Hs : scheduled
               = {| pendingRender := total; frameRequested := true;
                    renderCallback := true; frames := S (frames s);
                    rendered := rendered s |}).
  { subst scheduled total. cbn [foldl].
    rewrite schedule_requested.
    - unfold scheduleRender. rewrite Hreq, Hcb. cbn.
      by rewrite (assoc_L (∪)).
    - unfold scheduleRender. by rewrite Hreq, Hcb. }
  subst fired. rewrite Hs. unfold executeRender.
  cbn [pendingRender frameRequested renderCallback frames rendered].
  destruct (decide (total = ∅)) as [He|Hne].
  - rewrite (bool_decide_eq_true_2 _ He). cbn. by rewrite He.
  - rewrite (bool_decide_eq_false_2 _ Hne). by cbn.
Qed.

Lemma scheduler_batches_witness :
  rendered (executeRender
              (foldl scheduleRender (setRenderCallback initial)
                 [{["dots"]}; {["lines"]}]))
  = (if decide (pendingRender (setRenderCallback initial)
                  ∪ ⋃ [{["dots"]}; {["lines"]}] = (∅ : gset string))
     then rendered (setRenderCallback initial)
     else rendered (setRenderCallback initial)
          ++ [pendingRender (setRenderCallback initial)
              ∪ ⋃ [{["dots"]}; {["lines"]}]]).
Proof.
  refine (proj1 (proj2 (proj2 (proj2 (proj2
            (scheduler_batches (setRenderCallback initial) {["dots"]}
               [{["lines"]}] _ _)))))); reflexivity.
Defined.

(** The invariant of the scheduler. *)
Lemma step_invariant (s : state) (e : event) :
  (frameRequested s = true → (1 ≤ frames s)%nat) →
  Forall (λ stages, stages ≠ ∅) (rendered s) →
  (frameRequested (step s e) = true → (1 ≤ frames (step s e))%nat)
  ∧ Forall (λ stages, stages ≠ ∅) (rendered (step s e)).
Proof.
  intros Hf Hr. destruct e as [|stages| |]; cbn [step].
  - by split.
  - unfold scheduleRender.
    destruct (negb (frameRequested s) && renderCallback s) eqn:E; cbn.
    + split; [lia|done].
    + by split.
  - by split.
  - destruct (frames s =? 0)%nat eqn:E0; [by split|].
    unfold executeRender.
    destruct (negb (bool_decide (pendingRender s = ∅)) && renderCallback s)
      eqn:E; cbn.
    + split; [done|]. apply Forall_app. split; [done|].
      constructor; [|done].
      apply andb_true_iff in E as [E _]. apply negb_true_iff in E.
      by apply bool_decide_eq_false in E.
    + by split.
Qed.

(** X25: however the methods are called and the requested frames fire, the
    render callback is never called with an empty set of stages, and while
    [frameRequested] is set a requested frame is still to fire, so that
    stages scheduled with a callback set are not left waiting. *)
Theorem scheduler_invariant (events : list event) :
  let s := run initial events in
  Forall (λ stages, stages ≠ ∅) (rendered s)
  ∧ (frameRequested s = true → (1 ≤ frames s)%nat)
  ∧ ∀ stages, renderCallback s = true →
              (1 ≤ frames (scheduleRender s stages))%nat.
Proof.
  cbv zeta.
  assert (Hinv : (frameRequested (run initial events) = true →
                  (1 ≤ frames (run initial events))%nat)
                 ∧ Forall (λ stages, stages ≠ ∅)
                     (rendered (run initial events))).
  { unfold run. induction events as [|e events IH] using rev_ind.
    - cbn. split; [done|constructor].
    - rewrite foldl_app. cbn [foldl]. destruct IH as [IH1 IH2].
      by apply step_invariant. }
  destruct Hinv as [Hf Hr]. split_and!; [done..|].
  intros stages Hcb. unfold scheduleRender. rewrite Hcb.
  destruct (frameRequested (run initial events)) eqn:E; cbn.
  - by apply Hf.
  - lia.
Qed.

End SchedulerFacts.

Section HashObjectFacts.
Import JS ChangeDetection SettingsHash.

Lemma valueOf_elem (o : object) (key : string) (v : property) :
  NoDup o.*1 → valueOf o key = Some v ↔ (key, v) ∈ o.
Proof.
  induction o as [|[k w] o IH]; intros Hnd.
  - cbn. split; [done|]. intros Hin. by apply elem_of_nil in Hin.
  - cbn [valueOf]. rewrite fmap_cons in Hnd. cbn [fst] in Hnd.
    apply NoDup_cons in Hnd as [Hk Hnd].
    rewrite elem_of_cons. case_bool_decide as Hkey.
    + subst k. split.
      * intros [= ->]. by left.
      * intros [[= ->]|Hin]; [done|]. exfalso. apply Hk.
        apply list_elem_of_fmap. by exists (key, v).
    + rewrite (IH Hnd). split; [by right|].
      intros [[= ? ?]|Hin]; [congruence|done].
Qed.

Lemma StronglySorted_filter {A} (R : relation A) (P : A → Prop)
    `{∀ x, Decision (P x)} (l : list A) :
  StronglySorted R l → StronglySorted R (filter P l).
Proof.
  induction 1 as [|x l _ IH Hx]; [constructor|].
  rewrite filter_cons. case_decide; [|done].
  constructor; [done|].
  apply Forall_forall. intros y Hy.
  apply list_elem_of_filter in Hy as [_ Hy].
  rewrite Forall_forall in Hx. by apply Hx.
Qed.

Lemma omap_filter_map {A B} (f : A → option B) (g : A → B) (l : list A) :
  (∀ x y, f x = Some y → y = g x) →
  omap f l = g <$> filter (λ x, is_Some (f x)) l.
Proof.
  intros Hfg. induction l as [|x l IH]; [done|].
  cbn [omap list_omap]. rewrite filter_cons.
  destruct (f x) as [y|] eqn:E.
  - rewrite decide_True by eauto. rewrite fmap_cons, <- IH.
    by rewrite (Hfg x y E).
  - rewrite decide_False by (by intros [? ?]). exact IH.
Qed.

Lemma hashObject_same (toString_large : Qc → string) (o1 o2 : object) :
  NoDup o1.*1 → NoDup o2.*1 →
  (∀ key json, (key, Data json) ∈ o1 ↔ (key, Data json) ∈ o2) →
  hashObject toString_large (Present o1) = hashObject toString_large (Present o2).
Proof.
  intros Hnd1 Hnd2 Hsame. unfold hashObject. cbv zeta. do 2 f_equal.
  set (f := λ (o : object) (key : string),
              match valueOf o key with
              | Some (Data json) => Some (VStr (key +:+ ":" +:+ json))
              | _ => None
              end).
  set (g := λ (o : object) (key : string),
              VStr (key +:+ ":" +:+
                    match valueOf o key with
                    | Some (Data json) => json
                    | _ => ""
                    end)).
  change (omap (f o1) (sortedKeys o1) = omap (f o2) (sortedKeys o2)).
  assert (Hfg : ∀ o x y, f o x = Some y → y = g o x).
  { intros o x y. unfold f, g.
    destruct (valueOf o x) as [[|json]|]; try done. by intros [= <-]. }
  rewrite (omap_filter_map (f o1) (g o1)), (omap_filter_map (f o2) (g o2))
    by apply Hfg.
  assert (Hdata : ∀ o key, NoDup o.*1 →
            is_Some (f o key) ↔ ∃ json, (key, Data json) ∈ o).
  { intros o key Hnd. unfold f. split.
    - destruct (valueOf o key) as [[|json]|] eqn:E;
        try (by intros [? ?]).
      intros _. exists json. by apply valueOf_elem.
    - intros [json Hin]. apply (valueOf_elem o key _ Hnd) in Hin.
      rewrite Hin. by eexists. }
  assert (Hsorted : ∀ o, NoDup o.*1 →
            StronglySorted String.le
              (filter (λ x, is_Some (f o x)) (sortedKeys o))
            ∧ NoDup (filter (λ x, is_Some (f o x)) (sortedKeys o))
            ∧ ∀ key, key ∈ filter (λ x, is_Some (f o x)) (sortedKeys o)
                     ↔ ∃ json, (key, Data json) ∈ o).
  { intros o Hnd. split_and!.
    - apply StronglySorted_filter, StronglySorted_merge_sort; apply _.
    - apply NoDup_filter. unfold sortedKeys.
      by rewrite merge_sort_Permutation.
    - intros key. rewrite list_elem_of_filter, (Hdata o key Hnd).
      split; [by intros [? _]|]. intros [json Hin]. split; [eauto|].
      unfold sortedKeys. rewrite merge_sort_Permutation.
      apply list_elem_of_fmap. by exists (key, Data json). }
  destruct (Hsorted o1 Hnd1) as (Hs1 & Hn1 & He1).
  destruct (Hsorted o2 Hnd2) as (Hs2 & Hn2 & He2).
  assert (Hkeys : filter (λ x, is_Some (f o1 x)) (sortedKeys o1)
                  = filter (λ x, is_Some (f o2 x)) (sortedKeys o2)).
  { apply (StronglySorted_unique String.le); [done..|].
    apply NoDup_Permutation; [done..|].
    intros key. rewrite He1, He2. by setoid_rewrite Hsame. }
  rewrite Hkeys. apply list_fmap_ext. intros i key Hkey.
  apply list_elem_of_lookup_2 in Hkey. apply He2 in Hkey as [json Hin2].
  pose proof (proj2 (Hsame key json) Hin2) as Hin1.
  apply (valueOf_elem o1 key _ Hnd1) in Hin1.
  apply (valueOf_elem o2 key _ Hnd2) in Hin2.
  unfold g. by rewrite Hin1, Hin2.
Qed.

(** X26: the hash of an object depends only on its properties that are
    not functions: the order in which the object lists its keys has no
    effect, and neither has any property whose value is a function; [null]
    and [undefined] hash alike. *)
Theorem hashObject_canonical (toString_large : Qc → string)
    (o1 o2 : maybe object) :
  sameData o1 o2 →
  hashObject toString_large o1 = hashObject toString_large o2.
Proof.
  unfold sameData.
  destruct o1 as [| |a], o2 as [| |b]; try done.
  intros (Ha & Hb & Hab). by apply hashObject_same.
Qed.

Lemma foldl_insert_lookup (f : string → string) (keys : list string)
    (m : gmap string string) (c : string) :
  foldl (λ m k, <[k := f k]> m) m keys !! c
  = if decide (c ∈ keys) then Some (f c) else m !! c.
Proof.
  revert m. induction keys as [|k keys IH]; intros m.
  - cbn. rewrite decide_False; [done|]. intros Hc. by apply elem_of_nil in Hc.
  - cbn [foldl]. rewrite IH.
    destruct (decide (c ∈ keys)) as [Hin|Hnin].
    + rewrite decide_True; [done|]. by right.
    + destruct (decide (k = c)) as [->|Hne].
      * rewrite lookup_insert_eq. rewrite decide_True; [done|]. by left.
      * rewrite lookup_insert_ne by done.
        rewrite decide_False; [done|].
        rewrite elem_of_cons. intros [->|?]; done.
Qed.

(** X27: the settings state depends on the settings only through the
    properties of each category that are not functions: settings with the
    same categories, in any order, whose values hold the same such
    properties, in any order, get the same state, and change detection
    reports no changed category between them. *)
Theorem createSettingsState_stable (toString_large : Qc → string)
    (s1 s2 : list (string * maybe object)) :
  (∀ c, c ∈ s1.*1 ↔ c ∈ s2.*1) →
  (∀ c, c ∈ s1.*1 → sameData (categoryOf s1 c) (categoryOf s2 c)) →
  createSettingsState toString_large s1 = createSettingsState toString_large s2
  ∧ detectSettingsChanges (Some (createSettingsState toString_large s1))
      (createSettingsState toString_large s2) = ∅.
Proof.
  intros Hcat Hdata.
  assert (Heq : categoryHashes (createSettingsState toString_large s1)
                = categoryHashes (createSettingsState toString_large s2)).
  { unfold createSettingsState. cbn [categoryHashes].
    apply map_eq. intros c.
    rewrite (foldl_insert_lookup
               (λ c, hashObject toString_large (categoryOf s1 c))).
    rewrite (foldl_insert_lookup
               (λ c, hashObject toString_large (categoryOf s2 c))).
    destruct (decide (c ∈ s1.*1)) as [Hin|Hnin].
    - rewrite decide_True by (by apply Hcat). f_equal.
      specialize (Hdata c Hin). unfold sameData in Hdata.
      destruct (categoryOf s1 c) as [| |a], (categoryOf s2 c) as [| |b];
        try done.
      destruct Hdata as (Ha & Hb & Hab). by apply hashObject_same.
    - rewrite decide_False; [done|]. intros Hin. by apply Hnin, Hcat. }
  split; [|by apply detectSettingsChanges_same].
  destruct (createSettingsState toString_large s1) as [h1],
    (createSettingsState toString_large s2) as [h2].
  cbn in Heq. by subst.
Qed.

Lemma createSettingsState_stable_witness :
  createSettingsState (λ _, "1e+21")
    [("spc", Present [("b", Data "2"); ("a", Data "1")]); ("canvas", Null)]
  = createSettingsState (λ _, "1e+21")
      [("canvas", Undefined); ("spc", Present [("a", Data "1"); ("b", Data "2")])].
Proof.
  refine (proj1 (createSettingsState_stable (λ _, "1e+21")
            [("spc", Present [("b", Data "2"); ("a", Data "1")]);
             ("canvas", Null)]
            [("canvas", Undefined);
             ("spc", Present [("a", Data "1"); ("b", Data "2")])] _ _)).
  - intros c. cbn. rewrite !elem_of_cons, !elem_of_nil. tauto.
  - intros c. cbn [fmap list_fmap fst].
    rewrite !elem_of_cons, elem_of_nil. intros [->|[->|[]]].
    + cbn. split_and!.
      * repeat constructor; rewrite ?elem_of_cons, ?elem_of_nil;
          intros Hc; repeat destruct Hc as [Hc|Hc]; try discriminate Hc; done.
      * repeat constructor; rewrite ?elem_of_cons, ?elem_of_nil;
          intros Hc; repeat destruct Hc as [Hc|Hc]; try discriminate Hc; done.
      * intros key json. rewrite !elem_of_cons, !elem_of_nil. tauto.
    + cbn. done.
Defined.

Lemma hashObject_canonical_witness :
  hashObject (λ _, "1e+21")
    (Present [("b", Data "2"); ("a", Data "1"); ("f", Function)])
  = hashObject (λ _, "1e+21") (Present [("a", Data "1"); ("b", Data "2")]).
Proof.
  apply (hashObject_canonical (λ _, "1e+21")
           (Present [("b", Data "2"); ("a", Data "1"); ("f", Function)])
           (Present [("a", Data "1"); ("b", Data "2")])).
  cbn. split_and!.
  - repeat constructor; rewrite ?elem_of_cons, ?elem_of_nil;
      intros Hc; repeat destruct Hc as [Hc|Hc]; try discriminate Hc; done.
  - repeat constructor; rewrite ?elem_of_cons, ?elem_of_nil;
      intros Hc; repeat destruct Hc as [Hc|Hc]; try discriminate Hc; done.
  - intros key json. rewrite !elem_of_cons, !elem_of_nil. split.
    + intros [Hc|[Hc|[Hc|Hc]]]; try discriminate Hc; try done;
        injection Hc as -> ->; auto.
    + intros [Hc|[Hc|Hc]]; try done; injection Hc as -> ->; auto.
Defined.

End HashObjectFacts.

Section ManagerFacts.
Import Manager.
Context {Result Duration : Type}.
Abbreviation MState := (Manager.state Result Duration).
Abbreviation MEvent := (Manager.event Result Duration).

Lemma requestId_inj (a b : nat) : requestId a = requestId b → a = b.
Proof.
  unfold requestId. intros Heq.
  apply (inj (String.append "req-")) in Heq. by apply (inj pretty) in Heq.
Qed.

Lemma elem_of_remove (r q : string) (pending : list string) :
  r ∈ remove q pending ↔ r ∈ pending ∧ r ≠ q.
Proof. unfold remove. rewrite list_elem_of_filter. tauto. Qed.

Lemma track_length (times : list Duration) (d : Duration) :
  (length times ≤ 100)%nat → (length (track times d) ≤ 100)%nat.
Proof.
  intros Hlen. unfold track. cbv zeta.
  destruct (100 <? length (times ++ [d]))%nat eqn:E.
  - rewrite length_drop, length_app. simpl. lia.
  - apply Nat.ltb_ge in E. done.
Qed.

(** Taking one pending request out and settling it keeps the bookkeeping
    consistent. *)
Lemma settle_one (s : MState) (r : string)
    (how : settlement Result) (times : list Duration) :
  consistent s → r ∈ pendingRequests s → (length times ≤ 100)%nat →
  consistent
    {| worker := worker s; isReady := isReady s;
       pendingRequests := remove r (pendingRequests s);
       requestCounter := requestCounter s;
       workerExecutionTimes := times;
       timers := timers s ∖ {[r]};
       settled := settled s ++ [(r, how)];
       posted := posted s |}.
Proof.
  intros (Hnd & Htim & Hsnd & Hdis & Hids & Hlen) Hin Htimes.
  unfold consistent.
  cbn [pendingRequests timers settled requestCounter workerExecutionTimes].
  rewrite fmap_app. cbn [fmap list_fmap fst].
  split_and!.
  - by apply NoDup_filter.
  - intros q. rewrite elem_of_difference, elem_of_singleton, elem_of_remove.
    by rewrite Htim.
  - apply NoDup_app. split_and!; [done| |apply NoDup_singleton].
    intros q Hq Hq'. apply list_elem_of_singleton in Hq' as ->.
    by apply (Hdis r).
  - intros q. rewrite elem_of_app, list_elem_of_singleton, elem_of_remove.
    intros [Hq| ->] [Hq' Hne]; [by apply (Hdis q)|done].
  - intros q. rewrite elem_of_app, list_elem_of_singleton, elem_of_remove.
    intros [[Hq _]|[Hq| ->]]; apply Hids; auto.
  - done.
Qed.

Lemma rejectAll_consistent (s : MState) (message : string) :
  consistent s → consistent (rejectAll s message).
Proof.
  intros (Hnd & Htim & Hsnd & Hdis & Hids & Hlen).
  unfold consistent, rejectAll.
  cbn [pendingRequests timers settled requestCounter workerExecutionTimes].
  rewrite fmap_app, <- list_fmap_compose.
  assert (Hid : (fst ∘ (λ r : string, (r, Reject (Result := Result) message)))
                <$> pendingRequests s = pendingRequests s).
  { generalize (pendingRequests s). intros l.
    induction l as [|x l IH]; [done|]. cbn. by rewrite IH. }
  rewrite Hid. split_and!.
  - constructor.
  - intros q. rewrite elem_of_difference, elem_of_list_to_set, Htim.
    split; [tauto|]. intros Hq. by apply elem_of_nil in Hq.
  - apply NoDup_app. split_and!; [done| |done].
    intros q Hq Hq'. by apply (Hdis q).
  - intros q _ Hq. by apply elem_of_nil in Hq.
  - intros q [Hq|Hq]; [by apply elem_of_nil in Hq|].
    apply elem_of_app in Hq. apply Hids. tauto.
  - done.
Qed.

Lemma step_consistent (s : MState) (e : MEvent) :
  consistent s → consistent (step s e).
Proof.
  intros Hc. destruct e as [| |r success result error duration|r|r| |msg|];
    cbn [step].
  - exact Hc.
  - unfold sendMessage.
    destruct (negb (worker s) || negb (isReady s)); [exact Hc|].
    cbn [fst].
    destruct Hc as (Hnd & Htim & Hsnd & Hdis & Hids & Hlen).
    assert (Hfresh : ∀ r, r ∈ pendingRequests s ∨ r ∈ (settled s).*1 →
              r ≠ requestId (S (requestCounter s))).
    { intros r Hr Heq. destruct (Hids r Hr) as (k & Hk & ->).
      apply requestId_inj in Heq. lia. }
    rewrite bool_decide_eq_false_2
      by (intros Hin; by apply (Hfresh _ (or_introl Hin))).
    unfold consistent.
    cbn [pendingRequests timers settled requestCounter workerExecutionTimes].
    split_and!.
    + apply NoDup_app. split_and!; [done| |apply NoDup_singleton].
      intros q Hq Hq'. apply list_elem_of_singleton in Hq' as ->.
      by apply (Hfresh _ (or_introl Hq)).
    + intros q. rewrite elem_of_union, elem_of_singleton, elem_of_app,
        list_elem_of_singleton, Htim. tauto.
    + done.
    + intros q Hq. rewrite elem_of_app, list_elem_of_singleton.
      intros [Hq'| ->]; [by apply (Hdis q)|].
      by apply (Hfresh _ (or_intror Hq)).
    + intros q. rewrite elem_of_app, list_elem_of_singleton.
      intros [[Hq| ->]|Hq].
      * destruct (Hids q (or_introl Hq)) as (k & Hk & ->).
        exists k. split; [lia|done].
      * exists (S (requestCounter s)). split; [lia|done].
      * destruct (Hids q (or_intror Hq)) as (k & Hk & ->).
        exists k. split; [lia|done].
    + done.
  - unfold handleWorkerMessage. case_bool_decide as Hin; [|exact Hc].
    apply settle_one; [done..|].
    destruct Hc as (_ & _ & _ & _ & _ & Hlen).
    destruct duration; [by apply track_length|done].
  - unfold timeout. case_bool_decide as Hin; [|exact Hc].
    apply settle_one; [done| |by destruct Hc as (_ & _ & _ & _ & _ & Hlen)].
    destruct Hc as (_ & Htim & _). by apply Htim.
  - unfold cancelRequest. case_bool_decide as Hin; [|exact Hc]. cbn [fst].
    apply settle_one; [done..|]. by destruct Hc as (_ & _ & _ & _ & _ & Hlen).
  - by apply rejectAll_consistent.
  - unfold handleWorkerError, terminate, cancelAllRequests.
    by apply (rejectAll_consistent _ _ (rejectAll_consistent _ _ Hc)).
  - unfold terminate, cancelAllRequests.
    by apply (rejectAll_consistent _ _ Hc).
Qed.

Lemma initial_consistent : consistent (initial : MState).
Proof.
  unfold consistent. cbn. split_and!; try constructor; try done.
  - intros Hr. by apply elem_of_nil in Hr.
  - intros r Hr. by apply elem_of_nil in Hr.
  - intros r [Hr|Hr]; by apply elem_of_nil in Hr.
  - lia.
Qed.

Lemma step_issued (s : MState) (e : MEvent) : issued s → issued (step s e).
Proof.
  unfold issued. intros Hp.
  destruct e as [| |r success result error duration|r|r| |msg|]; cbn [step].
  - exact Hp.
  - unfold sendMessage.
    destruct (negb (worker s) || negb (isReady s)); [exact Hp|].
    cbn [fst posted requestCounter].
    by rewrite seq_S, fmap_app, Hp.
  - unfold handleWorkerMessage. by case_bool_decide.
  - unfold timeout. by case_bool_decide.
  - unfold cancelRequest. by case_bool_decide.
  - exact Hp.
  - exact Hp.
  - exact Hp.
Qed.

Lemma issued_NoDup (s : MState) : issued s → NoDup (posted s).
Proof.
  unfold issued. intros ->. apply NoDup_fmap_2; [|apply NoDup_seq].
  intros a b. apply requestId_inj.
Qed.

(** X29: however requests are sent, answered, timed out and cancelled, the
    bookkeeping of the manager stays consistent: exactly the pending
    requests have their timeout running, every request is settled at most
    once and is no longer pending then, at most 100 execution times are
    kept, and no request id is issued twice: the messages posted to the
    worker carry the ids req-1 to req-requestCounter, one message each, and
    every pending or settled request is one of them. *)
Theorem manager_consistent (events : list MEvent) :
  let s := run initial events in
  NoDup (pendingRequests s)
  ∧ (∀ r, r ∈ timers s ↔ r ∈ pendingRequests s)
  ∧ NoDup (settled s).*1
  ∧ (∀ r, r ∈ (settled s).*1 → r ∉ pendingRequests s)
  ∧ (∀ r, r ∈ pendingRequests s ∨ r ∈ (settled s).*1 →
          ∃ k, (1 ≤ k ≤ requestCounter s)%nat ∧ r = requestId k)
  ∧ (length (workerExecutionTimes s) ≤ 100)%nat
  ∧ posted s = requestId <$> seq 1 (requestCounter s)
  ∧ NoDup (posted s)
  ∧ (∀ r, r ∈ pendingRequests s ∨ r ∈ (settled s).*1 → r ∈ posted s).
Proof.
  cbv zeta.
  assert (Hinv : consistent (run initial events) ∧ issued (run initial events)).
  { unfold run. induction events as [|e events IH] using rev_ind.
    - split; [apply initial_consistent|reflexivity].
    - rewrite foldl_app. cbn [foldl]. destruct IH as [Hc Hi].
      split; [by apply step_consistent|by apply step_issued]. }
  destruct Hinv as [(Hnd & Htim & Hsnd & Hdis & Hids & Hlen) Hi].
  split_and!; try done.
  - by apply issued_NoDup.
  - intros r Hr. destruct (Hids r Hr) as (k & Hk & ->).
    rewrite Hi. apply list_elem_of_fmap. exists k. split; [done|].
    apply elem_of_seq. lia.
Qed.

(** X30: the answer of the worker to a pending request settles it, with
    the result when it reports success, takes it out of the pending
    requests and clears its timeout; a second answer, the timeout or a
    cancellation for the same request afterwards changes nothing. *)
Theorem manager_settles_once (s : MState) (r : string) (success : bool)
    (result : Result) (error : option string) (duration : option Duration) :
  consistent s → r ∈ pendingRequests s →
  let answered := handleWorkerMessage s r success result error duration in
  (∃ how, settled answered = (settled s ++ [(r, how)])
          ∧ (success = true → how = Resolve result))
  ∧ (r ∉ pendingRequests answered) ∧ (r ∉ timers answered)
  ∧ handleWorkerMessage answered r success result error duration = answered
  ∧ timeout answered r = answered
  ∧ cancelRequest answered r = (answered, false).
Proof.
  intros Hc Hin answered.
  assert (Hans : answered = handleWorkerMessage s r success result error
                              duration) by done.
  unfold handleWorkerMessage in Hans.
  rewrite (bool_decide_eq_true_2 _ Hin) in Hans.
  assert (Hgone : r ∉ pendingRequests answered).
  { rewrite Hans. cbn [pendingRequests]. rewrite elem_of_remove. tauto. }
  assert (Htime : r ∉ timers answered).
  { rewrite Hans. cbn [timers]. rewrite elem_of_difference, elem_of_singleton.
    tauto. }
  split_and!.
  - eexists. split; [by rewrite Hans|]. by intros ->.
  - done.
  - done.
  - unfold handleWorkerMessage. by rewrite (bool_decide_eq_false_2 _ Hgone).
  - unfold timeout. by rewrite (bool_decide_eq_false_2 _ Htime).
  - unfold cancelRequest. by rewrite (bool_decide_eq_false_2 _ Hgone).
Qed.

End ManagerFacts.

Section ManagerExample.
Import Manager.

Lemma manager_settles_once_witness :
  timeout
    (handleWorkerMessage (Result := nat) (Duration := nat)
       (run initial [Ready; SendMessage]) (requestId 1) true 7%nat None None)
    (requestId 1)
  = handleWorkerMessage (run initial [Ready; SendMessage]) (requestId 1)
      true 7%nat None None.
Proof.
  refine (proj1 (proj2 (proj2 (proj2 (proj2
            (manager_settles_once (Result := nat) (Duration := nat)
               (run initial [Ready; SendMessage]) (requestId 1) true 7%nat
               None None _ _)))))).
  - apply (step_consistent (step initial Ready) SendMessage).
    apply (step_consistent initial Ready). apply initial_consistent.
  - vm_compute. constructor.
Defined.

End ManagerExample.

Section DebounceFacts.
Import Debounce.
Context {Args : Type}.
Abbreviation DState := (Debounce.state Args).
Abbreviation DEvent := (Debounce.event Args).

Lemma orphans_bounded (s : DState) (t : nat) :
  bounded s → is_Some (orphans s !! t) → (t < nextHandle s)%nat.
Proof.
  intros Hb Ht. apply Hb. unfold orphans in Ht.
  destruct (timeoutId s) as [t'|]; [|done].
  apply lookup_delete_is_Some in Ht. tauto.
Qed.

(** A call replaces the timeout that [timeoutId] names and leaves the
    others. *)
Lemma call_spec (s : DState) (args : Args) :
  bounded s →
  timers (call s args) = <[nextHandle s := args]> (orphans s)
  ∧ orphans s !! nextHandle s = None
  ∧ orphans (call s args) = orphans s
  ∧ bounded (call s args).
Proof.
  intros Hb.
  assert (Hfresh : orphans s !! nextHandle s = None).
  { apply eq_None_not_Some. intros Hs.
    apply (orphans_bounded _ _ Hb) in Hs. lia. }
  split_and!; [reflexivity|exact Hfresh| |].
  - unfold orphans at 1. cbn [call timeoutId timers].
    fold (orphans s). by apply delete_insert_id.
  - intros t. cbn [call timers nextHandle]. fold (orphans s).
    rewrite lookup_insert_is_Some. intros [->|[_ Ht]]; [lia|].
    apply (orphans_bounded _ _ Hb) in Ht. lia.
Qed.

Lemma calls_bounded (s : DState) (l : list Args) :
  bounded s → bounded (foldl call s l).
Proof.
  revert s. induction l as [|a l IH]; intros s Hb; [done|].
  cbn [foldl]. apply IH. by apply call_spec.
Qed.

Lemma step_bounded (s : DState) (e : DEvent) : bounded s → bounded (step s e).
Proof.
  intros Hb. destruct e as [args|t inner throws]; cbn [step].
  - by apply call_spec.
  - unfold fire. destruct (timers s !! t) as [args|] eqn:E; [|done].
    cbv zeta.
    set (entered := {| timeoutId := timeoutId s; timers := delete t (timers s);
                       nextHandle := nextHandle s; calls := calls s ++ [args] |}).
    assert (He : bounded entered).
    { intros t'. cbn [entered timers nextHandle].
      intros Ht'. apply lookup_delete_is_Some in Ht'. apply Hb. tauto. }
    pose proof (calls_bounded entered inner He) as Hl.
    destruct throws; [exact Hl|]. exact Hl.
Qed.

Lemma run_bounded (events : list DEvent) : bounded (run initial events).
Proof.
  unfold run. induction events as [|e events IH] using rev_ind.
  - intros t. cbn. rewrite lookup_empty. by intros [? ?].
  - rewrite foldl_app. cbn [foldl]. by apply step_bounded.
Qed.

(** While [fn] does not call the debounced function, no timeout is
    orphaned. *)
Lemma step_no_orphans (s : DState) (e : DEvent) :
  bounded s → plain e → orphans s = ∅ → orphans (step s e) = ∅.
Proof.
  intros Hb He Ho. destruct e as [args|t inner throws]; cbn [step].
  - destruct (call_spec s args Hb) as (_ & _ & -> & _). exact Ho.
  - cbn [plain] in He. subst inner. unfold fire.
    destruct (timers s !! t) as [args|] eqn:E; [|exact Ho].
    cbv zeta. cbn [foldl].
    assert (Hgone : delete t (timers s) = ∅).
    { unfold orphans in Ho. destruct (timeoutId s) as [t'|].
      - destruct (decide (t = t')) as [->|Hne]; [exact Ho|].
        assert (Hn : delete t' (timers s) !! t = None) by (by rewrite Ho).
        rewrite lookup_delete_ne in Hn by done. congruence.
      - rewrite Ho in E. by rewrite lookup_empty in E. }
    destruct throws; unfold orphans; cbn [timeoutId timers]; rewrite Hgone.
    + destruct (timeoutId s); [apply delete_empty|done].
    + done.
Qed.

Lemma run_no_orphans (events : list DEvent) :
  Forall plain events → orphans (run initial events) = ∅.
Proof.
  unfold run. induction events as [|e events IH] using rev_ind; [done|].
  intros Hall. apply Forall_app in Hall as [Hev He].
  apply Forall_cons in He as [He _].
  rewrite foldl_app. cbn [foldl].
  apply step_no_orphans; [apply run_bounded|done|by apply IH].
Qed.

Lemma last_nonempty (l : list Args) (x a b : Args) :
  List.last (x :: l) a = List.last (x :: l) b.
Proof.
  revert x. induction l as [|y l IH]; intros x; [done|].
  change (List.last (y :: l) a = List.last (y :: l) b). apply IH.
Qed.

Lemma burst (s : DState) (first : Args) (more : list Args) :
  bounded s →
  let called := foldl call s (first :: more) in
  let h := (nextHandle s + length more)%nat in
  timeoutId called = Some h
  ∧ timers called = <[h := List.last more first]> (orphans s)
  ∧ orphans s !! h = None
  ∧ calls called = calls s.
Proof.
  revert s first. induction more as [|a more IH]; intros s first Hs.
  - cbv zeta. cbn [foldl length List.last].
    destruct (call_spec s first Hs) as (Ht & Hfresh & _ & _).
    rewrite Nat.add_0_r. by split_and!.
  - cbv zeta. cbn [foldl].
    destruct (call_spec s first Hs) as (_ & _ & Ho & Hs').
    destruct (IH (call s first) a Hs') as (H1 & H2 & H3 & H4).
    cbn [foldl] in H1, H2, H3, H4. rewrite Ho in H2, H3.
    cbn [call nextHandle calls] in H1, H2, H3, H4.
    replace (nextHandle s + length (a :: more))%nat
      with (S (nextHandle s) + length more)%nat by (cbn; lia).
    split_and!; try done.
    rewrite H2. f_equal. destruct more as [|b more]; [done|].
    change (List.last (a :: b :: more) first)
      with (List.last (b :: more) first). apply last_nonempty.
Qed.

(** A call of the debounced function from inside [fn] leaves a timeout
    that the callback orphans when it sets [timeoutId] to null: the next
    call does not clear it, and two timeouts are set. *)
Example debounce_reentrant_orphan :
  let s := run (Args := nat) initial [Call 1%nat; Fire 0 [2%nat] false] in
  calls s = [1%nat] ∧ timeoutId s = None ∧ timers s = {[1%nat := 2%nat]}
  ∧ timers (call s 3%nat) = {[1%nat := 2%nat; 2%nat := 3%nat]}.
Proof. by split_and!. Qed.

(** X28: after any history, a burst of calls of a debounced function sets
    one timeout, which holds the arguments of the last call, beside the
    timeouts that earlier calls from inside [fn] left orphaned; the earlier
    calls of the burst and the timeout that [timeoutId] named before it
    never reach [fn].  When the timeout fires and [fn] neither calls the
    debounced function nor throws, [fn] is called once, with these
    arguments, and the orphaned timeouts are what is left.  If [fn] has
    never called the debounced function, there is no orphaned timeout: the
    burst leaves exactly one timeout, and none once it has fired. *)
Theorem debounce_last_wins (events : list DEvent) (first : Args)
    (more : list Args) :
  let s := run initial events in
  let called := foldl call s (first :: more) in
  ∃ h, timeoutId called = Some h
       ∧ orphans s !! h = None
       ∧ timers called = <[h := List.last more first]> (orphans s)
       ∧ calls called = calls s
       ∧ calls (fire called h [] false) = calls s ++ [List.last more first]
       ∧ timers (fire called h [] false) = orphans s
       ∧ timeoutId (fire called h [] false) = None
       ∧ (Forall plain events →
          orphans s = ∅
          ∧ timers called = {[h := List.last more first]}
          ∧ timers (fire called h [] false) = ∅).
Proof.
  intros s called.
  destruct (burst s first more (run_bounded events)) as (H1 & H2 & H3 & H4).
  fold called in H1, H2, H4.
  exists (nextHandle s + length more)%nat.
  assert (Hfire : fire called (nextHandle s + length more) [] false
                  = {| timeoutId := None; timers := orphans s;
                       nextHandle := nextHandle called;
                       calls := calls s ++ [List.last more first] |}).
  { unfold fire. rewrite H2, lookup_insert_eq. cbv zeta. cbn [foldl].
    cbn [timers nextHandle calls]. rewrite H4. f_equal.
    by apply delete_insert_id. }
  rewrite Hfire. cbn [calls timers timeoutId].
  split_and!; try done.
  intros Hplain. pose proof (run_no_orphans events Hplain) as Ho.
  fold s in Ho. rewrite H2, Ho. by split_and!.
Qed.

End DebounceFacts.
